(** * DHALSIM anomaly detector: the tank-level detection engine

    A shallow embedding of [detector/realtime_general_mongo.py]: the three
    detectors ([check_cusum], [check_invariants], [check_drift]), the helper
    [compute_threshold_and_residual], the database helpers, topology
    discovery, the seeding of the per-tank state and the polling loop of
    [monitor], with the lazy MongoDB handles of [modules/mongodb_config.py]
    that [monitor] asks for, followed by the properties of the detection
    engine.

    Modelling conventions.
    - A Python [float] is an exact rational ([Q]); rounding is not modelled.
      Comparisons are the boolean ones the code performs, [max]/[min] are the
      Python builtins (first argument wins a tie).
    - A [dict] keyed by entity name is a [gmap string _]; [d[k]] on a missing
      key raises [KeyError], [d.get(k, v)] is [default v (d !! k)].
    - The module-level globals and the function attributes that
      [check_invariants] keeps on itself form one record, [World], threaded
      through every call; an exception leaves the mutations made so far in
      place, as in Python.
    - A [deque(maxlen=W)] is a list, oldest sample first.
    - The database is what its queries come to: a poll is the iteration id,
      if any, and the snapshot; [safe_db_query] runs over what the
      successive attempts at one query come to.
    - An entity name is a string of characters below 256, where the class
      [\d] of the two name patterns is the ten ASCII digits. *)

From Stdlib Require Import QArith Qabs Qminmax Lqa ZArith Ascii.
From stdpp Require Import base option list sorting strings gmap.

Local Open Scope Q_scope.

(** * Part I: the program *)

(** ** Module constants (lines 16-35) *)

Definition W : nat := 144.
Definition DECAY : Q := 99 # 100.
Definition PERSISTENCE_THRESHOLD : nat := 2.
Definition k_a_max : Q := 3 # 10.
Definition MIN_H : Q := 8 # 10.
Definition MAX_H : Q := 10 # 1.
Definition residual_mode : string := "median".
Definition threshold_mode : string := "mad".
Definition INV_PERSIST : nat := 2.
Definition DEAD_BAND : Q := 1 # 10.
Definition DRIFT_THRESHOLD : Q := 6 # 10.

(** The gain stored in [k_attack] for every discovered tank (line 233). *)
Definition K_ATTACK_SEED : Q := 135 # 100.

(** ** Python and numpy arithmetic on rationals *)

(** [a < b] as a boolean. *)
Definition Qltb (a b : Q) : bool := negb (Qle_bool b a).

(** [max(a, b)]: the second argument is taken only when strictly greater. *)
Definition pymax (a b : Q) : Q := if Qltb a b then b else a.

(** [min(a, b)]: the second argument is taken only when strictly smaller. *)
Definition pymin (a b : Q) : Q := if Qltb b a then b else a.

(** Truthiness of a number: anything but zero. *)
Definition truthy (x : Q) : bool := negb (Qeq_bool x 0).

Definition Qsum (l : list Q) : Q := foldr Qplus 0 l.

(** [np.mean]: sum over length (numpy yields nan on an empty input; here the
    quotient by zero is 0, a case no caller reaches). *)
Definition np_mean (l : list Q) : Q := Qsum l / inject_Z (Z.of_nat (length l)).

#[global] Instance Qle_dec (x y : Q) : Decision (x <= y) := Z_le_dec _ _.

Definition Qsort (l : list Q) : list Q := merge_sort Qle l.

(** [np.median]: the middle element of the sorted data, or the mean of the
    two middle ones when the length is even. *)
Definition np_median (l : list Q) : Q :=
  let s := Qsort l in
  let n := length s in
  if Nat.even n
  then (nth (n / 2 - 1) s 0 + nth (n / 2) s 0) / 2
  else nth (n / 2) s 0.

(** [np.mean(np.abs(np.array(buf) - np.median(buf)))]. *)
Definition mean_abs_dev (buf : list Q) : Q :=
  let m := np_median buf in
  np_mean (map (fun x => Qabs (x - m)) buf).

(** [deque(maxlen=W).append(x)]: a full deque drops its oldest element. *)
Definition deque_append (x : Q) (d : list Q) : list Q :=
  if (W <=? length d)%nat then tail d ++ [x] else d ++ [x].

(** ** Alerts, detector state and the world *)

(** The alert dictionaries built by the three detectors, one constructor per
    shape, carrying the fields the code stores. *)
Inductive Alert : Type :=
  | CUSUM_ALARM (iteration : Z) (tank : string) (c_plus c_minus : Q) (persist : nat)
  | INVARIANT_VIOLATION (iteration : Z) (tank : string) (level prev : Q) (persist : nat)
  | TANK_EMPTY (iteration : Z) (tank : string)
  | MEAN_DRIFT (iteration : Z) (tank : string) (baseline current : Q).

(** One value of [cusum_state]: the keys ["h_t"] and ["persist"] are absent
    until the first detection step writes them. *)
Record CusumEntry : Type := mkCusum {
  buffer : list Q;
  C_plus : Q;
  C_minus : Q;
  h_t : option Q;
  persist : option nat
}.

Inductive Exn : Type :=
  | KeyError (key : string)
  | NameError (name : string).

(** What the loop prints. *)
Inductive Line : Type :=
  | AlertLine (a : Alert)
  | WarmupLine (counts : list (string * nat))
  | SummaryLine (current_time : Z) (summary : list (string * Q * Q * Q))
  | ErrorLine (e : Exn).

(** Module globals (lines 39-44), the attributes [prev_<tank>] and
    [badcnt_<tank>] of [check_invariants], the local [last_time] of
    [monitor] and the lines printed so far (newest last). *)
Record World : Type := mkWorld {
  tanks : list string;
  pumps : list string;
  k_attack : gmap string Q;
  cusum_state : gmap string CusumEntry;
  long_term_buffers : gmap string (list Q);
  last_block_mean : gmap string (option Q);
  attr_prev : gmap string Q;
  attr_badcnt : gmap string nat;
  last_time : Z;
  stdout : list Line
}.

Definition set_cusum_state (f : gmap string CusumEntry → gmap string CusumEntry)
    (w : World) : World :=
  mkWorld (tanks w) (pumps w) (k_attack w) (f (cusum_state w))
    (long_term_buffers w) (last_block_mean w) (attr_prev w) (attr_badcnt w)
    (last_time w) (stdout w).

Definition set_long_term_buffers (f : gmap string (list Q) → gmap string (list Q))
    (w : World) : World :=
  mkWorld (tanks w) (pumps w) (k_attack w) (cusum_state w)
    (f (long_term_buffers w)) (last_block_mean w) (attr_prev w) (attr_badcnt w)
    (last_time w) (stdout w).

Definition set_last_block_mean (f : gmap string (option Q) → gmap string (option Q))
    (w : World) : World :=
  mkWorld (tanks w) (pumps w) (k_attack w) (cusum_state w)
    (long_term_buffers w) (f (last_block_mean w)) (attr_prev w) (attr_badcnt w)
    (last_time w) (stdout w).

Definition set_attr_prev (f : gmap string Q → gmap string Q) (w : World) : World :=
  mkWorld (tanks w) (pumps w) (k_attack w) (cusum_state w)
    (long_term_buffers w) (last_block_mean w) (f (attr_prev w)) (attr_badcnt w)
    (last_time w) (stdout w).

Definition set_attr_badcnt (f : gmap string nat → gmap string nat) (w : World) : World :=
  mkWorld (tanks w) (pumps w) (k_attack w) (cusum_state w)
    (long_term_buffers w) (last_block_mean w) (attr_prev w) (f (attr_badcnt w))
    (last_time w) (stdout w).

Definition set_last_time (t : Z) (w : World) : World :=
  mkWorld (tanks w) (pumps w) (k_attack w) (cusum_state w)
    (long_term_buffers w) (last_block_mean w) (attr_prev w) (attr_badcnt w)
    t (stdout w).

Definition print (l : Line) (w : World) : World :=
  mkWorld (tanks w) (pumps w) (k_attack w) (cusum_state w)
    (long_term_buffers w) (last_block_mean w) (attr_prev w) (attr_badcnt w)
    (last_time w) (stdout w ++ [l]).

(** ** The monad of a Python call: state that survives a raise *)

Inductive Result (A : Type) : Type :=
  | Ok (a : A)
  | Raise (e : Exn).
Arguments Ok {A} a.
Arguments Raise {A} e.

Definition M (A : Type) : Type := World → World * Result A.

#[global] Instance M_ret : MRet M := λ A a w, (w, Ok a).
#[global] Instance M_bind : MBind M := λ A B f m w,
  match m w with
  | (w', Ok a) => f a w'
  | (w', Raise e) => (w', Raise e)
  end.

Definition raise {A : Type} (e : Exn) : M A := λ w, (w, Raise e).
Definition get : M World := λ w, (w, Ok w).
Definition modify (f : World → World) : M unit := λ w, (f w, Ok tt).

(** [d[k]] on a global dictionary [d]. *)
Definition subscript {V : Type} (d : World → gmap string V) (k : string) : M V :=
  λ w, match d w !! k with
       | Some v => (w, Ok v)
       | None => (w, Raise (KeyError k))
       end.

(** [for tank in l: alerts.extend(body(tank))]. *)
Fixpoint for_tanks (l : list string) (body : string → M (list Alert)) : M (list Alert) :=
  match l with
  | [] => mret []
  | t :: l' => a ← body t; b ← for_tanks l' body; mret (a ++ b)
  end.

(** [any(f(t) for t in l)] and [all(f(t) for t in l)], which stop at the
    first decisive element. *)
Fixpoint any_m (l : list string) (f : string → M bool) : M bool :=
  match l with
  | [] => mret false
  | t :: l' => b ← f t; if b : bool then mret true else any_m l' f
  end.

Fixpoint all_m (l : list string) (f : string → M bool) : M bool :=
  match l with
  | [] => mret true
  | t :: l' => b ← f t; if b : bool then all_m l' f else mret false
  end.

(** ** Topology seeding (lines 232-243) *)

(** The state [monitor] builds once the tank and pump names are known; the
    names come from [SELECT DISTINCT name], so each list has no repeats. *)
Definition discover (ts ps : list string) : World :=
  {| tanks := ts;
     pumps := ps;
     k_attack := list_to_map ((λ t, (t, K_ATTACK_SEED)) <$> ts);
     cusum_state := list_to_map ((λ t, (t, mkCusum [] 0 0 None None)) <$> ts);
     long_term_buffers := list_to_map ((λ t, (t, [])) <$> ts);
     last_block_mean := list_to_map ((λ t, (t, None)) <$> ts);
     attr_prev := ∅;
     attr_badcnt := ∅;
     last_time := (-1)%Z;
     stdout := [] |}.

(** What one poll of the database copy returns: [get_master_time] and
    [get_current_state]. *)
Record Poll : Type := mkPoll {
  master_time : option Z;
  plant : gmap string Q
}.

(** [np.std], used only when [threshold_mode] is not ["mad"]; a square root
    leaves the rationals, so numpy's function stays an interface. *)
Class Numpy : Type := { np_std : list Q → Q }.

Section Detector.

Context `{numpy : Numpy}.

(** ** compute_threshold_and_residual (lines 70-83)

    The global dictionary [k_attack] the function reads is its first
    argument here. *)

Definition compute_threshold_and_residual (k_attack : gmap string Q) (buffer : list Q)
    (x_t : Q) (tank : string) : Q * Q * Q :=
  let buf := buffer in
  let estimate :=
    if String.eqb residual_mode "median" then np_median buf else np_mean buf in
  let residual := x_t - estimate in
  if String.eqb threshold_mode "mad" then
    let mad := mean_abs_dev buf in
    let rolling_mad := pymax ((14826 # 10000) * mad) (1 # 1000000) in
    let h_t := pymin (pymax (3 * rolling_mad) MIN_H) MAX_H in
    let k_a := pymax k_a_max (default k_a_max (k_attack !! tank) * rolling_mad) in
    (residual, h_t, k_a)
  else
    let std := pymax (np_std buf) (1 # 1000000) in
    let h_t := pymin (pymax (3 * std) MIN_H) MAX_H in
    let k_a := pymax k_a_max (default k_a_max (k_attack !! tank) * std) in
    (residual, h_t, k_a).

(** ** check_cusum (lines 86-123) *)

(** The body of the loop for one tank, on that tank's entry [st]; the global
    [k_attack] it reads is passed in. *)
Definition cusum_update (k_attack : gmap string Q) (x_t : Q) (current_time : Z) (tank : string)
    (st : CusumEntry) : CusumEntry * list Alert :=
  if (length (buffer st) <? W)%nat then
    (mkCusum (deque_append x_t (buffer st)) (C_plus st) (C_minus st) (h_t st) (persist st), [])
  else
    let '(residual, h, k_a) := compute_threshold_and_residual k_attack (buffer st) x_t tank in
    let buffer' := deque_append x_t (buffer st) in
    let c_plus := pymax 0 (DECAY * C_plus st + residual - k_a) in
    let c_minus := pymax 0 (DECAY * C_minus st - residual - k_a) in
    let above := Qltb h c_plus || Qltb h c_minus in
    let persist0 := default 0%nat (persist st) in
    let persist' :=
      if above then Nat.min (persist0 + 1) PERSISTENCE_THRESHOLD else 0%nat in
    (mkCusum buffer' c_plus c_minus (Some h) (Some persist'),
     if (PERSISTENCE_THRESHOLD <=? persist')%nat
     then [CUSUM_ALARM current_time tank c_plus c_minus persist']
     else []).

Definition cusum_tank (state : gmap string Q) (current_time : Z) (tank : string)
    : M (list Alert) :=
  let x_t := default 0 (state !! tank) in
  st ← subscript cusum_state tank;
  w ← get;
  let '(st', alerts) := cusum_update (k_attack w) x_t current_time tank st in
  modify (set_cusum_state (<[tank := st']>));;
  mret alerts.

Definition check_cusum (state : gmap string Q) (current_time : Z) : M (list Alert) :=
  w ← get;
  for_tanks (tanks w) (cusum_tank state current_time).

(** ** check_invariants (lines 126-175) *)

Definition invariant_tank (state : gmap string Q) (current_time : Z) (pump_on : bool)
    (tank : string) : M (list Alert) :=
  w ← get;
  let level := default 0 (state !! tank) in
  let prev := attr_prev w !! tank in
  let badcnt := default 0%nat (attr_badcnt w !! tank) in
  modify (set_attr_prev (<[tank := level]>));;
  match prev with
  | None => mret []
  | Some prev =>
      let delta := level - prev in
      let violated :=
        (pump_on && Qltb delta (- DEAD_BAND)) || (negb pump_on && Qltb DEAD_BAND delta) in
      let badcnt := if violated then (badcnt + 1)%nat else 0%nat in
      modify (set_attr_badcnt (<[tank := badcnt]>));;
      fired ← (if (INV_PERSIST <=? badcnt)%nat
               then modify (set_attr_badcnt (<[tank := 0%nat]>));;
                    mret [INVARIANT_VIOLATION current_time tank level prev badcnt]
               else mret []);
      mret (fired ++ (if Qeq_bool level 0 then [TANK_EMPTY current_time tank] else []))
  end.

Definition check_invariants (state : gmap string Q) (current_time : Z) : M (list Alert) :=
  w ← get;
  let pump_on := existsb (λ p, truthy (default 0 (state !! p))) (pumps w) in
  for_tanks (tanks w) (invariant_tank state current_time pump_on).

(** ** check_drift (lines 178-197) *)

Definition drift_append (state : gmap string Q) (tank : string) : M (list Alert) :=
  buf ← subscript long_term_buffers tank;
  modify (set_long_term_buffers (<[tank := deque_append (default 0 (state !! tank)) buf]>));;
  mret [].

Definition drift_block (current_time : Z) (tank : string) : M (list Alert) :=
  buf ← subscript long_term_buffers tank;
  let cur_mean := np_mean buf in
  prev_mean ← subscript last_block_mean tank;
  modify (set_last_block_mean (<[tank := Some cur_mean]>));;
  mret (match prev_mean with
        | Some pm =>
            if Qltb DRIFT_THRESHOLD (Qabs (cur_mean - pm))
            then [MEAN_DRIFT current_time tank pm cur_mean]
            else []
        | None => []
        end).

Definition drift_clear (tank : string) : M (list Alert) :=
  _ ← subscript long_term_buffers tank;
  modify (set_long_term_buffers (<[tank := []]>));;
  mret [].

Definition drift_full (tank : string) : M bool :=
  buf ← subscript long_term_buffers tank;
  mret (W <=? length buf)%nat.

Definition check_drift (state : gmap string Q) (current_time : Z) : M (list Alert) :=
  w ← get;
  for_tanks (tanks w) (drift_append state);;
  full ← all_m (tanks w) drift_full;
  if full : bool then
    alerts ← for_tanks (tanks w) (drift_block current_time);
    for_tanks (tanks w) drift_clear;;
    mret alerts
  else mret [].

(** ** The polling loop of monitor (lines 243-282) *)

(** The module neither defines nor imports a [write_alert]: the three calls
    at lines 264, 267 and 270 look the name up when they run and raise
    [NameError]. *)
Definition write_alert (alert : Alert) : M unit :=
  raise (NameError "write_alert").

(** [for alert in alerts: write_alert(alert); print(json.dumps(alert))]. *)
Fixpoint emit_alerts (alerts : list Alert) : M unit :=
  match alerts with
  | [] => mret tt
  | alert :: rest =>
      write_alert alert;;
      modify (print (AlertLine alert));;
      emit_alerts rest
  end.

(** [len(cusum_state[t]["buffer"]) < W]. *)
Definition cusum_warming (t : string) : M bool :=
  st ← subscript cusum_state t;
  mret (length (buffer st) <? W)%nat.

(** [{t: len(cusum_state[t]["buffer"]) for t in tanks}]. *)
Fixpoint warmup_counts (l : list string) : M (list (string * nat)) :=
  match l with
  | [] => mret []
  | t :: l' =>
      st ← subscript cusum_state t;
      rest ← warmup_counts l';
      mret ((t, length (buffer st)) :: rest)
  end.

(** The per-tank entries of the summary line; [cusum_state[t]['h_t']] raises
    [KeyError] while the key is absent. *)
Fixpoint summary_entries (l : list string) : M (list (string * Q * Q * Q)) :=
  match l with
  | [] => mret []
  | t :: l' =>
      st ← subscript cusum_state t;
      h ← (match h_t st with Some h => mret h | None => raise (KeyError "h_t") end);
      rest ← summary_entries l';
      mret ((t, C_plus st, C_minus st, h) :: rest)
  end.

(** The body of the inner [try] of the [while True] loop, for one poll. The
    sleeps are left out. *)
Definition loop_body (poll : Poll) : M unit :=
  w ← get;
  match master_time poll with
  | None => mret tt
  | Some current_time =>
      if (current_time =? last_time w)%Z then mret tt
      else
        let state := plant poll in
        check_cusum state current_time;;
        warming ← any_m (tanks w) cusum_warming;
        if warming : bool then
          counts ← warmup_counts (tanks w);
          modify (print (WarmupLine counts));;
          modify (set_last_time current_time)
        else
          alerts ← check_cusum state current_time;
          emit_alerts alerts;;
          alerts ← check_invariants state current_time;
          emit_alerts alerts;;
          alerts ← check_drift state current_time;
          emit_alerts alerts;;
          summary ← summary_entries (tanks w);
          modify (print (SummaryLine current_time summary));;
          modify (set_last_time current_time)
  end.

(** One turn of the loop: the [except Exception] clause prints the error
    and the loop goes on. *)
Definition loop_pass (w : World) (poll : Poll) : World :=
  match loop_body poll w with
  | (w', Ok _) => w'
  | (w', Raise e) => print (ErrorLine e) w'
  end.

(** The loop over a finite sequence of polls, from the seeded state. *)
Definition monitor (ts ps : list string) (polls : list Poll) : World :=
  foldl loop_pass (discover ts ps) polls.

End Detector.

(** ** Topology discovery (lines 228-231) *)

(** The pieces the two name patterns are made of: a character class, an
    optional one ([?]) and a repeated one ([+]). A character is a code point
    below 256, where [\d] is the class of the ten ASCII digits. *)
Inductive Item : Type :=
  | One (cls : ascii → bool)
  | Opt (cls : ascii → bool)
  | Plus (cls : ascii → bool).

Definition is_digit (c : ascii) : bool :=
  Ascii.leb "0"%char c && Ascii.leb c "9"%char.

(** [[...]]: one of the listed characters. *)
Fixpoint one_of (chars : string) (c : ascii) : bool :=
  match chars with
  | String a rest => Ascii.eqb c a || one_of rest c
  | EmptyString => false
  end.

(** [cls+] followed by the rest of the pattern [k]: the longest run first,
    then the shorter ones. *)
Fixpoint match_plus (cls : ascii → bool) (k : string → bool) (s : string)
    : bool :=
  match s with
  | String c s' => cls c && (match_plus cls k s' || k s')
  | EmptyString => false
  end.

(** [re.match(pattern, s)]: the pattern matches a prefix of [s]. *)
Fixpoint re_match (pattern : list Item) (s : string) : bool :=
  match pattern with
  | [] => true
  | One cls :: rest =>
      match s with
      | String c s' => cls c && re_match rest s'
      | EmptyString => false
      end
  | Opt cls :: rest =>
      match s with
      | String c s' => cls c && re_match rest s'
      | EmptyString => false
      end || re_match rest s
  | Plus cls :: rest => match_plus cls (re_match rest) s
  end.

(** [r'^[Tt]\d+'] and [r'^[Pp][Uu]?\d+']. *)
Definition TANK_PATTERN : list Item := [One (one_of "Tt"); Plus is_digit].
Definition PUMP_PATTERN : list Item :=
  [One (one_of "Pp"); Opt (one_of "Uu"); Plus is_digit].

(** [sorted] on strings: ascending by code point, a proper prefix first. *)
Definition sorted (l : list string) : list string := merge_sort String.le l.

(** The state [monitor] seeds from the rows of
    [SELECT DISTINCT name FROM plant]. *)
Definition discover_names (names : list string) : World :=
  discover (sorted (filter (λ n, re_match TANK_PATTERN n = true) names))
           (sorted (filter (λ n, re_match PUMP_PATTERN n = true) names)).

(** ** Database helpers (lines 47-67) *)

(** What running a query can raise: [sqlite3.OperationalError] with its
    message, or any other exception. *)
Inductive DbError : Type :=
  | OperationalError (message : string)
  | OtherError (message : string).

(** [str.lower] on a character below 256: the ASCII capitals and the
    Latin-1 capitals (all of U+00C0-U+00DE but the multiplication sign). *)
Definition lower_char (c : ascii) : ascii :=
  let n := nat_of_ascii c in
  if ((65 <=? n) && (n <=? 90)) || ((192 <=? n) && (n <=? 222) && negb (n =? 215))
  then ascii_of_nat (n + 32) else c.

Fixpoint lower (s : string) : string :=
  match s with
  | String c s' => String (lower_char c) (lower s')
  | EmptyString => EmptyString
  end.

(** [needle in s]. *)
Fixpoint contains (needle s : string) : bool :=
  String.prefix needle s ||
  match s with
  | String _ s' => contains needle s'
  | EmptyString => false
  end.

(** The test of line 54 on what an attempt came to. *)
Definition is_locked {R : Type} (attempt : R + DbError) : bool :=
  match attempt with
  | inr (OperationalError message) => contains "locked" (lower message)
  | _ => false
  end.

(** [safe_db_query] over what the successive attempts at the query come to
    (the rows, or an exception): the number of 0.1 s sleeps, and the rows
    returned or the exception raised; [None] while every attempt so far
    found the database locked, when the loop is still going round. *)
Fixpoint safe_db_query {R : Type} (attempts : list (R + DbError))
    : nat * option (R + DbError) :=
  match attempts with
  | [] => (0%nat, None)
  | inl rows :: _ => (0%nat, Some (inl rows))
  | inr (OperationalError message) :: rest =>
      if contains "locked" (lower message)
      then let '(sleeps, result) := safe_db_query rest in (S sleeps, result)
      else (0%nat, Some (inr (OperationalError message)))
  | inr e :: _ => (0%nat, Some (inr e))
  end.

(** [int(float(v))]: the fraction is dropped, towards zero. *)
Definition py_int (v : Q) : Z := Z.quot (Qnum v) (Zpos (Qden v)).

(** [get_master_time]; a row is its only column. *)
Definition get_master_time (attempts : list (list Q + DbError))
    : nat * option (option Z + DbError) :=
  let '(sleeps, result) := safe_db_query attempts in
  (sleeps,
   match result with
   | Some (inl rows) =>
       Some (inl (match rows with
                  | v :: _ => Some (py_int v)
                  | [] => None
                  end))
   | Some (inr e) => Some (inr e)
   | None => None
   end).

(** [get_current_state]: a later row for a name replaces an earlier one. *)
Definition get_current_state (attempts : list (list (string * Q) + DbError))
    : nat * option (gmap string Q + DbError) :=
  let '(sleeps, result) := safe_db_query attempts in
  (sleeps,
   match result with
   | Some (inl rows) =>
       Some (inl (match rows with
                  | [] => ∅
                  | _ => foldl (λ state row, <[row.1 := row.2]> state) ∅ rows
                  end))
   | Some (inr e) => Some (inr e)
   | None => None
   end).

(** ** The MongoDB handles ([modules/mongodb_config.py]) *)

(** The module globals of lines 29-31, and how many times
    [get_mongodb_connection] has run. A client, a database and a collection
    are known by the number of the connection attempt that made them. *)
Record Mongo : Type := mkMongo {
  _mongo_client : option nat;
  _mongo_db : option nat;
  _alerts_collection : option nat;
  connections : nat
}.

(** The module as imported. *)
Definition mongo_init : Mongo := mkMongo None None None 0.

(** [get_mongodb_connection], attempt number [k]: the three handles when
    the server answers the ping, three [None] when anything raises. *)
Definition get_mongodb_connection (server : nat → bool) (k : nat)
    : option nat * option nat * option nat :=
  if server k then (Some k, Some k, Some k) else (None, None, None).

Definition get_alerts_collection (server : nat → bool) (m : Mongo)
    : Mongo * option nat :=
  match _alerts_collection m with
  | None =>
      let '(client, db, alerts) := get_mongodb_connection server (connections m) in
      (mkMongo client db alerts (S (connections m)), alerts)
  | Some alerts => (m, Some alerts)
  end.

Definition get_mongo_db (server : nat → bool) (m : Mongo) : Mongo * option nat :=
  match _mongo_db m with
  | None =>
      let '(client, db, alerts) := get_mongodb_connection server (connections m) in
      (mkMongo client db alerts (S (connections m)), db)
  | Some db => (m, Some db)
  end.

Definition get_mongo_client (server : nat → bool) (m : Mongo) : Mongo * option nat :=
  match _mongo_client m with
  | None =>
      let '(client, db, alerts) := get_mongodb_connection server (connections m) in
      (mkMongo client db alerts (S (connections m)), client)
  | Some client => (m, Some client)
  end.

(** * Part II: the vocabulary of the properties *)

Section Vocabulary.

Context `{numpy : Numpy}.

(** ** Computations and the world *)

(** The computation [m] keeps the property [I] of the world, whether it
    returns or raises. *)
Definition keeps {A : Type} (I : World → Prop) (m : M A) : Prop :=
  ∀ w, I w → I (m w).1.

(** ** Alerts by tank and by kind *)

Definition alert_tank (a : Alert) : string :=
  match a with
  | CUSUM_ALARM _ t _ _ _ => t
  | INVARIANT_VIOLATION _ t _ _ _ => t
  | TANK_EMPTY _ t => t
  | MEAN_DRIFT _ t _ _ => t
  end.

(** The alerts of a list that concern tank [t]. *)
Definition alerts_of (t : string) (alerts : list Alert) : list Alert :=
  filter (λ a, alert_tank a = t) alerts.

Definition is_tank_empty (a : Alert) : bool :=
  match a with
  | TANK_EMPTY _ _ => true
  | _ => false
  end.

Definition is_violation (a : Alert) : bool :=
  match a with
  | INVARIANT_VIOLATION _ _ _ _ _ => true
  | _ => false
  end.

(** The TANK_EMPTY alerts, and the INVARIANT_VIOLATION alerts, of tank [t]. *)
Definition empties_of (t : string) (alerts : list Alert) : list Alert :=
  filter (λ a, is_tank_empty a = true) (alerts_of t alerts).


Definition is_alert_line (l : Line) : bool :=
  match l with
  | AlertLine _ => true
  | _ => false
  end.

(** ** The CUSUM detector *)

Definition nonneg_stats (m : gmap string CusumEntry) : Prop :=
  ∀ t st, m !! t = Some st → 0 <= C_plus st ∧ 0 <= C_minus st.

(** The globals [monitor] sets up for [check_cusum]: distinct tank names
    ([SELECT DISTINCT name]) and one entry of [cusum_state] per tank. *)
Definition wf_cusum (w : World) : Prop :=
  NoDup (tanks w) ∧ Forall (λ t, is_Some (cusum_state w !! t)) (tanks w).

(** A sequence of calls of [check_cusum], one per (snapshot, iteration). *)
Definition cusum_calls (inputs : list (gmap string Q * Z)) (w : World) : World :=
  foldl (λ w i, (check_cusum i.1 i.2 w).1) w inputs.

(** The results of a sequence of calls of [check_cusum], one per call. *)
Fixpoint cusum_trace (inputs : list (gmap string Q * Z)) (w : World)
    : list (Result (list Alert)) :=
  match inputs with
  | [] => []
  | i :: rest =>
      let r := check_cusum i.1 i.2 w in
      r.2 :: cusum_trace rest r.1
  end.

(** The samples of tank [t] in a sequence of snapshots. *)
Definition samples (t : string) (inputs : list (gmap string Q * Z)) : list Q :=
  map (λ i, default 0 (i.1 !! t)) inputs.

(** The alerts one call produces for the tanks of [l], read off the entries
    the call starts from. *)
Definition cusum_alerts (w : World) (state : gmap string Q) (cur : Z)
    (l : list string) : list Alert :=
  flat_map (λ t, match cusum_state w !! t with
                 | Some st => (cusum_update (k_attack w) (default 0 (state !! t)) cur t st).2
                 | None => []
                 end) l.

(** The [above] flag of the latest update of tank [t]. *)
Definition above_of (st : CusumEntry) : bool :=
  match h_t st with
  | Some h => Qltb h (C_plus st) || Qltb h (C_minus st)
  | None => false
  end.

(** Whether the latest update of tank [t] was above its threshold. *)
Definition above_now (t : string) (w : World) : bool :=
  from_option above_of false (cusum_state w !! t).

(** A stream of snapshots that keeps tank [t] above its threshold at every
    call. *)
Fixpoint stays_above (t : string) (inputs : list (gmap string Q * Z)) (w : World)
    : bool :=
  match inputs with
  | [] => true
  | i :: rest =>
      let w' := (check_cusum i.1 i.2 w).1 in
      above_now t w' && stays_above t rest w'
  end.




(** ** The invariant checker *)

(** The loop body on the two attributes of one tank: the new value of
    [badcnt_<tank>] (absent while it was never written) and the alerts. The
    attribute [prev_<tank>] always becomes the current level. *)
Definition invariant_update (pump_on : bool) (level : Q) (cur : Z) (tank : string)
    (prev : option Q) (badcnt : option nat) : option nat * list Alert :=
  match prev with
  | None => (badcnt, [])
  | Some prev =>
      let delta := level - prev in
      let violated :=
        (pump_on && Qltb delta (- DEAD_BAND)) || (negb pump_on && Qltb DEAD_BAND delta) in
      let b := if violated then (default 0%nat badcnt + 1)%nat else 0%nat in
      (Some (if (INV_PERSIST <=? b)%nat then 0%nat else b),
       (if (INV_PERSIST <=? b)%nat
        then [INVARIANT_VIOLATION cur tank level prev b] else [])
       ++ (if Qeq_bool level 0 then [TANK_EMPTY cur tank] else []))
  end.

Definition write_badcnt (t : string) (b : option nat) (m : gmap string nat)
    : gmap string nat :=
  match b with
  | Some b => <[t := b]> m
  | None => m
  end.

Definition set_attrs (p : gmap string Q) (b : gmap string nat) (w : World) : World :=
  set_attr_badcnt (λ _, b) (set_attr_prev (λ _, p) w).

Definition pump_on_of (state : gmap string Q) (w : World) : bool :=
  existsb (λ p, truthy (default 0 (state !! p))) (pumps w).

Definition invariant_alerts (w : World) (state : gmap string Q) (cur : Z)
    (pump_on : bool) (l : list string) : list Alert :=
  flat_map (λ t, (invariant_update pump_on (default 0 (state !! t)) cur t
                    (attr_prev w !! t) (attr_badcnt w !! t)).2) l.

(** A sequence of calls of [check_invariants]: the final world and the
    result of every call. *)
Definition invariant_calls (inputs : list (gmap string Q * Z)) (w : World) : World :=
  foldl (λ w i, (check_invariants i.1 i.2 w).1) w inputs.

Fixpoint invariant_trace (inputs : list (gmap string Q * Z)) (w : World)
    : list (Result (list Alert)) :=
  match inputs with
  | [] => []
  | i :: rest =>
      let r := check_invariants i.1 i.2 w in
      r.2 :: invariant_trace rest r.1
  end.

(** ** The drift detector *)

Definition wf_drift (w : World) : Prop :=
  NoDup (tanks w) ∧
  Forall (λ t, is_Some (long_term_buffers w !! t) ∧ is_Some (last_block_mean w !! t))
    (tanks w).

(** The buffer of tank [t] once the call has appended the current value. *)
Definition drift_buffer (state : gmap string Q) (w : World) (t : string) : list Q :=
  deque_append (default 0 (state !! t)) (default [] (long_term_buffers w !! t)).

(** The alert of one tank at a block boundary. *)
Definition drift_alert (cur : Z) (t : string) (cur_mean : Q) (prev_mean : option Q)
    : list Alert :=
  match prev_mean with
  | Some pm =>
      if Qltb DRIFT_THRESHOLD (Qabs (cur_mean - pm))
      then [MEAN_DRIFT cur t pm cur_mean] else []
  | None => []
  end.

(** Whether the call closes a block: every tank's buffer holds [W] samples
    once the current values are in. *)
Definition block_complete (state : gmap string Q) (w : World) : bool :=
  forallb (λ t, (W <=? length (drift_buffer state w t))%nat) (tanks w).

(** ** The polling loop *)

(** Every tank's CUSUM window holds [W] samples. *)
Definition windows_full (w : World) : bool :=
  forallb (λ t, from_option (λ st, (W <=? length (buffer st))%nat) false
                  (cusum_state w !! t)) (tanks w).

(** Some tank's window is still short of [W] once the current sample is
    in: the turn is a warm-up turn. *)
Definition still_warming (w : World) : bool :=
  existsb (λ t, from_option (λ st, (length (buffer st) + 1 <? W)%nat) false
                  (cusum_state w !! t)) (tanks w).

(** The part of a detecting turn that follows the second [check_cusum]
    (lines 264-279). *)
Definition after_cusum (state : gmap string Q) (current_time : Z) (w : World)
    (alerts : list Alert) : M unit :=
  emit_alerts alerts;;
  alerts ← check_invariants state current_time;
  emit_alerts alerts;;
  alerts ← check_drift state current_time;
  emit_alerts alerts;;
  summary ← summary_entries (tanks w);
  modify (print (SummaryLine current_time summary));;
  modify (set_last_time current_time).

(** ** Turns of the loop *)

(** Some tank's window is short of [W]. *)
Definition some_window_short (w : World) : bool :=
  existsb (λ t, from_option (λ st, (length (buffer st) <? W)%nat) false
                  (cusum_state w !! t)) (tanks w).


(** Every poll reads an iteration id, and never the one recorded last. *)
Fixpoint fresh_ids (last : Z) (polls : list Poll) : bool :=
  match polls with
  | [] => true
  | p :: rest =>
      match master_time p with
      | Some cur => negb (cur =? last)%Z && fresh_ids cur rest
      | None => false
      end
  end.

(** The readings of tank [t] in a sequence of polls. *)
Definition poll_samples (t : string) (polls : list Poll) : list Q :=
  map (λ p, default 0 (plant p !! t)) polls.

(** The warm-up line that reports [k] samples for every tank. *)
Definition warmup_line (ts : list string) (k : nat) : Line :=
  WarmupLine ((λ t, (t, k)) <$> ts).

(** ** Snapshots *)

(** Two snapshots that [state.get(name, 0.0)] cannot tell apart on the given
    names. *)
Definition same_readings (names : list string) (s1 s2 : gmap string Q) : Prop :=
  ∀ n, n ∈ names → default 0 (s1 !! n) = default 0 (s2 !! n).

(** ** Bounds on the CUSUM state *)

(** The bounds the code keeps on one entry of [cusum_state]. *)
Definition cusum_bounded (st : CusumEntry) : Prop :=
  (length (buffer st) ≤ W)%nat ∧
  (∀ h, h_t st = Some h → MIN_H <= h ∧ h <= MAX_H) ∧
  (∀ p, persist st = Some p → (p ≤ PERSISTENCE_THRESHOLD)%nat) ∧
  (is_Some (h_t st) ↔ is_Some (persist st)).

Definition cusum_state_bounded (w : World) : Prop :=
  ∀ t st, cusum_state w !! t = Some st → cusum_bounded st.

(** ** The counters of the invariant checker *)

(** Every stored counter [badcnt_<tank>] is below the persistence bound. *)
Definition counters_below_bound (w : World) : Prop :=
  ∀ t b, attr_badcnt w !! t = Some b → (b < INV_PERSIST)%nat.

(** The [persist] field of the INVARIANT_VIOLATION alerts of a list. *)
Definition violation_persists (alerts : list Alert) : list nat :=
  flat_map (λ a, match a with
                 | INVARIANT_VIOLATION _ _ _ _ b => [b]
                 | _ => []
                 end) alerts.

(** ** Blocks of the drift detector *)



(** ** A plant that holds its levels *)

(** A snapshot that reads the level [level t] for every tank [t]. *)
Definition steady_reading (level : string → Q) (names : list string)
    (state : gmap string Q) : Prop :=
  ∀ t, t ∈ names → default 0 (state !! t) == level t.

(** An entry of [cusum_state] that has seen the level [c] only. *)
Definition steady_entry (c : Q) (st : CusumEntry) : Prop :=
  Forall (λ x, x == c) (buffer st) ∧ C_plus st = 0 ∧ C_minus st = 0 ∧
  default 0%nat (persist st) = 0%nat.

(** The state of the detectors while every tank has held its level. *)
Definition steady_state (level : string → Q) (w : World) : Prop :=
  ∀ t, t ∈ tanks w →
    (∃ st, cusum_state w !! t = Some st ∧ steady_entry (level t) st) ∧
    (∀ pv, attr_prev w !! t = Some pv → pv == level t) ∧
    (∃ buf, long_term_buffers w !! t = Some buf ∧ Forall (λ x, x == level t) buf) ∧
    (∃ pm, last_block_mean w !! t = Some pm ∧ ∀ m, pm = Some m → m == level t).

Definition is_quiet_line (l : Line) : bool :=
  match l with
  | WarmupLine _ | SummaryLine _ _ => true
  | _ => false
  end.

(** The last iteration id a sequence of polls has read, or -1. *)
Definition last_id (polls : list Poll) : Z :=
  foldl (λ acc p, default acc (master_time p)) (-1)%Z polls.

(** ** Entity names *)

(** A [T] or [t] followed by a digit. *)
Definition tank_like (n : string) : Prop :=
  ∃ c d rest, n = String c (String d rest) ∧ (c = "T" ∨ c = "t")%char ∧
              is_digit d = true.

(** A [P] or [p], then possibly a [U] or [u], then a digit. *)
Definition pump_like (n : string) : Prop :=
  ∃ c rest, n = String c rest ∧ (c = "P" ∨ c = "p")%char ∧
    ((∃ d r, rest = String d r ∧ is_digit d = true) ∨
     (∃ u d r, rest = String u (String d r) ∧ (u = "U" ∨ u = "u")%char ∧
               is_digit d = true)).

(** ** Calls of the MongoDB getters *)

(** The three getters of the module. *)
Inductive Getter : Type := AlertsCollection | MongoDb | MongoClient.

Definition call_getter (server : nat → bool) (g : Getter) (m : Mongo)
    : Mongo * option nat :=
  match g with
  | AlertsCollection => get_alerts_collection server m
  | MongoDb => get_mongo_db server m
  | MongoClient => get_mongo_client server m
  end.

(** The module state after a sequence of getter calls. *)
Definition getter_calls (server : nat → bool) (calls : list Getter) (m : Mongo)
    : Mongo :=
  foldl (λ m g, (call_getter server g m).1) m calls.

(** The first of the attempts [0 .. n-1] on which the server answers. *)
Fixpoint first_up (server : nat → bool) (n : nat) : option nat :=
  match n with
  | O => None
  | S n' =>
      match first_up server n' with
      | Some k => Some k
      | None => if server n' then Some n' else None
      end
  end.

End Vocabulary.

(** ** A plant with one tank *)

(** A stand-in for numpy in the closed instances; the module's threshold
    mode never calls [np.std]. *)
Definition numpy_unused : Numpy := {| np_std := λ _, 0 |}.

(** A poll that reads iteration [i] and level [v] for tank T1. *)
Definition poll_T1 (i : Z) (v : Q) : Poll := mkPoll (Some i) {[ "T1" := v ]}.

(** Iterations 0 to 142 at level 1.0: one sample short of a full window. *)
Definition warm_polls : list Poll :=
  map (λ i, poll_T1 (Z.of_nat i) 1) (seq 0 143).

(** A snapshot that holds level [v] for tank T1. *)
Definition snap_T1 (v : Q) : gmap string Q := {[ "T1" := v ]}.

(** One tank, no pump, just seeded. *)
Definition w_seeded : World := discover ["T1"] [].

(** One tank after the turns for iterations 0 to 143 at level 1.0: the
    window is full and the first detection step has run. *)
Definition w_full : World :=
  monitor (numpy := numpy_unused) ["T1"] [] (warm_polls ++ [poll_T1 143 1]).

Definition st_full : CusumEntry :=
  default (mkCusum [] 0 0 None None) (cusum_state w_full !! "T1").

(** Tank T1 once [check_invariants] has recorded level 1.0 for it. *)
Definition w_prev1 : World := (check_invariants (snap_T1 1) 1 w_seeded).1.


(** A stream that lifts tank T1 from 1.0 to 100.0 on iterations 144 to 146. *)
Definition high_inputs : list (gmap string Q * Z) :=
  [(snap_T1 100, 144%Z); (snap_T1 100, 145%Z); (snap_T1 100, 146%Z)].




(** A server that answers from the third connection attempt on. *)
Definition server_late (k : nat) : bool := (2 <=? k)%nat.

(** * Part III: properties *)

Lemma W_pos : (0 < W)%nat.
Proof. unfold W. lia. Qed.

(** The window length stays folded in the proofs. *)
Opaque W.

(** ** The numpy helpers on small inputs *)

Example np_median_odd : np_median [3; 1; 2] = 2.
Proof. reflexivity. Qed.

Example np_median_even : Qeq_bool (np_median [4; 1; 3; 2]) (5 # 2) = true.
Proof. vm_compute. reflexivity. Qed.

(** ** Arithmetic of the Python helpers *)

Lemma Qltb_lt (a b : Q) : Qltb a b = true ↔ a < b.
Proof.
  unfold Qltb. rewrite negb_true_iff. split.
  - intros H. apply Qnot_le_lt. intros Hle.
    apply Qle_bool_iff in Hle. congruence.
  - intros H. destruct (Qle_bool b a) eqn:E; [|done].
    apply Qle_bool_iff in E. exfalso. apply (Qlt_not_le _ _ H E).
Qed.

Lemma Qltb_ge (a b : Q) : Qltb a b = false ↔ b <= a.
Proof.
  unfold Qltb. rewrite negb_false_iff. apply Qle_bool_iff.
Qed.

Lemma pymax_lower (a b : Q) : a <= pymax a b.
Proof.
  unfold pymax. destruct (Qltb a b) eqn:E.
  - apply Qlt_le_weak. by apply Qltb_lt.
  - apply Qle_refl.
Qed.

Lemma pymax_upper (a b : Q) : b <= pymax a b.
Proof.
  unfold pymax. destruct (Qltb a b) eqn:E.
  - apply Qle_refl.
  - by apply Qltb_ge.
Qed.

Lemma pymin_upper (a b : Q) : pymin a b <= a.
Proof.
  unfold pymin. destruct (Qltb b a) eqn:E.
  - apply Qlt_le_weak. by apply Qltb_lt.
  - apply Qle_refl.
Qed.

Lemma pymin_upper_r (a b : Q) : pymin a b <= b.
Proof.
  unfold pymin. destruct (Qltb b a) eqn:E.
  - apply Qle_refl.
  - by apply Qltb_ge.
Qed.

(** ** Running a computation: what a step does to the world *)

Ltac unfold_monad :=
  unfold mbind, M_bind, mret, M_ret, get, modify, subscript, raise in *.

Lemma keeps_ret {A : Type} (I : World → Prop) (a : A) : keeps I (mret a).
Proof. intros w H. exact H. Qed.

Lemma keeps_raise {A : Type} (I : World → Prop) (e : Exn) : keeps I (@raise A e).
Proof. intros w H. exact H. Qed.

Lemma keeps_get (I : World → Prop) : keeps I get.
Proof. intros w H. exact H. Qed.

Lemma keeps_subscript {V : Type} (I : World → Prop) (d : World → gmap string V) k :
  keeps I (subscript d k).
Proof. intros w H. unfold subscript. by destruct (d w !! k). Qed.

Lemma keeps_bind {A B : Type} (I : World → Prop) (m : M A) (f : A → M B) :
  keeps I m → (∀ a, keeps I (f a)) → keeps I (m ≫= f).
Proof.
  intros Hm Hf w H. unfold mbind, M_bind.
  specialize (Hm w H). destruct (m w) as [w' [a|e]]; simpl in *.
  - by apply Hf.
  - exact Hm.
Qed.

Lemma mbind_ok {A B : Type} (m : M A) (f : A → M B) w w' a :
  m w = (w', Ok a) → (m ≫= f) w = f a w'.
Proof. intros H. unfold mbind, M_bind. by rewrite H. Qed.

Lemma mbind_raise {A B : Type} (m : M A) (f : A → M B) w w' e :
  m w = (w', Raise e) → (m ≫= f) w = (w', Raise e).
Proof. intros H. unfold mbind, M_bind. by rewrite H. Qed.

Lemma keeps_modify (I : World → Prop) (f : World → World) :
  (∀ w, I w → I (f w)) → keeps I (modify f).
Proof. intros Hf w H. by apply Hf. Qed.

Lemma keeps_for_tanks (I : World → Prop) body l :
  (∀ t, keeps I (body t)) → keeps I (for_tanks l body).
Proof.
  intros Hb. induction l as [|t l IH]; simpl.
  - apply keeps_ret.
  - apply keeps_bind; [apply Hb|]. intros a.
    apply keeps_bind; [apply IH|]. intros b. apply keeps_ret.
Qed.

Lemma keeps_any_m (I : World → Prop) f l :
  (∀ t, keeps I (f t)) → keeps I (any_m l f).
Proof.
  intros Hf. induction l as [|t l IH]; simpl.
  - apply keeps_ret.
  - apply keeps_bind; [apply Hf|]. intros [|]; [apply keeps_ret | apply IH].
Qed.

Lemma keeps_all_m (I : World → Prop) f l :
  (∀ t, keeps I (f t)) → keeps I (all_m l f).
Proof.
  intros Hf. induction l as [|t l IH]; simpl.
  - apply keeps_ret.
  - apply keeps_bind; [apply Hf|]. intros [|]; [apply IH | apply keeps_ret].
Qed.

Section Properties.

Context `{numpy : Numpy}.

(** ** Properties of the world the loop keeps *)

Section Frame.

(** A property that no detector attribute, drift buffer or block mean can
    break, nor the loop's own bookkeeping and its lines other than alert
    lines, and that [check_cusum] keeps. *)
Variable I : World → Prop.

Hypothesis I_attr_prev : ∀ f w, I w → I (set_attr_prev f w).
Hypothesis I_attr_badcnt : ∀ f w, I w → I (set_attr_badcnt f w).
Hypothesis I_long_term_buffers : ∀ f w, I w → I (set_long_term_buffers f w).
Hypothesis I_last_block_mean : ∀ f w, I w → I (set_last_block_mean f w).
Hypothesis I_last_time : ∀ t w, I w → I (set_last_time t w).
Hypothesis I_print : ∀ l w, (∀ a, l ≠ AlertLine a) → I w → I (print l w).
Hypothesis I_check_cusum : ∀ state cur, keeps I (check_cusum state cur).

Lemma keeps_check_invariants state cur : keeps I (check_invariants state cur).
Proof.
  apply keeps_bind; [apply keeps_get|]. intros w.
  apply keeps_for_tanks. intros t.
  apply keeps_bind; [apply keeps_get|]. intros w0.
  apply keeps_bind; [apply keeps_modify, I_attr_prev|]. intros _.
  destruct (attr_prev w0 !! t); [|apply keeps_ret].
  apply keeps_bind; [apply keeps_modify, I_attr_badcnt|]. intros _.
  apply keeps_bind; [|intros a; apply keeps_ret].
  case_match; [|apply keeps_ret].
  apply keeps_bind; [apply keeps_modify, I_attr_badcnt|]. intros _. apply keeps_ret.
Qed.

Lemma keeps_check_drift state cur : keeps I (check_drift state cur).
Proof.
  apply keeps_bind; [apply keeps_get|]. intros w.
  apply keeps_bind.
  { apply keeps_for_tanks. intros t.
    apply keeps_bind; [apply keeps_subscript|]. intros buf.
    apply keeps_bind; [apply keeps_modify, I_long_term_buffers|]. intros _.
    apply keeps_ret. }
  intros _. apply keeps_bind.
  { apply keeps_all_m. intros t.
    apply keeps_bind; [apply keeps_subscript|]. intros buf. apply keeps_ret. }
  intros [|]; [|apply keeps_ret].
  apply keeps_bind.
  { apply keeps_for_tanks. intros t.
    apply keeps_bind; [apply keeps_subscript|]. intros buf.
    apply keeps_bind; [apply keeps_subscript|]. intros pm.
    apply keeps_bind; [apply keeps_modify, I_last_block_mean|]. intros _.
    apply keeps_ret. }
  intros alerts. apply keeps_bind; [|intros _; apply keeps_ret].
  apply keeps_for_tanks. intros t.
  apply keeps_bind; [apply keeps_subscript|]. intros buf.
  apply keeps_bind; [apply keeps_modify, I_long_term_buffers|]. intros _.
  apply keeps_ret.
Qed.

(** [write_alert] raises before anything is printed, so the loop over the
    alerts changes nothing. *)
Lemma keeps_emit_alerts alerts : keeps I (emit_alerts alerts).
Proof.
  destruct alerts as [|a rest]; simpl; [apply keeps_ret|].
  intros w Hw. exact Hw.
Qed.

Lemma keeps_warmup_counts l : keeps I (warmup_counts l).
Proof.
  induction l as [|t l IH]; simpl; [apply keeps_ret|].
  apply keeps_bind; [apply keeps_subscript|]. intros st.
  apply keeps_bind; [apply IH|]. intros rest. apply keeps_ret.
Qed.

Lemma keeps_summary_entries l : keeps I (summary_entries l).
Proof.
  induction l as [|t l IH]; simpl; [apply keeps_ret|].
  apply keeps_bind; [apply keeps_subscript|]. intros st.
  apply keeps_bind; [destruct (h_t st); [apply keeps_ret | apply keeps_raise]|].
  intros h. apply keeps_bind; [apply IH|]. intros rest. apply keeps_ret.
Qed.

Lemma keeps_cusum_warming l : keeps I (any_m l cusum_warming).
Proof.
  apply keeps_any_m. intros t.
  apply keeps_bind; [apply keeps_subscript|]. intros st. apply keeps_ret.
Qed.

Lemma keeps_after_cusum state cur w alerts : keeps I (after_cusum state cur w alerts).
Proof.
  apply keeps_bind; [apply keeps_emit_alerts|]. intros _.
  apply keeps_bind; [apply keeps_check_invariants|]. intros a2.
  apply keeps_bind; [apply keeps_emit_alerts|]. intros _.
  apply keeps_bind; [apply keeps_check_drift|]. intros a3.
  apply keeps_bind; [apply keeps_emit_alerts|]. intros _.
  apply keeps_bind; [apply keeps_summary_entries|]. intros sm.
  apply keeps_bind; [apply keeps_modify; intros w0; by apply I_print|].
  intros _. apply keeps_modify, I_last_time.
Qed.

Lemma keeps_loop_body poll : keeps I (loop_body poll).
Proof.
  apply keeps_bind; [apply keeps_get|]. intros w.
  destruct (master_time poll) as [cur|]; [|apply keeps_ret].
  case_match; [apply keeps_ret|].
  apply keeps_bind; [apply I_check_cusum|]. intros _.
  apply keeps_bind; [apply keeps_cusum_warming|]. intros [|].
  - apply keeps_bind; [apply keeps_warmup_counts|]. intros counts.
    apply keeps_bind; [apply keeps_modify; intros w0; by apply I_print|].
    intros _. apply keeps_modify, I_last_time.
  - apply keeps_bind; [apply I_check_cusum|]. intros a1.
    apply (keeps_after_cusum (plant poll) cur w a1).
Qed.

Lemma keeps_loop_pass poll w : I w → I (loop_pass w poll).
Proof.
  intros Hw. unfold loop_pass.
  pose proof (keeps_loop_body poll w Hw) as H.
  destruct (loop_body poll w) as [w' [a|e]]; simpl in H; [exact H|].
  by apply I_print.
Qed.

End Frame.

(** ** C9: the CUSUM statistics are never negative *)

Lemma cusum_update_nonneg k x cur t st :
  0 <= C_plus st ∧ 0 <= C_minus st →
  0 <= C_plus (cusum_update k x cur t st).1 ∧ 0 <= C_minus (cusum_update k x cur t st).1.
Proof.
  intros H. unfold cusum_update.
  destruct (length (buffer st) <? W)%nat; [exact H|].
  destruct (compute_threshold_and_residual k (buffer st) x t) as [[r h] ka].
  simpl. split; apply pymax_lower.
Qed.

Lemma keeps_check_cusum_nonneg state cur :
  keeps (λ w, nonneg_stats (cusum_state w)) (check_cusum state cur).
Proof.
  apply keeps_bind; [apply keeps_get|]. intros w0.
  apply keeps_for_tanks. intros t w H.
  unfold cusum_tank. unfold_monad.
  destruct (cusum_state w !! t) as [st|] eqn:E; [|exact H].
  pose proof (cusum_update_nonneg (k_attack w) (default 0 (state !! t)) cur t st
                (H t st E)) as Hn.
  destruct (cusum_update (k_attack w) (default 0 (state !! t)) cur t st) as [st' al].
  simpl in *. intros u su Hu.
  destruct (decide (t = u)) as [->|Hne].
  - rewrite lookup_insert_eq in Hu. by inversion Hu; subst.
  - rewrite lookup_insert_ne in Hu by done. by apply (H u).
Qed.

Lemma discover_cusum_lookup ts ps t st :
  cusum_state (discover ts ps) !! t = Some st → st = mkCusum [] 0 0 None None.
Proof.
  simpl. intros H. apply elem_of_list_to_map_2 in H.
  apply list_elem_of_fmap in H as (u & Heq & _). by inversion Heq.
Qed.

(** C9. Both statistics start at 0.0, and after every call of [check_cusum]
    on any sequence of snapshots, and after every turn of the polling loop on
    any sequence of polls, [C_plus >= 0] and [C_minus >= 0] for every tank. *)
Theorem cusum_statistics_nonneg (ts ps : list string) :
  (∀ t st, cusum_state (discover ts ps) !! t = Some st →
     C_plus st = 0 ∧ C_minus st = 0) ∧
  (∀ inputs, nonneg_stats (cusum_state (cusum_calls inputs (discover ts ps)))) ∧
  (∀ polls, nonneg_stats (cusum_state (monitor ts ps polls))).
Proof.
  assert (H0 : nonneg_stats (cusum_state (discover ts ps))).
  { intros t st H. apply discover_cusum_lookup in H. subst. simpl. split; apply Qle_refl. }
  split; [|split].
  - intros t st H. apply discover_cusum_lookup in H. by subst.
  - intros inputs. unfold cusum_calls.
    generalize dependent (discover ts ps).
    induction inputs as [|i inputs IH]; intros w Hw; simpl; [exact Hw|].
    apply IH. by apply keeps_check_cusum_nonneg.
  - intros polls. unfold monitor.
    generalize dependent (discover ts ps).
    induction polls as [|p polls IH]; intros w Hw; simpl; [exact Hw|].
    apply IH.
    apply (keeps_loop_pass (λ w, nonneg_stats (cusum_state w))); try done.
    apply keeps_check_cusum_nonneg.
Qed.

(** ** What check_cusum does to each tank *)

Lemma flat_map_ext_in {A B : Type} (f g : A → list B) (l : list A) :
  (∀ x, x ∈ l → f x = g x) → flat_map f l = flat_map g l.
Proof.
  induction l as [|x l IH]; intros H; simpl; [done|].
  rewrite (H x) by apply list_elem_of_here.
  rewrite IH; [done|]. intros y Hy. apply H. by apply list_elem_of_further.
Qed.

Lemma set_cusum_state_id (w : World) : set_cusum_state (λ _, cusum_state w) w = w.
Proof. by destruct w. Qed.

Lemma cusum_tank_ok state cur t w st :
  cusum_state w !! t = Some st →
  cusum_tank state cur t w
    = (set_cusum_state
         (<[t := (cusum_update (k_attack w) (default 0 (state !! t)) cur t st).1]>) w,
       Ok (cusum_update (k_attack w) (default 0 (state !! t)) cur t st).2).
Proof.
  intros H. unfold cusum_tank. unfold_monad. rewrite H.
  by destruct (cusum_update _ _ _ _ _).
Qed.

Lemma for_tanks_cusum state cur (l : list string) : ∀ w,
  NoDup l → (∀ t, t ∈ l → is_Some (cusum_state w !! t)) →
  ∃ m',
    for_tanks l (cusum_tank state cur) w
      = (set_cusum_state (λ _, m') w, Ok (cusum_alerts w state cur l)) ∧
    (∀ t, t ∉ l → m' !! t = cusum_state w !! t) ∧
    (∀ t st, t ∈ l → cusum_state w !! t = Some st →
       m' !! t = Some (cusum_update (k_attack w) (default 0 (state !! t)) cur t st).1).
Proof.
  induction l as [|t l IH]; intros w Hnd Hall.
  - exists (cusum_state w). simpl. unfold_monad.
    rewrite set_cusum_state_id. split; [done|]. split; [done|].
    intros t st Ht. by apply not_elem_of_nil in Ht.
  - apply NoDup_cons in Hnd as [Hnt Hnd].
    destruct (Hall t (list_elem_of_here _ _)) as [st Hst].
    set (upd := cusum_update (k_attack w) (default 0 (state !! t)) cur t st).
    set (w1 := set_cusum_state (<[t := upd.1]>) w).
    destruct (IH w1 Hnd) as (m' & Hrun & Hout & Hin).
    { intros u Hu. simpl. destruct (decide (t = u)) as [->|Hne].
      - rewrite lookup_insert_eq. eauto.
      - rewrite lookup_insert_ne by done. apply Hall. by apply list_elem_of_further. }
    exists m'. split; [|split].
    + cbn [for_tanks].
      rewrite (mbind_ok _ _ _ _ _ (cusum_tank_ok state cur t w st Hst)).
      fold upd. fold w1. rewrite (mbind_ok _ _ _ _ _ Hrun).
      unfold mret, M_ret. f_equal. f_equal.
      unfold cusum_alerts. cbn [flat_map]. rewrite Hst. fold upd. f_equal.
      apply flat_map_ext_in. intros u Hu. simpl.
      rewrite lookup_insert_ne; [done|]. intros ->. done.
    + intros u Hu. apply not_elem_of_cons in Hu as [Hne Hu].
      rewrite (Hout u Hu). simpl. by rewrite lookup_insert_ne.
    + intros u su Hu Hsu. apply elem_of_cons in Hu as [->|Hu].
      * rewrite (Hout t Hnt). simpl. rewrite lookup_insert_eq.
        rewrite Hst in Hsu. by inversion Hsu; subst.
      * apply (Hin u su Hu). simpl. rewrite lookup_insert_ne; [done|].
        intros ->. done.
Qed.

(** One call of [check_cusum] on well-formed globals returns; it rewrites
    every tank's entry by [cusum_update] and touches nothing else. *)
Lemma check_cusum_spec state cur w :
  wf_cusum w →
  ∃ m',
    check_cusum state cur w
      = (set_cusum_state (λ _, m') w, Ok (cusum_alerts w state cur (tanks w))) ∧
    (∀ t, t ∉ tanks w → m' !! t = cusum_state w !! t) ∧
    (∀ t st, t ∈ tanks w → cusum_state w !! t = Some st →
       m' !! t = Some (cusum_update (k_attack w) (default 0 (state !! t)) cur t st).1).
Proof.
  intros [Hnd Hall]. unfold check_cusum. unfold_monad.
  apply for_tanks_cusum; [done|]. by apply Forall_forall.
Qed.

Lemma check_cusum_wf state cur w :
  wf_cusum w → wf_cusum (check_cusum state cur w).1.
Proof.
  intros Hwf. destruct (check_cusum_spec state cur w Hwf) as (m' & Hrun & _ & Hin).
  rewrite Hrun. simpl. destruct Hwf as [Hnd Hall]. split; [done|].
  simpl. apply Forall_forall. intros t Ht.
  destruct (proj1 (Forall_forall _ _) Hall t Ht) as [st Hst].
  rewrite (Hin t st Ht Hst). eauto.
Qed.

Lemma cusum_alerts_tank w state cur l a :
  a ∈ cusum_alerts w state cur l →
  ∃ st, alert_tank a ∈ l ∧ cusum_state w !! alert_tank a = Some st ∧
        a ∈ (cusum_update (k_attack w) (default 0 (state !! alert_tank a)) cur
               (alert_tank a) st).2.
Proof.
  unfold cusum_alerts. rewrite list_elem_of_In, in_flat_map.
  intros (t & Ht & Ha). apply list_elem_of_In in Ht.
  destruct (cusum_state w !! t) as [st|] eqn:E; [|by destruct Ha].
  assert (alert_tank a = t) as ->.
  { revert Ha. unfold cusum_update.
    destruct (length (buffer st) <? W)%nat; [by intros []|].
    destruct (compute_threshold_and_residual _ _ _ _) as [[r h] ka].
    simpl. case_match; [|by intros []]. intros [<-|[]]. done. }
  exists st. split; [done|]. split; [done|]. by apply list_elem_of_In.
Qed.

Lemma cusum_alerts_intro w state cur l t st a :
  t ∈ l → cusum_state w !! t = Some st →
  a ∈ (cusum_update (k_attack w) (default 0 (state !! t)) cur t st).2 →
  a ∈ cusum_alerts w state cur l.
Proof.
  intros Ht Hst Ha. unfold cusum_alerts. rewrite list_elem_of_In, in_flat_map.
  exists t. split; [by apply list_elem_of_In|]. rewrite Hst. by apply list_elem_of_In.
Qed.

(** ** C5: the warm-up gate *)

Lemma cusum_calls_cons i inputs w :
  cusum_calls (i :: inputs) w = cusum_calls inputs (check_cusum i.1 i.2 w).1.
Proof. reflexivity. Qed.

Lemma cusum_update_warm k x cur t st :
  (length (buffer st) < W)%nat →
  cusum_update k x cur t st
    = (mkCusum (buffer st ++ [x]) (C_plus st) (C_minus st) (h_t st) (persist st), []).
Proof.
  intros H. unfold cusum_update, deque_append.
  destruct (Nat.ltb_spec (length (buffer st)) W); [|lia].
  destruct (Nat.leb_spec W (length (buffer st))); [lia|done].
Qed.

Lemma cusum_update_detects k x cur t st :
  (W ≤ length (buffer st))%nat →
  is_Some (h_t (cusum_update k x cur t st).1) ∧
  buffer (cusum_update k x cur t st).1 = tail (buffer st) ++ [x].
Proof.
  intros H. unfold cusum_update, deque_append.
  destruct (Nat.ltb_spec (length (buffer st)) W); [lia|].
  destruct (compute_threshold_and_residual _ _ _ _) as [[r h] ka]. simpl.
  destruct (Nat.leb_spec W (length (buffer st))); [|lia]. split; [by eexists|done].
Qed.

(** While every tank is still warming up, a call returns no alert and only
    extends the windows. *)
Lemma cusum_calls_warm (inputs pre : list (gmap string Q * Z)) : ∀ w,
  wf_cusum w →
  (∀ t, t ∈ tanks w →
     cusum_state w !! t = Some (mkCusum (samples t pre) 0 0 None None)) →
  (length pre + length inputs ≤ W)%nat →
  cusum_trace inputs w = repeat (Ok []) (length inputs) ∧
  wf_cusum (cusum_calls inputs w) ∧
  tanks (cusum_calls inputs w) = tanks w ∧
  ∀ t, t ∈ tanks w →
    cusum_state (cusum_calls inputs w) !! t
      = Some (mkCusum (samples t (pre ++ inputs)) 0 0 None None).
Proof.
  revert pre. induction inputs as [|i inputs IH]; intros pre w Hwf Hst Hlen.
  - simpl. rewrite app_nil_r. done.
  - simpl in Hlen.
    destruct (check_cusum_spec i.1 i.2 w Hwf) as (m' & Hrun & _ & Hin).
    assert (Hshort : ∀ t, (length (samples t pre) < W)%nat).
    { intros t. unfold samples. rewrite length_map. lia. }
    assert (Hal : cusum_alerts w i.1 i.2 (tanks w) = []).
    { destruct (cusum_alerts w i.1 i.2 (tanks w)) as [|a al] eqn:E; [done|].
      assert (Ha : a ∈ cusum_alerts w i.1 i.2 (tanks w)) by (rewrite E; left).
      apply cusum_alerts_tank in Ha as (st & Ht & Hl & Ha).
      rewrite (Hst _ Ht) in Hl. inversion Hl; subst.
      rewrite cusum_update_warm in Ha by apply Hshort. by apply not_elem_of_nil in Ha. }
    specialize (IH (pre ++ [i]) (check_cusum i.1 i.2 w).1).
    destruct IH as (Htr & Hwf' & Htk & Hfin).
    + by apply check_cusum_wf.
    + rewrite Hrun. simpl. intros t Ht.
      rewrite (Hin t _ Ht (Hst t Ht)).
      rewrite cusum_update_warm by apply Hshort. simpl.
      unfold samples. by rewrite map_app.
    + rewrite length_app. simpl. lia.
    + rewrite cusum_calls_cons. cbn [cusum_trace length repeat].
      split; [|split; [|split]].
      * rewrite Htr. f_equal. rewrite Hrun. simpl. by rewrite Hal.
      * exact Hwf'.
      * rewrite Htk, Hrun. done.
      * intros t Ht. rewrite <- (assoc_L (++)) in Hfin. apply Hfin.
        rewrite Hrun. done.
Qed.

(** The dictionaries [{t: v for t in tanks}] built at start-up. *)
Lemma seed_lookup {V : Type} (v : V) (ts : list string) (t : string) :
  t ∈ ts → (list_to_map ((λ t, (t, v)) <$> ts) : gmap string V) !! t = Some v.
Proof.
  intros Ht. apply elem_of_list_to_map_1'.
  - intros y Hy. apply list_elem_of_fmap in Hy as (u & Heq & _). by inversion Heq.
  - apply list_elem_of_fmap. by exists t.
Qed.

Lemma discover_wf_cusum ts ps : NoDup ts → wf_cusum (discover ts ps).
Proof.
  intros Hnd. split; [done|]. simpl. apply Forall_forall. intros t Ht.
  rewrite (seed_lookup (mkCusum [] 0 0 None None) ts t Ht). eauto.
Qed.

(** C5. (1) A call of [check_cusum] on a tank whose window holds fewer than
    [W] samples appends the current value and nothing else: the statistics,
    the threshold and the persistence counter keep their values and the call
    returns no alert for that tank. (2) Hence the first [W] calls after
    start-up return no alert at all and leave every tank with its samples and
    untouched statistics. (3) The [W+1]-th call is the first to detect: it
    writes a threshold for every tank, on a window of [W] samples. *)
Theorem cusum_warm_up_gate :
  (∀ w state cur t st,
     wf_cusum w → t ∈ tanks w → cusum_state w !! t = Some st →
     (length (buffer st) < W)%nat →
     ∃ w' alerts,
       check_cusum state cur w = (w', Ok alerts) ∧
       cusum_state w' !! t
         = Some (mkCusum (buffer st ++ [default 0 (state !! t)])
                   (C_plus st) (C_minus st) (h_t st) (persist st)) ∧
       ∀ a, a ∈ alerts → alert_tank a ≠ t) ∧
  (∀ ts ps inputs,
     NoDup ts → (length inputs ≤ W)%nat →
     cusum_trace inputs (discover ts ps) = repeat (Ok []) (length inputs) ∧
     ∀ t, t ∈ ts →
       cusum_state (cusum_calls inputs (discover ts ps)) !! t
         = Some (mkCusum (samples t inputs) 0 0 None None)) ∧
  (∀ ts ps inputs i t,
     NoDup ts → t ∈ ts → length inputs = W →
     ∃ st, cusum_state (cusum_calls (inputs ++ [i]) (discover ts ps)) !! t = Some st ∧
           is_Some (h_t st) ∧
           buffer st = tail (samples t inputs) ++ [default 0 (i.1 !! t)]).
Proof.
  split; [|split].
  - intros w state cur t st Hwf Ht Hst Hlen.
    destruct (check_cusum_spec state cur w Hwf) as (m' & Hrun & _ & Hin).
    eexists _, _. split; [exact Hrun|]. split.
    + simpl. rewrite (Hin t st Ht Hst). by rewrite cusum_update_warm.
    + intros a Ha Heq. apply cusum_alerts_tank in Ha as (st' & _ & Hl & Ha).
      rewrite Heq, Hst in Hl. inversion Hl; subst st'.
      rewrite cusum_update_warm in Ha by done. by apply not_elem_of_nil in Ha.
  - intros ts ps inputs Hnd Hlen.
    destruct (cusum_calls_warm inputs [] (discover ts ps)) as (Htr & _ & _ & Hfin).
    + by apply discover_wf_cusum.
    + intros t Ht. simpl in *. by apply seed_lookup.
    + simpl. lia.
    + split; [exact Htr|]. intros t Ht. by apply Hfin.
  - intros ts ps inputs i t Hnd Ht Hlen.
    destruct (cusum_calls_warm inputs [] (discover ts ps)) as (_ & Hwf & Htk & Hfin).
    { by apply discover_wf_cusum. }
    { intros u Hu. simpl in *. by apply seed_lookup. }
    { simpl. lia. }
    unfold cusum_calls in *. rewrite foldl_app. simpl.
    set (w := foldl _ (discover ts ps) inputs) in *.
    destruct (check_cusum_spec i.1 i.2 w Hwf) as (m' & Hrun & _ & Hin).
    assert (Htw : t ∈ tanks w) by (rewrite Htk; done).
    specialize (Hfin t Ht). simpl in Hfin.
    rewrite Hrun. simpl. rewrite (Hin t _ Htw Hfin).
    eexists. split; [done|].
    apply cusum_update_detects. simpl. unfold samples. rewrite length_map. lia.
Qed.

(** ** C4: persistence of the CUSUM alarm *)

Lemma alerts_of_same t (l : list Alert) :
  (∀ a, a ∈ l → alert_tank a = t) → alerts_of t l = l.
Proof.
  unfold alerts_of. induction l as [|a l IH]; intros H; [done|].
  rewrite filter_cons_True by (apply H; left).
  f_equal. apply IH. intros b Hb. apply H. by right.
Qed.

Lemma alerts_of_other t (l : list Alert) :
  (∀ a, a ∈ l → alert_tank a ≠ t) → alerts_of t l = [].
Proof.
  unfold alerts_of. induction l as [|a l IH]; intros H; [done|].
  rewrite filter_cons_False by (apply H; left).
  apply IH. intros b Hb. apply H. by right.
Qed.

Lemma cusum_update_alerts_tank k x cur t st a :
  a ∈ (cusum_update k x cur t st).2 → alert_tank a = t.
Proof.
  unfold cusum_update. destruct (length (buffer st) <? W)%nat.
  { simpl. intros H. by apply not_elem_of_nil in H. }
  destruct (compute_threshold_and_residual _ _ _ _) as [[r h] ka].
  simpl. case_match.
  - intros Ha. apply list_elem_of_singleton in Ha. by subst.
  - intros Ha. by apply not_elem_of_nil in Ha.
Qed.

Lemma cusum_alerts_of w state cur l t st :
  NoDup l → t ∈ l → cusum_state w !! t = Some st →
  alerts_of t (cusum_alerts w state cur l)
    = (cusum_update (k_attack w) (default 0 (state !! t)) cur t st).2.
Proof.
  intros Hnd Ht Hst. unfold cusum_alerts.
  induction l as [|u l IH]; [by apply not_elem_of_nil in Ht|].
  apply NoDup_cons in Hnd as [Hu Hnd]. cbn [flat_map].
  unfold alerts_of in *. rewrite filter_app.
  destruct (decide (u = t)) as [->|Hne].
  - rewrite Hst. fold (alerts_of t (cusum_update (k_attack w) (default 0 (state !! t)) cur t st).2).
    rewrite alerts_of_same by (intros a; apply cusum_update_alerts_tank).
    match goal with |- _ ++ ?r = _ => assert (r = []) as -> end; [|by rewrite app_nil_r].
    apply alerts_of_other. intros a Ha Heq.
    apply cusum_alerts_tank in Ha as (_ & Hin & _). by rewrite Heq in Hin.
  - apply elem_of_cons in Ht as [->|Ht]; [done|].
    rewrite (IH Hnd Ht).
    match goal with |- ?r ++ _ = _ => assert (r = []) as -> end; [|done].
    apply alerts_of_other. intros a Ha.
    destruct (cusum_state w !! u) as [su|]; [|by apply not_elem_of_nil in Ha].
    apply cusum_update_alerts_tank in Ha. by rewrite Ha.
Qed.

Lemma cusum_update_persist k x cur t st :
  (W ≤ length (buffer st))%nat →
  let st' := (cusum_update k x cur t st).1 in
  is_Some (h_t st') ∧
  persist st'
    = Some (if above_of st'
            then Nat.min (default 0%nat (persist st) + 1) PERSISTENCE_THRESHOLD
            else 0%nat) ∧
  (cusum_update k x cur t st).2
    = (if decide (persist st' = Some PERSISTENCE_THRESHOLD)
       then [CUSUM_ALARM cur t (C_plus st') (C_minus st') PERSISTENCE_THRESHOLD]
       else []) ∧
  (W ≤ length (buffer st'))%nat.
Proof.
  intros H. unfold cusum_update, above_of, deque_append.
  destruct (Nat.ltb_spec (length (buffer st)) W); [lia|].
  destruct (Nat.leb_spec W (length (buffer st))); [|lia].
  destruct (compute_threshold_and_residual _ _ _ _) as [[r h] ka].
  cbn [fst snd h_t C_plus C_minus persist buffer].
  set (above := Qltb h _ || Qltb h _).
  set (p := default 0%nat (persist st)).
  split; [by eexists|]. split; [done|]. split.
  - unfold PERSISTENCE_THRESHOLD. destruct above.
    + destruct (Nat.leb_spec 2 (Nat.min (p + 1) 2)) as [Hle|Hlt].
      * assert (Nat.min (p + 1) 2 = 2)%nat as -> by lia.
        case_decide; done.
      * case_decide; [|done]. simplify_eq. lia.
    + done.
  - rewrite length_app. simpl. destruct (buffer st); simpl in *; [|lia].
    pose proof W_pos. lia.
Qed.

Lemma check_cusum_step state cur w t st :
  wf_cusum w → t ∈ tanks w → cusum_state w !! t = Some st →
  ∃ w' alerts,
    check_cusum state cur w = (w', Ok alerts) ∧
    wf_cusum w' ∧ tanks w' = tanks w ∧
    cusum_state w' !! t
      = Some (cusum_update (k_attack w) (default 0 (state !! t)) cur t st).1 ∧
    alerts_of t alerts
      = (cusum_update (k_attack w) (default 0 (state !! t)) cur t st).2.
Proof.
  intros Hwf Ht Hst.
  pose proof (check_cusum_wf state cur w Hwf) as Hwf'.
  destruct (check_cusum_spec state cur w Hwf) as (m' & Hrun & _ & Hin).
  rewrite Hrun in Hwf'. eexists _, _. split; [exact Hrun|].
  split; [exact Hwf'|]. split; [done|]. split.
  - simpl. by apply Hin.
  - apply cusum_alerts_of; [apply Hwf|done..].
Qed.

Lemma cusum_stream_alarms t (inputs : list (gmap string Q * Z)) : ∀ w st,
  wf_cusum w → t ∈ tanks w → cusum_state w !! t = Some st →
  (W ≤ length (buffer st))%nat →
  stays_above t inputs w = true →
  ∀ k i r, inputs !! k = Some i → cusum_trace inputs w !! k = Some r →
    ∃ alerts, r = Ok alerts ∧
      ((default 0 (persist st) + k + 1 < 2)%nat → alerts_of t alerts = []) ∧
      ((2 ≤ default 0 (persist st) + k + 1)%nat →
         ∃ cp cm, alerts_of t alerts = [CUSUM_ALARM i.2 t cp cm 2]).
Proof.
  induction inputs as [|j inputs IH]; intros w st Hwf Ht Hst Hfull Habove k i r Hi Hr.
  { by rewrite lookup_nil in Hi. }
  destruct (check_cusum_step j.1 j.2 w t st Hwf Ht Hst)
    as (w' & alerts & Hrun & Hwf' & Htk & Hst' & Hal).
  destruct (cusum_update_persist (k_attack w) (default 0 (j.1 !! t)) j.2 t st Hfull)
    as (_ & Hp & Hout & Hfull').
  cbn [stays_above] in Habove. rewrite Hrun in Habove. cbn [fst] in Habove.
  apply andb_true_iff in Habove as [Hnow Hrest].
  unfold above_now in Hnow. rewrite Hst' in Hnow. cbn [from_option] in Hnow.
  rewrite Hnow in Hp.
  cbn [cusum_trace] in Hr. rewrite Hrun in Hr. cbn [fst snd] in Hr.
  destruct k as [|k].
  - cbn in Hi, Hr. inversion Hi; subst j. inversion Hr; subst r.
    exists alerts. split; [done|]. rewrite Hal, Hout, Hp. clear Hout.
    unfold PERSISTENCE_THRESHOLD. split; intros Hk.
    + case_decide; [|done]. simplify_eq. lia.
    + eexists _, _. case_decide; [done|].
      exfalso. match goal with H : _ ≠ _ |- _ => apply H end. f_equal. lia.
  - cbn in Hi, Hr.
    assert (Ht' : t ∈ tanks w') by (by rewrite Htk).
    destruct (IH w' _ Hwf' Ht' Hst' Hfull' Hrest k i r Hi Hr)
      as (al & -> & _ & Hfire).
    exists al. split; [done|]. rewrite Hp in Hfire. cbn [default] in Hfire.
    unfold PERSISTENCE_THRESHOLD, id in Hfire. split; intros Hk; [lia|].
    apply Hfire. lia.
Qed.

(** C4. (1) A detection step of [check_cusum] on a tank sets the persistence
    counter to [min (counter + 1) 2] when the updated [C_plus] or [C_minus]
    exceeds the threshold and to 0 otherwise, and returns for that tank
    exactly one CUSUM_ALARM, carrying the updated statistics and the count,
    when the counter is then 2, and nothing otherwise. (2) On a stream that
    keeps the condition true at every call, a counter that starts at 0 gives
    no alarm on the first call and one alarm on the second and on every later
    call; a counter that has reached 2 gives an alarm on every call. *)
Theorem cusum_alarm_persistence :
  (∀ w state cur t st,
     wf_cusum w → t ∈ tanks w → cusum_state w !! t = Some st →
     (W ≤ length (buffer st))%nat →
     ∃ w' alerts st',
       check_cusum state cur w = (w', Ok alerts) ∧
       cusum_state w' !! t = Some st' ∧
       persist st'
         = Some (if above_of st'
                 then Nat.min (default 0%nat (persist st) + 1) PERSISTENCE_THRESHOLD
                 else 0%nat) ∧
       alerts_of t alerts
         = (if decide (persist st' = Some PERSISTENCE_THRESHOLD)
            then [CUSUM_ALARM cur t (C_plus st') (C_minus st') PERSISTENCE_THRESHOLD]
            else [])) ∧
  (∀ w inputs t st,
     wf_cusum w → t ∈ tanks w → cusum_state w !! t = Some st →
     (W ≤ length (buffer st))%nat →
     stays_above t inputs w = true →
     ∀ k i r, inputs !! k = Some i → cusum_trace inputs w !! k = Some r →
       ∃ alerts, r = Ok alerts ∧
         ((default 0 (persist st) + k + 1 < PERSISTENCE_THRESHOLD)%nat →
            alerts_of t alerts = []) ∧
         ((PERSISTENCE_THRESHOLD ≤ default 0 (persist st) + k + 1)%nat →
            ∃ cp cm, alerts_of t alerts
                     = [CUSUM_ALARM i.2 t cp cm PERSISTENCE_THRESHOLD])).
Proof.
  split.
  - intros w state cur t st Hwf Ht Hst Hfull.
    destruct (check_cusum_step state cur w t st Hwf Ht Hst)
      as (w' & alerts & Hrun & _ & _ & Hst' & Hal).
    destruct (cusum_update_persist (k_attack w) (default 0 (state !! t)) cur t st Hfull)
      as (_ & Hp & Hout & _).
    eexists _, _, _. split; [exact Hrun|]. split; [exact Hst'|].
    split; [exact Hp|]. by rewrite Hal.
  - intros w inputs t st Hwf Ht Hst Hfull Habove k i r Hi Hr.
    by apply (cusum_stream_alarms t inputs w st).
Qed.

(** ** C8: the adaptive residual, threshold and sensitivity *)



#[local] Instance Qle_total : Total Qle.
Proof.
  intros x y. destruct (Qlt_le_dec x y) as [H|H]; [left; by apply Qlt_le_weak|by right].
Qed.

(** [np_median] reads the middle of a sorted rearrangement of the data. *)
Lemma Qsort_sorted (l : list Q) : Sorted Qle (Qsort l) ∧ Qsort l ≡ₚ l.
Proof.
  split; [apply Sorted_merge_sort; apply _ | apply merge_sort_Permutation].
Qed.


(** ** What check_invariants does to each tank *)

Lemma invariant_tank_run state cur pump_on t w :
  let u := invariant_update pump_on (default 0 (state !! t)) cur t
             (attr_prev w !! t) (attr_badcnt w !! t) in
  invariant_tank state cur pump_on t w
    = (set_attrs (<[t := default 0 (state !! t)]> (attr_prev w))
         (write_badcnt t (fst u) (attr_badcnt w)) w,
       Ok (snd u)).
Proof.
  unfold invariant_tank, invariant_update, write_badcnt. unfold_monad. cbn zeta.
  destruct (attr_prev w !! t) as [prev|] eqn:Ep.
  - match goal with
    | |- context [(INV_PERSIST <=? ?b)%nat] =>
        generalize b; intros b'; destruct (INV_PERSIST <=? b')%nat
    end; simpl.
    + unfold set_attrs, set_attr_badcnt, set_attr_prev. simpl.
      by rewrite insert_insert_eq.
    + done.
  - simpl. destruct (attr_badcnt w !! t) eqn:Eb; simpl.
    + unfold set_attrs, set_attr_badcnt, set_attr_prev. simpl.
      by rewrite (insert_id (attr_badcnt w) t n Eb).
    + by destruct w.
Qed.

Lemma set_attrs_id w : set_attrs (attr_prev w) (attr_badcnt w) w = w.
Proof. by destruct w. Qed.

Lemma for_tanks_invariants state cur pump_on (l : list string) : ∀ w,
  NoDup l →
  ∃ p' b',
    for_tanks l (invariant_tank state cur pump_on) w
      = (set_attrs p' b' w, Ok (invariant_alerts w state cur pump_on l)) ∧
    (∀ t, t ∉ l → p' !! t = attr_prev w !! t ∧ b' !! t = attr_badcnt w !! t) ∧
    (∀ t, t ∈ l →
       p' !! t = Some (default 0 (state !! t)) ∧
       b' !! t = (invariant_update pump_on (default 0 (state !! t)) cur t
                    (attr_prev w !! t) (attr_badcnt w !! t)).1).
Proof.
  induction l as [|t l IH]; intros w Hnd.
  - exists (attr_prev w), (attr_badcnt w). simpl. unfold_monad.
    rewrite set_attrs_id. split; [done|]. split; [done|].
    intros t Ht. by apply not_elem_of_nil in Ht.
  - apply NoDup_cons in Hnd as [Hnt Hnd].
    pose proof (invariant_tank_run state cur pump_on t w) as Hrun1. cbn zeta in Hrun1.
    set (u := invariant_update pump_on (default 0 (state !! t)) cur t
                (attr_prev w !! t) (attr_badcnt w !! t)) in *.
    set (w1 := set_attrs _ _ w) in Hrun1.
    destruct (IH w1 Hnd) as (p' & b' & Hrun & Hout & Hin).
    assert (Hb1 : attr_badcnt w1 !! t = u.1).
    { unfold w1, write_badcnt. simpl. destruct u.1 as [b|] eqn:Eu.
      - by rewrite lookup_insert_eq.
      - subst u. unfold invariant_update in Eu.
        destruct (attr_prev w !! t); [done|]. done. }
    assert (Hother : ∀ x, x ≠ t →
              attr_prev w1 !! x = attr_prev w !! x ∧
              attr_badcnt w1 !! x = attr_badcnt w !! x).
    { intros x Hx. unfold w1, write_badcnt. simpl. rewrite lookup_insert_ne by done.
      split; [done|]. destruct u.1; [by rewrite lookup_insert_ne|done]. }
    exists p', b'. split; [|split].
    + cbn [for_tanks]. rewrite (mbind_ok _ _ _ _ _ Hrun1).
      rewrite (mbind_ok _ _ _ _ _ Hrun). unfold mret, M_ret. f_equal.
      f_equal. unfold invariant_alerts. cbn [flat_map]. fold u. f_equal.
      apply flat_map_ext_in. intros x Hx.
      assert (x ≠ t) as Hne by (intros ->; done).
      destruct (Hother x Hne) as [-> ->]. done.
    + intros x Hx. apply not_elem_of_cons in Hx as [Hne Hx].
      destruct (Hout x Hx) as [-> ->]. by apply Hother.
    + intros x Hx. apply elem_of_cons in Hx as [->|Hx].
      * destruct (Hout t Hnt) as [-> ->]. split; [|done].
        unfold w1. simpl. by rewrite lookup_insert_eq.
      * assert (x ≠ t) as Hne by (intros ->; done).
        destruct (Hin x Hx) as [-> ->]. split; [done|].
        destruct (Hother x Hne) as [-> ->]. done.
Qed.

(** One call of [check_invariants] always returns; for distinct tank names it
    rewrites the two attributes of every tank by [invariant_update]. *)
Lemma check_invariants_spec state cur w :
  NoDup (tanks w) →
  ∃ p' b',
    check_invariants state cur w
      = (set_attrs p' b' w,
         Ok (invariant_alerts w state cur (pump_on_of state w) (tanks w))) ∧
    (∀ t, t ∉ tanks w → p' !! t = attr_prev w !! t ∧ b' !! t = attr_badcnt w !! t) ∧
    (∀ t, t ∈ tanks w →
       p' !! t = Some (default 0 (state !! t)) ∧
       b' !! t = (invariant_update (pump_on_of state w) (default 0 (state !! t)) cur t
                    (attr_prev w !! t) (attr_badcnt w !! t)).1).
Proof.
  intros Hnd. unfold check_invariants. unfold_monad.
  by apply for_tanks_invariants.
Qed.

Lemma invariant_update_alerts_tank pump_on level cur t prev bad a :
  a ∈ (invariant_update pump_on level cur t prev bad).2 → alert_tank a = t.
Proof.
  unfold invariant_update. destruct prev as [prev|]; cbn [snd].
  - rewrite elem_of_app. intros [Ha|Ha]; revert Ha; case_match; intros Ha;
      try (by apply not_elem_of_nil in Ha);
      apply list_elem_of_singleton in Ha; by subst.
  - intros Ha. by apply not_elem_of_nil in Ha.
Qed.

Lemma invariant_alerts_of w state cur pump_on l t :
  NoDup l → t ∈ l →
  alerts_of t (invariant_alerts w state cur pump_on l)
    = (invariant_update pump_on (default 0 (state !! t)) cur t
         (attr_prev w !! t) (attr_badcnt w !! t)).2.
Proof.
  intros Hnd Ht. unfold invariant_alerts.
  induction l as [|u l IH]; [by apply not_elem_of_nil in Ht|].
  apply NoDup_cons in Hnd as [Hu Hnd]. cbn [flat_map].
  unfold alerts_of in *. rewrite filter_app.
  destruct (decide (u = t)) as [->|Hne].
  - match goal with |- ?a ++ ?r = ?c => assert (r = []) as ->; [|assert (a = c) as Ha] end.
    + apply alerts_of_other. intros a Ha Heq.
      apply list_elem_of_In, in_flat_map in Ha as (x & Hx & Ha).
      apply list_elem_of_In in Hx, Ha.
      apply invariant_update_alerts_tank in Ha. congruence.
    + apply alerts_of_same. intros a. apply invariant_update_alerts_tank.
    + by rewrite Ha, app_nil_r.
  - apply elem_of_cons in Ht as [->|Ht]; [done|].
    rewrite (IH Hnd Ht).
    match goal with |- ?r ++ _ = _ => assert (r = []) as -> end; [|done].
    apply alerts_of_other. intros a Ha.
    apply invariant_update_alerts_tank in Ha. by rewrite Ha.
Qed.

(** One call of [check_invariants], seen from tank [t]. *)
Lemma check_invariants_step state cur w t :
  NoDup (tanks w) → t ∈ tanks w →
  let u := invariant_update (pump_on_of state w) (default 0 (state !! t)) cur t
             (attr_prev w !! t) (attr_badcnt w !! t) in
  ∃ w' alerts,
    check_invariants state cur w = (w', Ok alerts) ∧
    tanks w' = tanks w ∧ pumps w' = pumps w ∧
    attr_prev w' !! t = Some (default 0 (state !! t)) ∧
    attr_badcnt w' !! t = fst u ∧
    alerts_of t alerts = snd u.
Proof.
  intros Hnd Ht u.
  destruct (check_invariants_spec state cur w Hnd) as (p' & b' & Hrun & _ & Hin).
  destruct (Hin t Ht) as [Hp Hb].
  eexists _, _. split; [exact Hrun|]. split; [done|]. split; [done|].
  split; [exact Hp|]. split; [exact Hb|]. by apply invariant_alerts_of.
Qed.

Lemma invariant_update_split pump_on level cur t prev bad :
  let delta := level - prev in
  let violated :=
    (pump_on && Qltb delta (- DEAD_BAND)) || (negb pump_on && Qltb DEAD_BAND delta) in
  let b := if violated then (default 0%nat bad + 1)%nat else 0%nat in
  let out := (invariant_update pump_on level cur t (Some prev) bad).2 in
  filter (λ a, is_violation a = true) out
    = (if (INV_PERSIST <=? b)%nat then [INVARIANT_VIOLATION cur t level prev b] else []) ∧
  filter (λ a, is_tank_empty a = true) out
    = (if Qeq_bool level 0 then [TANK_EMPTY cur t] else []).
Proof.
  unfold invariant_update. cbn [snd].
  match goal with
  | |- context [(INV_PERSIST <=? ?b)%nat] =>
      generalize b; intros b'; destruct (INV_PERSIST <=? b')%nat
  end; destruct (Qeq_bool level 0); done.
Qed.

(** ** C6: the pump/level invariant, its dead band and its counter *)


(** ** C3: the empty-tank check *)

Lemma check_invariants_empties state cur w t :
  NoDup (tanks w) → t ∈ tanks w →
  ∃ w' alerts,
    check_invariants state cur w = (w', Ok alerts) ∧
    tanks w' = tanks w ∧
    attr_prev w' !! t = Some (default 0 (state !! t)) ∧
    (attr_prev w !! t = None → alerts_of t alerts = []) ∧
    (is_Some (attr_prev w !! t) →
       empties_of t alerts
         = (if Qeq_bool (default 0 (state !! t)) 0 then [TANK_EMPTY cur t] else [])).
Proof.
  intros Hnd Ht.
  destruct (check_invariants_step state cur w t Hnd Ht)
    as (w' & alerts & Hrun & Htk & _ & Hp & _ & Hal).
  exists w', alerts. split; [exact Hrun|]. split; [exact Htk|]. split; [exact Hp|].
  split.
  - intros Hnone. rewrite Hal, Hnone. done.
  - intros [prev Hprev]. unfold empties_of. rewrite Hal, Hprev.
    apply (invariant_update_split (pump_on_of state w) (default 0 (state !! t)) cur t
             prev (attr_badcnt w !! t)).
Qed.

(** C3, as the code has it. (1) On every call at which the tank already has
    a recorded previous level, [check_invariants] returns exactly one
    TANK_EMPTY alert for the tank when its level equals 0.0 and none
    otherwise, whatever the violation counter and the pumps. (2) On the
    tank's first observed sample the level is recorded and no alert of any
    kind is returned for the tank. (3) From any state, the levels
    [5.0, 0.0, 0.0, 3.0] on iterations 1 to 4 give a TANK_EMPTY alert on
    iterations 2 and 3 only. *)
Theorem tank_empty_once_level_recorded :
  (∀ w state cur t,
     NoDup (tanks w) → t ∈ tanks w → is_Some (attr_prev w !! t) →
     ∃ w' alerts,
       check_invariants state cur w = (w', Ok alerts) ∧
       empties_of t alerts
         = (if Qeq_bool (default 0 (state !! t)) 0 then [TANK_EMPTY cur t] else [])) ∧
  (∀ w state cur t,
     NoDup (tanks w) → t ∈ tanks w → attr_prev w !! t = None →
     ∃ w' alerts,
       check_invariants state cur w = (w', Ok alerts) ∧
       alerts_of t alerts = [] ∧
       attr_prev w' !! t = Some (default 0 (state !! t))) ∧
  (∀ w s1 s2 s3 s4 t,
     NoDup (tanks w) → t ∈ tanks w →
     s1 !! t = Some 5 → s2 !! t = Some 0 → s3 !! t = Some 0 → s4 !! t = Some 3 →
     ∃ a1 a2 a3 a4,
       invariant_trace [(s1, 1%Z); (s2, 2%Z); (s3, 3%Z); (s4, 4%Z)] w
         = [Ok a1; Ok a2; Ok a3; Ok a4] ∧
       empties_of t a1 = [] ∧
       empties_of t a2 = [TANK_EMPTY 2 t] ∧
       empties_of t a3 = [TANK_EMPTY 3 t] ∧
       empties_of t a4 = []).
Proof.
  split; [|split].
  - intros w state cur t Hnd Ht Hprev.
    destruct (check_invariants_empties state cur w t Hnd Ht)
      as (w' & alerts & Hrun & _ & _ & _ & He).
    exists w', alerts. split; [exact Hrun|]. by apply He.
  - intros w state cur t Hnd Ht Hprev.
    destruct (check_invariants_empties state cur w t Hnd Ht)
      as (w' & alerts & Hrun & _ & Hp & Hn & _).
    exists w', alerts. split; [exact Hrun|]. split; [by apply Hn|exact Hp].
  - intros w s1 s2 s3 s4 t Hnd Ht H1 H2 H3 H4.
    destruct (check_invariants_empties s1 1 w t Hnd Ht)
      as (w1 & a1 & Hrun1 & Htk1 & Hp1 & Hn1 & He1).
    assert (Hnd1 : NoDup (tanks w1)) by (by rewrite Htk1).
    assert (Ht1 : t ∈ tanks w1) by (by rewrite Htk1).
    destruct (check_invariants_empties s2 2 w1 t Hnd1 Ht1)
      as (w2 & a2 & Hrun2 & Htk2 & Hp2 & _ & He2).
    assert (Hnd2 : NoDup (tanks w2)) by (by rewrite Htk2).
    assert (Ht2 : t ∈ tanks w2) by (by rewrite Htk2).
    destruct (check_invariants_empties s3 3 w2 t Hnd2 Ht2)
      as (w3 & a3 & Hrun3 & Htk3 & Hp3 & _ & He3).
    assert (Hnd3 : NoDup (tanks w3)) by (by rewrite Htk3).
    assert (Ht3 : t ∈ tanks w3) by (by rewrite Htk3).
    destruct (check_invariants_empties s4 4 w3 t Hnd3 Ht3)
      as (w4 & a4 & Hrun4 & _ & _ & _ & He4).
    exists a1, a2, a3, a4. split; [|split; [|split; [|split]]].
    + cbn [invariant_trace fst snd].
      rewrite Hrun1. cbn [fst snd]. rewrite Hrun2. cbn [fst snd].
      rewrite Hrun3. cbn [fst snd]. rewrite Hrun4. done.
    + destruct (attr_prev w !! t) as [p|] eqn:Ep.
      * rewrite He1 by eauto. by rewrite H1.
      * unfold empties_of. by rewrite Hn1.
    + rewrite He2 by eauto. by rewrite H2.
    + rewrite He3 by eauto. by rewrite H3.
    + rewrite He4 by eauto. by rewrite H4.
Qed.

(** ** C10: a tank missing from the snapshot *)

Lemma for_tanks_ext (body body' : string → M (list Alert)) (l : list string) w :
  (∀ t w, body t w = body' t w) → for_tanks l body w = for_tanks l body' w.
Proof.
  intros H. revert w. induction l as [|t l IH]; intros w; [done|].
  cbn [for_tanks]. unfold mbind, M_bind. rewrite H.
  destruct (body' t w) as [w1 [a|e]]; [|done]. by rewrite IH.
Qed.

Lemma default_insert_absent (state : gmap string Q) (t u : string) :
  state !! t = None → default 0 (<[t := 0]> state !! u) = default 0 (state !! u).
Proof.
  intros H. destruct (decide (t = u)) as [->|Hne].
  - by rewrite lookup_insert_eq, H.
  - by rewrite lookup_insert_ne.
Qed.

(** C10. A tank absent from the snapshot is read as level 0.0: the call is
    the same, in its alerts and in the state it leaves, as on the snapshot
    that maps the tank to 0.0; the level recorded for the tank is 0.0, and
    once the tank has a recorded previous level the call returns a
    TANK_EMPTY alert for it. *)
Theorem missing_tank_reads_as_empty (w : World) (state : gmap string Q) (cur : Z)
    (t : string) :
  state !! t = None →
  check_invariants state cur w = check_invariants (<[t := 0]> state) cur w ∧
  (NoDup (tanks w) → t ∈ tanks w →
     ∃ w' alerts,
       check_invariants state cur w = (w', Ok alerts) ∧
       attr_prev w' !! t = Some 0 ∧
       (is_Some (attr_prev w !! t) →
          TANK_EMPTY cur t ∈ alerts ∧ empties_of t alerts = [TANK_EMPTY cur t])).
Proof.
  intros Hmiss. split.
  - unfold check_invariants. unfold_monad.
    assert (Hp : existsb (λ p, truthy (default 0 (<[t := 0]> state !! p))) (pumps w)
                 = existsb (λ p, truthy (default 0 (state !! p))) (pumps w)).
    { induction (pumps w) as [|p ps IH]; [done|]. simpl.
      by rewrite IH, default_insert_absent. }
    rewrite Hp. apply for_tanks_ext. intros u w0.
    unfold invariant_tank. by rewrite default_insert_absent.
  - intros Hnd Ht.
    destruct (check_invariants_empties state cur w t Hnd Ht)
      as (w' & alerts & Hrun & _ & Hp & _ & He).
    rewrite Hmiss in Hp, He. cbn in Hp, He.
    exists w', alerts. split; [exact Hrun|]. split; [exact Hp|].
    intros Hprev. specialize (He Hprev). split; [|exact He].
    assert (Hin : TANK_EMPTY cur t ∈ empties_of t alerts) by (rewrite He; left).
    unfold empties_of, alerts_of in Hin.
    apply list_elem_of_filter in Hin as [_ Hin].
    by apply list_elem_of_filter in Hin as [_ Hin].
Qed.

(** ** Loops that rewrite one dictionary entry per tank *)

Section KeyedLoop.

Context {V : Type}.
Variable getm : World → gmap string V.
Variable setm : (gmap string V → gmap string V) → World → World.
Variable step : World → string → V → V * list Alert.
Variable pre : World → string → Prop.
Variable body : string → M (list Alert).

Hypothesis get_set : ∀ f w, getm (setm f w) = f (getm w).
Hypothesis set_set : ∀ f g w, setm f (setm g w) = setm (λ m, f (g m)) w.
Hypothesis set_id : ∀ w, setm (λ _, getm w) w = w.
Hypothesis step_frame : ∀ f w t v, step (setm f w) t v = step w t v.
Hypothesis pre_frame : ∀ f w t, pre w t → pre (setm f w) t.
Hypothesis body_run : ∀ w t v,
  pre w t → getm w !! t = Some v →
  body t w = (setm (<[t := (step w t v).1]>) w, Ok (step w t v).2).

Lemma keyed_loop (l : list string) : ∀ w,
  NoDup l → (∀ t, t ∈ l → pre w t ∧ is_Some (getm w !! t)) →
  ∃ m',
    for_tanks l body w
      = (setm (λ _, m') w,
         Ok (flat_map (λ t, match getm w !! t with
                            | Some v => (step w t v).2
                            | None => []
                            end) l)) ∧
    (∀ t, t ∉ l → m' !! t = getm w !! t) ∧
    (∀ t v, t ∈ l → getm w !! t = Some v → m' !! t = Some (step w t v).1).
Proof.
  induction l as [|t l IH]; intros w Hnd Hall.
  - exists (getm w). simpl. unfold mret, M_ret. rewrite set_id.
    split; [done|]. split; [done|]. intros t v Ht. by apply not_elem_of_nil in Ht.
  - apply NoDup_cons in Hnd as [Hnt Hnd].
    destruct (Hall t (list_elem_of_here _ _)) as [Hpre [v Hv]].
    set (w1 := setm (<[t := (step w t v).1]>) w).
    destruct (IH w1 Hnd) as (m' & Hrun & Hout & Hin).
    { intros u Hu. destruct (Hall u (list_elem_of_further _ _ _ Hu)) as [Hpu Hsu].
      split; [by apply pre_frame|]. unfold w1. rewrite get_set.
      destruct (decide (t = u)) as [->|Hne].
      - rewrite lookup_insert_eq. eauto.
      - by rewrite lookup_insert_ne. }
    exists m'. split; [|split].
    + cbn [for_tanks]. rewrite (mbind_ok _ _ _ _ _ (body_run w t v Hpre Hv)).
      fold w1. rewrite (mbind_ok _ _ _ _ _ Hrun). unfold mret, M_ret.
      unfold w1 at 1. rewrite set_set. f_equal. f_equal.
      cbn [flat_map]. rewrite Hv. f_equal.
      apply flat_map_ext_in. intros u Hu. unfold w1. rewrite get_set.
      rewrite lookup_insert_ne by (intros ->; done).
      destruct (getm w !! u); [|done]. by rewrite step_frame.
    + intros u Hu. apply not_elem_of_cons in Hu as [Hne Hu].
      rewrite (Hout u Hu). unfold w1. rewrite get_set. by rewrite lookup_insert_ne.
    + intros u vu Hu Hvu. apply elem_of_cons in Hu as [->|Hu].
      * rewrite (Hout t Hnt). unfold w1. rewrite get_set, lookup_insert_eq.
        rewrite Hv in Hvu. by inversion Hvu; subst.
      * rewrite <- (step_frame (<[t := (step w t v).1]>) w u vu).
        apply (Hin u vu Hu). unfold w1. rewrite get_set.
        rewrite lookup_insert_ne; [done|]. intros ->. done.
Qed.

End KeyedLoop.

(** ** What check_drift does *)

Lemma flat_map_nil {A B : Type} (f : A → list B) (l : list A) :
  (∀ x, x ∈ l → f x = []) → flat_map f l = [].
Proof.
  induction l as [|x l IH]; intros H; [done|]. simpl.
  rewrite (H x) by left. apply IH. intros y Hy. apply H. by right.
Qed.

Lemma drift_append_loop state w :
  NoDup (tanks w) → (∀ t, t ∈ tanks w → is_Some (long_term_buffers w !! t)) →
  ∃ m',
    for_tanks (tanks w) (drift_append state) w
      = (set_long_term_buffers (λ _, m') w, Ok []) ∧
    (∀ t, t ∈ tanks w → m' !! t = Some (drift_buffer state w t)).
Proof.
  intros Hnd Hall.
  destruct (keyed_loop long_term_buffers set_long_term_buffers
              (λ _ t buf, (deque_append (default 0 (state !! t)) buf, []))
              (λ _ _, True) (drift_append state)) with (l := tanks w) (w := w)
    as (m' & Hrun & _ & Hin); try done.
  - intros w0. by destruct w0.
  - intros w0 t v _ Hv. unfold drift_append. unfold_monad. by rewrite Hv.
  - intros t Ht. split; [done|]. by apply Hall.
  - exists m'. split.
    + rewrite Hrun. f_equal. f_equal.
      apply flat_map_nil. intros t _. by destruct (long_term_buffers w !! t).
    + intros t Ht. destruct (Hall t Ht) as [buf Hbuf].
      rewrite (Hin t buf Ht Hbuf). unfold drift_buffer. by rewrite Hbuf.
Qed.

Lemma drift_full_all (l : list string) w :
  (∀ t, t ∈ l → is_Some (long_term_buffers w !! t)) →
  all_m l drift_full w
    = (w, Ok (forallb (λ t, (W <=? length (default [] (long_term_buffers w !! t)))%nat) l)).
Proof.
  induction l as [|t l IH]; intros Hall; [done|].
  destruct (Hall t (list_elem_of_here _ _)) as [buf Hbuf].
  assert (Hrun : drift_full t w = (w, Ok (W <=? length buf)%nat)).
  { unfold drift_full. unfold_monad. by rewrite Hbuf. }
  cbn [all_m forallb]. rewrite (mbind_ok _ _ _ _ _ Hrun), Hbuf.
  cbn [default from_option id].
  destruct (W <=? length buf)%nat; [|done].
  rewrite IH; [done|]. intros u Hu. apply Hall. by right.
Qed.

Lemma drift_block_loop cur w :
  wf_drift w →
  ∃ m',
    for_tanks (tanks w) (drift_block cur) w
      = (set_last_block_mean (λ _, m') w,
         Ok (flat_map (λ t, drift_alert cur t
                              (np_mean (default [] (long_term_buffers w !! t)))
                              (default None (last_block_mean w !! t))) (tanks w))) ∧
    (∀ t, t ∈ tanks w →
       m' !! t = Some (Some (np_mean (default [] (long_term_buffers w !! t))))).
Proof.
  intros [Hnd Hall]. rewrite Forall_forall in Hall.
  destruct (keyed_loop last_block_mean set_last_block_mean
              (λ w t pm, (Some (np_mean (default [] (long_term_buffers w !! t))),
                          drift_alert cur t
                            (np_mean (default [] (long_term_buffers w !! t))) pm))
              (λ w t, is_Some (long_term_buffers w !! t)) (drift_block cur))
    with (l := tanks w) (w := w) as (m' & Hrun & _ & Hin); try done.
  - intros w0. by destruct w0.
  - intros w0 t v Hb Hv. destruct Hb as [buf Hbuf].
    unfold drift_block. unfold_monad. by rewrite Hbuf, Hv.
  - exists m'. split.
    + rewrite Hrun. f_equal. f_equal.
      apply flat_map_ext_in. intros t Ht. destruct (Hall t Ht) as [_ [pm Hpm]].
      by rewrite Hpm.
    + intros t Ht. destruct (Hall t Ht) as [_ [pm Hpm]].
      by rewrite (Hin t pm Ht Hpm).
Qed.

Lemma drift_clear_loop w :
  NoDup (tanks w) → (∀ t, t ∈ tanks w → is_Some (long_term_buffers w !! t)) →
  ∃ m',
    for_tanks (tanks w) drift_clear w = (set_long_term_buffers (λ _, m') w, Ok []) ∧
    (∀ t, t ∈ tanks w → m' !! t = Some []).
Proof.
  intros Hnd Hall.
  destruct (keyed_loop long_term_buffers set_long_term_buffers
              (λ _ _ _, ([], [])) (λ _ _, True) drift_clear)
    with (l := tanks w) (w := w) as (m' & Hrun & _ & Hin); try done.
  - intros w0. by destruct w0.
  - intros w0 t v _ Hv. unfold drift_clear. unfold_monad. by rewrite Hv.
  - intros t Ht. split; [done|]. by apply Hall.
  - exists m'. split.
    + rewrite Hrun. f_equal. f_equal.
      apply flat_map_nil. intros t _. by destruct (long_term_buffers w !! t).
    + intros t Ht. destruct (Hall t Ht) as [buf Hbuf]. by rewrite (Hin t buf Ht Hbuf).
Qed.

Lemma forallb_ext_in {A : Type} (f g : A → bool) (l : list A) :
  (∀ x, x ∈ l → f x = g x) → forallb f l = forallb g l.
Proof.
  induction l as [|x l IH]; intros H; [done|]. simpl.
  rewrite (H x) by left. rewrite IH; [done|]. intros y Hy. apply H. by right.
Qed.

Lemma check_drift_spec state cur w :
  wf_drift w →
  ∃ w' alerts,
    check_drift state cur w = (w', Ok alerts) ∧
    if block_complete state w then
      alerts = flat_map (λ t, drift_alert cur t (np_mean (drift_buffer state w t))
                                (default None (last_block_mean w !! t))) (tanks w) ∧
      ∀ t, t ∈ tanks w →
        long_term_buffers w' !! t = Some [] ∧
        last_block_mean w' !! t = Some (Some (np_mean (drift_buffer state w t)))
    else
      alerts = [] ∧
      last_block_mean w' = last_block_mean w ∧
      ∀ t, t ∈ tanks w → long_term_buffers w' !! t = Some (drift_buffer state w t).
Proof.
  intros [Hnd Hall]. rewrite Forall_forall in Hall.
  destruct (drift_append_loop state w Hnd) as (m1 & Hrun1 & Hm1).
  { intros t Ht. by destruct (Hall t Ht). }
  set (w1 := set_long_term_buffers (λ _, m1) w) in *.
  assert (Hfull : all_m (tanks w) drift_full w1 = (w1, Ok (block_complete state w))).
  { rewrite drift_full_all.
    - f_equal. f_equal. apply forallb_ext_in. intros t Ht. simpl.
      by rewrite (Hm1 t Ht).
    - intros t Ht. simpl. rewrite (Hm1 t Ht). eauto. }
  unfold check_drift. unfold get at 1.
  unfold mbind at 1, M_bind at 1.
  rewrite (mbind_ok _ _ _ _ _ Hrun1), (mbind_ok _ _ _ _ _ Hfull).
  destruct (block_complete state w) eqn:Eb.
  - assert (Hwf1 : wf_drift w1).
    { split; [done|]. apply Forall_forall. intros t Ht. simpl.
      rewrite (Hm1 t Ht). split; [eauto|]. by destruct (Hall t Ht). }
    destruct (drift_block_loop cur w1 Hwf1) as (m2 & Hrun2 & Hm2).
    set (w2 := set_last_block_mean (λ _, m2) w1) in *.
    destruct (drift_clear_loop w2) as (m3 & Hrun3 & Hm3); [done| |].
    { intros t Ht. simpl. rewrite (Hm1 t Ht). eauto. }
    rewrite (mbind_ok _ _ _ _ _ Hrun2), (mbind_ok _ _ _ _ _ Hrun3).
    eexists _, _. split; [done|]. split.
    + apply flat_map_ext_in. intros t Ht. simpl. by rewrite (Hm1 t Ht).
    + intros t Ht. simpl. split; [by apply Hm3|].
      rewrite (Hm2 t Ht). simpl. by rewrite (Hm1 t Ht).
  - eexists _, _. split; [done|]. split; [done|]. split; [done|].
    intros t Ht. simpl. by apply Hm1.
Qed.


(** ** C7: the block boundary of the drift detector *)


(** ** One turn of the polling loop *)

Lemma windows_full_lookup w t :
  windows_full w = true → t ∈ tanks w →
  ∃ st, cusum_state w !! t = Some st ∧ (W ≤ length (buffer st))%nat.
Proof.
  unfold windows_full. rewrite forallb_forall. intros H Ht.
  specialize (H t (proj1 (list_elem_of_In _ _) Ht)).
  destruct (cusum_state w !! t) as [st|]; [|done].
  exists st. split; [done|]. by apply Nat.leb_le.
Qed.

Lemma cusum_warming_full (l : list string) w :
  (∀ t, t ∈ l → ∃ st, cusum_state w !! t = Some st ∧ (W ≤ length (buffer st))%nat) →
  any_m l cusum_warming w = (w, Ok false).
Proof.
  induction l as [|t l IH]; intros Hall; [done|].
  destruct (Hall t (list_elem_of_here _ _)) as (st & Hst & Hlen).
  assert (Hrun : cusum_warming t w = (w, Ok false)).
  { unfold cusum_warming. unfold_monad. rewrite Hst.
    by destruct (Nat.ltb_spec (length (buffer st)) W); [lia|]. }
  cbn [any_m]. rewrite (mbind_ok _ _ _ _ _ Hrun).
  apply IH. intros u Hu. apply Hall. by right.
Qed.

(** A call of [check_cusum] on full windows: every tank takes a detection
    step and the windows stay full. *)
Lemma check_cusum_full state cur w :
  wf_cusum w → windows_full w = true →
  ∃ w1 a1,
    check_cusum state cur w = (w1, Ok a1) ∧
    wf_cusum w1 ∧ windows_full w1 = true ∧
    tanks w1 = tanks w ∧ k_attack w1 = k_attack w ∧ last_time w1 = last_time w ∧
    stdout w1 = stdout w ∧
    ∀ t st, t ∈ tanks w → cusum_state w !! t = Some st →
      cusum_state w1 !! t
        = Some (cusum_update (k_attack w) (default 0 (state !! t)) cur t st).1 ∧
      alerts_of t a1 = (cusum_update (k_attack w) (default 0 (state !! t)) cur t st).2.
Proof.
  intros Hwf Hfull.
  pose proof (check_cusum_wf state cur w Hwf) as Hwf1.
  destruct (check_cusum_spec state cur w Hwf) as (m' & Hrun & _ & Hin).
  rewrite Hrun in Hwf1. cbn [fst] in Hwf1.
  eexists _, _. split; [exact Hrun|]. split; [exact Hwf1|].
  split; [|split; [done|split; [done|split; [done|split; [done|]]]]].
  - unfold windows_full. apply forallb_forall. intros t Ht. simpl in *.
    apply list_elem_of_In in Ht.
    destruct (windows_full_lookup w t Hfull Ht) as (st & Hst & Hlen).
    rewrite (Hin t st Ht Hst). simpl. apply Nat.leb_le.
    by apply cusum_update_persist.
  - intros t st Ht Hst. split; [by apply Hin|].
    apply cusum_alerts_of; [apply Hwf|done..].
Qed.

(** A turn on an absent or unchanged iteration id does nothing. *)
Lemma loop_pass_idle w poll :
  master_time poll = None ∨ master_time poll = Some (last_time w) →
  loop_pass w poll = w.
Proof.
  intros [H|H]; unfold loop_pass, loop_body; unfold_monad; rewrite H; [done|].
  by rewrite Z.eqb_refl.
Qed.

(** A turn on a new iteration id once the windows are full: [check_cusum]
    runs twice on the same snapshot, at line 254 and at line 263, before
    anything else. *)
Lemma loop_pass_detecting w poll cur :
  master_time poll = Some cur → cur ≠ last_time w →
  wf_cusum w → windows_full w = true →
  ∃ w1 a1 w2 a2,
    check_cusum (plant poll) cur w = (w1, Ok a1) ∧
    check_cusum (plant poll) cur w1 = (w2, Ok a2) ∧
    wf_cusum w1 ∧ windows_full w1 = true ∧ tanks w1 = tanks w ∧
    k_attack w1 = k_attack w ∧
    loop_pass w poll
      = match after_cusum (plant poll) cur w a2 w2 with
        | (w', Ok _) => w'
        | (w', Raise e) => print (ErrorLine e) w'
        end.
Proof.
  intros Hcur Hnew Hwf Hfull.
  destruct (check_cusum_full (plant poll) cur w Hwf Hfull)
    as (w1 & a1 & Hrun1 & Hwf1 & Hfull1 & Htk1 & Hk1 & _).
  destruct (check_cusum_full (plant poll) cur w1 Hwf1 Hfull1)
    as (w2 & a2 & Hrun2 & _).
  exists w1, a1, w2, a2.
  split; [exact Hrun1|]. split; [exact Hrun2|]. split; [exact Hwf1|].
  split; [exact Hfull1|]. split; [exact Htk1|]. split; [exact Hk1|].
  assert (Hwarm : any_m (tanks w) cusum_warming w1 = (w1, Ok false)).
  { apply cusum_warming_full. intros t Ht. apply windows_full_lookup; [done|].
    by rewrite Htk1. }
  unfold loop_pass. f_equal. unfold loop_body.
  assert (Hget : get w = (w, Ok w)) by done.
  rewrite (mbind_ok _ _ _ _ _ Hget), Hcur.
  destruct (Z.eqb_spec cur (last_time w)) as [|_]; [done|].
  rewrite (mbind_ok _ _ _ _ _ Hrun1), (mbind_ok _ _ _ _ _ Hwarm).
  by rewrite (mbind_ok _ _ _ _ _ Hrun2).
Qed.

(** ** The detecting turn feeds the CUSUM detector twice *)

(** (1) A turn of the loop on a new iteration id, with every window full,
    runs the CUSUM step of every tank twice on the same sample, at line 254
    and at line 263: the window ends with that sample twice. (2) A turn on an
    absent id, or on the id of the last completed turn, changes nothing.
    (3) With one tank, after the turns for iterations 0 to 143 the window
    holds the sample of iteration 143 twice; iteration 144 raises an alarm,
    its turn is abandoned without recording the id, and a second poll of
    iteration 144 is processed again. *)
Theorem loop_feeds_cusum_twice :
  (∀ w poll cur t st,
     master_time poll = Some cur → cur ≠ last_time w →
     wf_cusum w → windows_full w = true →
     t ∈ tanks w → cusum_state w !! t = Some st →
     let x := default 0 (plant poll !! t) in
     let upd := cusum_update (k_attack w) x cur t in
     cusum_state (loop_pass w poll) !! t = Some (upd (upd st).1).1 ∧
     buffer (upd (upd st).1).1 = tail (tail (buffer st) ++ [x]) ++ [x]) ∧
  (∀ w poll,
     master_time poll = None ∨ master_time poll = Some (last_time w) →
     loop_pass w poll = w) ∧
  (let w143 := monitor ["T1"] [] (warm_polls ++ [poll_T1 143 2]) in
   let w144 := loop_pass w143 (poll_T1 144 2) in
   let w144' := loop_pass w144 (poll_T1 144 2) in
   buffer <$> cusum_state w143 !! "T1" = Some (repeat 1 142 ++ [2; 2]) ∧
   last_time w143 = 143%Z ∧
   buffer <$> cusum_state w144 !! "T1" = Some (repeat 1 140 ++ [2; 2; 2; 2]) ∧
   last_time w144 = 143%Z ∧
   buffer <$> cusum_state w144' !! "T1" = Some (repeat 1 138 ++ [2; 2; 2; 2; 2; 2]) ∧
   last_time w144' = 143%Z).
Proof.
  split; [|split].
  - intros w poll cur t st Hcur Hnew Hwf Hfull Ht Hst x upd.
    destruct (loop_pass_detecting w poll cur Hcur Hnew Hwf Hfull)
      as (w1 & a1 & w2 & a2 & Hrun1 & Hrun2 & Hwf1 & Hfull1 & Htk1 & Hk1 & Hpass).
    destruct (check_cusum_step (plant poll) cur w t st Hwf Ht Hst)
      as (w1' & a1' & Hrun1' & _ & _ & Hst1 & _).
    rewrite Hrun1 in Hrun1'. inversion Hrun1'; subst w1' a1'.
    assert (Ht1 : t ∈ tanks w1) by (by rewrite Htk1).
    destruct (check_cusum_step (plant poll) cur w1 t _ Hwf1 Ht1 Hst1)
      as (w2' & a2' & Hrun2' & _ & _ & Hst2 & _).
    rewrite Hrun2 in Hrun2'. inversion Hrun2'; subst w2' a2'.
    rewrite Hk1 in Hst2. fold x upd in Hst2.
    assert (Hkeep : cusum_state (loop_pass w poll) = cusum_state w2).
    { rewrite Hpass.
      pose proof (keeps_after_cusum (λ w', cusum_state w' = cusum_state w2))
        as Hk.
      specialize (Hk ltac:(done) ltac:(done) ltac:(done) ltac:(done) ltac:(done)
                     ltac:(done) (plant poll) cur w a2 w2 eq_refl).
      destruct (after_cusum (plant poll) cur w a2 w2) as [w' [u|e]]; exact Hk. }
    rewrite Hkeep. split; [exact Hst2|].
    destruct (windows_full_lookup w t Hfull Ht) as (st0 & Hst0 & Hlen).
    rewrite Hst in Hst0. inversion Hst0; subst st0.
    destruct (cusum_update_detects (k_attack w) x cur t st Hlen) as [_ Hb1].
    destruct (cusum_update_persist (k_attack w) x cur t st Hlen) as (_ & _ & _ & Hlen1).
    destruct (cusum_update_detects (k_attack w) x cur t _ Hlen1) as [_ Hb2].
    unfold upd. by rewrite Hb2, Hb1.
  - apply loop_pass_idle.
  - vm_compute. done.
Qed.

(** ** C1: what happens to an alert *)

Lemma emit_alerts_raises a rest w :
  emit_alerts (a :: rest) w = (w, Raise (NameError "write_alert")).
Proof. reflexivity. Qed.

Lemma loop_pass_no_alert_line w poll l :
  l ∈ stdout (loop_pass w poll) → is_alert_line l = true → l ∈ stdout w.
Proof.
  intros Hl Hal.
  apply (keeps_loop_pass (λ w', ∀ l, l ∈ stdout w' → is_alert_line l = true → l ∈ stdout w))
    with (poll := poll) (w := w); try done.
  - intros l0 w0 Hno H0 l1 Hin Hl1. simpl in Hin.
    apply elem_of_app in Hin as [Hin|Hin]; [by apply H0|].
    apply list_elem_of_singleton in Hin. subst l1.
    destruct l0; try done. by destruct (Hno a).
  - intros state cur. apply keeps_bind; [apply keeps_get|]. intros w0.
    apply keeps_for_tanks. intros t.
    apply keeps_bind; [apply keeps_subscript|]. intros st.
    apply keeps_bind; [apply keeps_get|]. intros w1.
    destruct (cusum_update _ _ _ _ _) as [st' al].
    apply keeps_bind; [by apply keeps_modify|]. intros _. apply keeps_ret.
Qed.

(** C1 on the code. (1) The loop over a non-empty list of alerts stops at
    the first [write_alert], which raises [NameError]: no alert is written
    and none is printed. (2) No turn of the loop ever prints an alert line.
    (3) A detecting turn whose CUSUM step returns an alert ends in the
    [except] clause right there: the other two detectors do not run and the
    iteration id is not recorded. (4) With one tank, full windows and a level
    that falls to 0.0 on iteration 144: the CUSUM step returns nothing,
    [check_invariants] returns a TANK_EMPTY alert, and the turn ends with the
    error line, nothing printed for the alert, the drift detector not run
    and the iteration id not recorded. *)
Theorem alerts_never_reach_a_sink :
  (∀ a rest w, emit_alerts (a :: rest) w = (w, Raise (NameError "write_alert"))) ∧
  (∀ w poll l,
     l ∈ stdout (loop_pass w poll) → is_alert_line l = true → l ∈ stdout w) ∧
  (∀ w poll cur w1 a1 w2 a2,
     master_time poll = Some cur → cur ≠ last_time w →
     wf_cusum w → windows_full w = true →
     check_cusum (plant poll) cur w = (w1, Ok a1) →
     check_cusum (plant poll) cur w1 = (w2, Ok a2) →
     a2 ≠ [] →
     loop_pass w poll = print (ErrorLine (NameError "write_alert")) w2) ∧
  (let w143 := monitor ["T1"] [] (warm_polls ++ [poll_T1 143 1]) in
   let state := plant (poll_T1 144 0) in
   let w2 := (check_cusum state 144 (check_cusum state 144 w143).1).1 in
   let w3 := (check_invariants state 144 w2).1 in
   (check_cusum state 144 (check_cusum state 144 w143).1).2 = Ok [] ∧
   (check_invariants state 144 w2).2 = Ok [TANK_EMPTY 144 "T1"] ∧
   loop_pass w143 (poll_T1 144 0) = print (ErrorLine (NameError "write_alert")) w3 ∧
   existsb is_alert_line (stdout (loop_pass w143 (poll_T1 144 0))) = false ∧
   long_term_buffers w3 !! "T1" = long_term_buffers w143 !! "T1" ∧
   last_time (loop_pass w143 (poll_T1 144 0)) = 143%Z).
Proof.
  split; [|split; [|split]].
  - apply emit_alerts_raises.
  - apply loop_pass_no_alert_line.
  - intros w poll cur w1 a1 w2 a2 Hcur Hnew Hwf Hfull Hrun1 Hrun2 Ha2.
    destruct (loop_pass_detecting w poll cur Hcur Hnew Hwf Hfull)
      as (w1' & a1' & w2' & a2' & Hrun1' & Hrun2' & _ & _ & _ & _ & Hpass).
    rewrite Hrun1 in Hrun1'. inversion Hrun1'; subst w1' a1'.
    rewrite Hrun2 in Hrun2'. inversion Hrun2'; subst w2' a2'.
    rewrite Hpass. destruct a2 as [|a rest]; [done|].
    unfold after_cusum.
    by rewrite (mbind_raise _ _ _ _ _ (emit_alerts_raises a rest w2)).
  - vm_compute. done.
Qed.

(** ** C2: what a turn of the loop does with an iteration id *)

Lemma cusum_warming_some (l : list string) w :
  (∀ t, t ∈ l → is_Some (cusum_state w !! t)) →
  existsb (λ t, from_option (λ st, (length (buffer st) <? W)%nat) false
                  (cusum_state w !! t)) l = true →
  any_m l cusum_warming w = (w, Ok true).
Proof.
  induction l as [|t l IH]; intros Hall Hex; [done|].
  destruct (Hall t (list_elem_of_here _ _)) as [st Hst].
  assert (Hrun : cusum_warming t w = (w, Ok (length (buffer st) <? W)%nat)).
  { unfold cusum_warming. unfold_monad. by rewrite Hst. }
  cbn [any_m existsb] in *. rewrite (mbind_ok _ _ _ _ _ Hrun).
  rewrite Hst in Hex. cbn [from_option] in Hex.
  destruct (length (buffer st) <? W)%nat; [done|].
  apply IH; [|exact Hex]. intros u Hu. apply Hall. by right.
Qed.

Lemma warmup_counts_ok (l : list string) w :
  (∀ t, t ∈ l → is_Some (cusum_state w !! t)) →
  ∃ counts, warmup_counts l w = (w, Ok counts).
Proof.
  induction l as [|t l IH]; intros Hall; [by eexists|].
  destruct (Hall t (list_elem_of_here _ _)) as [st Hst].
  destruct IH as [counts Hc]; [intros u Hu; apply Hall; by right|].
  eexists. cbn [warmup_counts].
  assert (Hsub : subscript cusum_state t w = (w, Ok st)).
  { unfold subscript. by rewrite Hst. }
  rewrite (mbind_ok _ _ _ _ _ Hsub), (mbind_ok _ _ _ _ _ Hc). done.
Qed.

(** C2, as the code has it. (1) A turn on an absent iteration id, or on the
    id recorded by the last completed turn, changes nothing and prints
    nothing. (2) A turn on a new id during warm-up calls [check_cusum] once:
    every tank whose window is short receives the current sample exactly
    once; the invariant and drift detectors are not run, their per-tank
    state stays as it was; the turn prints the warm-up line only and records
    the id. *)
Theorem loop_turn_idle_or_warming :
  (∀ w poll,
     master_time poll = None ∨ master_time poll = Some (last_time w) →
     loop_pass w poll = w) ∧
  (∀ w poll cur,
     master_time poll = Some cur → cur ≠ last_time w →
     wf_cusum w → still_warming w = true →
     ∃ w1 a1 counts,
       check_cusum (plant poll) cur w = (w1, Ok a1) ∧
       loop_pass w poll = set_last_time cur (print (WarmupLine counts) w1) ∧
       attr_prev (loop_pass w poll) = attr_prev w ∧
       attr_badcnt (loop_pass w poll) = attr_badcnt w ∧
       long_term_buffers (loop_pass w poll) = long_term_buffers w ∧
       last_block_mean (loop_pass w poll) = last_block_mean w ∧
       stdout (loop_pass w poll) = stdout w ++ [WarmupLine counts] ∧
       last_time (loop_pass w poll) = cur ∧
       ∀ t st, t ∈ tanks w → cusum_state w !! t = Some st →
         (length (buffer st) < W)%nat →
         cusum_state (loop_pass w poll) !! t
           = Some (mkCusum (buffer st ++ [default 0 (plant poll !! t)])
                     (C_plus st) (C_minus st) (h_t st) (persist st))).
Proof.
  split; [apply loop_pass_idle|].
  intros w poll cur Hcur Hnew Hwf Hwarm.
  pose proof (check_cusum_wf (plant poll) cur w Hwf) as Hwf1.
  destruct (check_cusum_spec (plant poll) cur w Hwf) as (m' & Hrun & _ & Hin).
  rewrite Hrun in Hwf1. cbn [fst] in Hwf1.
  set (w1 := set_cusum_state (λ _, m') w) in *.
  assert (Hpres : ∀ t, t ∈ tanks w → is_Some (cusum_state w1 !! t)).
  { destruct Hwf1 as [_ Hall]. by apply Forall_forall. }
  assert (Hany : any_m (tanks w) cusum_warming w1 = (w1, Ok true)).
  { apply cusum_warming_some; [exact Hpres|].
    unfold still_warming in Hwarm. apply existsb_exists in Hwarm as (t & Ht & Hsh).
    apply existsb_exists. exists t. split; [exact Ht|].
    apply list_elem_of_In in Ht.
    destruct (cusum_state w !! t) as [st|] eqn:Est; [|done]. cbn in Hsh.
    apply Nat.ltb_lt in Hsh. simpl. rewrite (Hin t st Ht Est).
    rewrite cusum_update_warm by lia. cbn. apply Nat.ltb_lt.
    rewrite length_app. simpl. lia. }
  destruct (warmup_counts_ok (tanks w) w1 Hpres) as [counts Hcounts].
  assert (Hpass : loop_pass w poll = set_last_time cur (print (WarmupLine counts) w1)).
  { unfold loop_pass, loop_body.
    assert (Hget : get w = (w, Ok w)) by done.
    rewrite (mbind_ok _ _ _ _ _ Hget), Hcur.
    destruct (Z.eqb_spec cur (last_time w)) as [|_]; [done|].
    rewrite (mbind_ok _ _ _ _ _ Hrun), (mbind_ok _ _ _ _ _ Hany).
    by rewrite (mbind_ok _ _ _ _ _ Hcounts). }
  exists w1, (cusum_alerts w (plant poll) cur (tanks w)), counts.
  split; [exact Hrun|]. split; [exact Hpass|]. rewrite Hpass.
  do 6 (split; [done|]).
  intros t st Ht Hst Hlen. simpl. rewrite (Hin t st Ht Hst).
  by rewrite cusum_update_warm.
Qed.

(** ** The turn on a new iteration id *)

Lemma cusum_warming_any (l : list string) w :
  (∀ t, t ∈ l → is_Some (cusum_state w !! t)) →
  any_m l cusum_warming w
    = (w, Ok (existsb (λ t, from_option (λ st, (length (buffer st) <? W)%nat) false
                              (cusum_state w !! t)) l)).
Proof.
  induction l as [|t l IH]; intros Hall; [done|].
  destruct (Hall t (list_elem_of_here _ _)) as [st Hst].
  assert (Hrun : cusum_warming t w = (w, Ok (length (buffer st) <? W)%nat)).
  { unfold cusum_warming. unfold_monad. by rewrite Hst. }
  cbn [any_m existsb]. rewrite (mbind_ok _ _ _ _ _ Hrun), Hst.
  cbn [from_option]. destruct (length (buffer st) <? W)%nat; [done|].
  apply IH. intros u Hu. apply Hall. by right.
Qed.

Lemma summary_entries_ok (l : list string) w :
  (∀ t, t ∈ l → ∃ st h, cusum_state w !! t = Some st ∧ h_t st = Some h) →
  ∃ sm, summary_entries l w = (w, Ok sm).
Proof.
  induction l as [|t l IH]; intros Hall; [by eexists|].
  destruct (Hall t (list_elem_of_here _ _)) as (st & h & Hst & Hh).
  destruct IH as [sm Hsm]; [intros u Hu; apply Hall; by right|].
  eexists. cbn [summary_entries].
  assert (Hsub : subscript cusum_state t w = (w, Ok st)).
  { unfold subscript. by rewrite Hst. }
  rewrite (mbind_ok _ _ _ _ _ Hsub), Hh.
  assert (Hret : (mret h : M Q) w = (w, Ok h)) by done.
  rewrite (mbind_ok _ _ _ _ _ Hret), (mbind_ok _ _ _ _ _ Hsm). done.
Qed.

(** What stays as it was across a call of [check_drift]. *)
Lemma check_drift_frame state cur w :
  let w' := (check_drift state cur w).1 in
  tanks w' = tanks w ∧ pumps w' = pumps w ∧ k_attack w' = k_attack w ∧
  cusum_state w' = cusum_state w ∧ attr_prev w' = attr_prev w ∧
  attr_badcnt w' = attr_badcnt w ∧ last_time w' = last_time w ∧
  stdout w' = stdout w.
Proof.
  apply (keeps_check_drift
           (λ w', tanks w' = tanks w ∧ pumps w' = pumps w ∧ k_attack w' = k_attack w ∧
                  cusum_state w' = cusum_state w ∧ attr_prev w' = attr_prev w ∧
                  attr_badcnt w' = attr_badcnt w ∧ last_time w' = last_time w ∧
                  stdout w' = stdout w)); done.
Qed.

Lemma check_drift_wf state cur w :
  wf_drift w → wf_drift (check_drift state cur w).1.
Proof.
  intros Hwf. pose proof (check_drift_frame state cur w) as (Htk & _).
  destruct (check_drift_spec state cur w Hwf) as (w' & alerts & Hrun & Hres).
  rewrite Hrun in *. cbn [fst] in *. destruct Hwf as [Hnd Hall].
  rewrite Forall_forall in Hall.
  split; [by rewrite Htk|]. rewrite Htk. apply Forall_forall. intros t Ht.
  destruct (block_complete state w).
  - destruct Hres as [_ Hst]. destruct (Hst t Ht) as [-> ->]. eauto.
  - destruct Hres as (_ & Hm & Hst). rewrite (Hst t Ht), Hm.
    split; [eauto|]. by destruct (Hall t Ht).
Qed.

(** Each detector leaves the state well formed for the other two: distinct
    tank names, and for every tank a CUSUM entry, a drift buffer and a
    block-mean entry. *)
Lemma wf_after_check_cusum state cur w :
  wf_cusum w → wf_drift w →
  wf_cusum (check_cusum state cur w).1 ∧ wf_drift (check_cusum state cur w).1.
Proof.
  intros Hc Hd. split; [by apply check_cusum_wf|].
  destruct (check_cusum_spec state cur w Hc) as (m' & Hrun & _).
  rewrite Hrun. exact Hd.
Qed.

Lemma wf_after_check_invariants state cur w :
  wf_cusum w → wf_drift w →
  wf_cusum (check_invariants state cur w).1 ∧
  wf_drift (check_invariants state cur w).1.
Proof.
  intros Hc Hd.
  destruct (check_invariants_spec state cur w (proj1 Hc)) as (p' & b' & Hrun & _).
  rewrite Hrun. done.
Qed.

Lemma wf_after_check_drift state cur w :
  wf_cusum w → wf_drift w →
  wf_cusum (check_drift state cur w).1 ∧ wf_drift (check_drift state cur w).1.
Proof.
  intros Hc Hd. split; [|by apply check_drift_wf].
  pose proof (check_drift_frame state cur w) as (Htk & _ & _ & Hcs & _).
  unfold wf_cusum. rewrite Htk, Hcs. exact Hc.
Qed.


(** The ways a turn on a new iteration id can go, on well-formed state. *)
Lemma loop_pass_new_id w poll cur :
  master_time poll = Some cur → cur ≠ last_time w →
  wf_cusum w → wf_drift w →
  ∃ w1 a1,
    check_cusum (plant poll) cur w = (w1, Ok a1) ∧
    if some_window_short w1 then
      ∃ counts,
        warmup_counts (tanks w) w1 = (w1, Ok counts) ∧
        loop_pass w poll = set_last_time cur (print (WarmupLine counts) w1)
    else
      ∃ w2 a2 w3 a3 w4 a4,
        check_cusum (plant poll) cur w1 = (w2, Ok a2) ∧
        check_invariants (plant poll) cur w2 = (w3, Ok a3) ∧
        check_drift (plant poll) cur w3 = (w4, Ok a4) ∧
        if bool_decide (a2 = []) then
          if bool_decide (a3 = []) then
            if bool_decide (a4 = []) then
              ∃ sm, loop_pass w poll
                    = set_last_time cur (print (SummaryLine cur sm) w4)
            else loop_pass w poll = print (ErrorLine (NameError "write_alert")) w4
          else loop_pass w poll = print (ErrorLine (NameError "write_alert")) w3
        else loop_pass w poll = print (ErrorLine (NameError "write_alert")) w2.
Proof.
  intros Hcur Hnew Hc Hd.
  destruct (wf_after_check_cusum (plant poll) cur w Hc Hd) as [Hc1 Hd1].
  destruct (check_cusum_spec (plant poll) cur w Hc) as (m1 & Hrun1 & _).
  rewrite Hrun1 in Hc1, Hd1. cbn [fst] in Hc1, Hd1.
  set (w1 := set_cusum_state (λ _, m1) w) in *.
  eexists w1, _. split; [exact Hrun1|].
  assert (Hpres1 : ∀ t, t ∈ tanks w → is_Some (cusum_state w1 !! t)).
  { destruct Hc1 as [_ Hall]. by apply Forall_forall. }
  assert (Hany : any_m (tanks w) cusum_warming w1 = (w1, Ok (some_window_short w1))).
  { by rewrite (cusum_warming_any (tanks w) w1 Hpres1). }
  assert (Hget : get w = (w, Ok w)) by done.
  assert (Hbody : loop_body poll w
    = (x ← check_cusum (plant poll) cur;
       warming ← any_m (tanks w) cusum_warming;
       if warming : bool then
         counts ← warmup_counts (tanks w);
         modify (print (WarmupLine counts));;
         modify (set_last_time cur)
       else
         alerts ← check_cusum (plant poll) cur;
         after_cusum (plant poll) cur w alerts) w).
  { unfold loop_body. rewrite (mbind_ok _ _ _ _ _ Hget), Hcur.
    by destruct (Z.eqb_spec cur (last_time w)). }
  unfold loop_pass. rewrite Hbody.
  rewrite (mbind_ok _ _ _ _ _ Hrun1), (mbind_ok _ _ _ _ _ Hany).
  destruct (some_window_short w1) eqn:Eshort; cbv beta iota.
  - destruct (warmup_counts_ok (tanks w) w1 Hpres1) as [counts Hcounts].
    exists counts. split; [exact Hcounts|]. by rewrite (mbind_ok _ _ _ _ _ Hcounts).
  - destruct (wf_after_check_cusum (plant poll) cur w1 Hc1 Hd1) as [Hc2 Hd2].
    assert (Hfull1 : windows_full w1 = true).
    { unfold windows_full. apply forallb_forall. intros t Ht.
      destruct (cusum_state w1 !! t) as [st|] eqn:Est.
      - cbn. destruct (Nat.leb_spec W (length (buffer st))) as [|Hlt]; [done|].
        assert (Hex : some_window_short w1 = true); [|congruence].
        apply existsb_exists. exists t. split; [exact Ht|]. rewrite Est. cbn.
        by apply Nat.ltb_lt.
      - apply list_elem_of_In in Ht. destruct (Hpres1 t Ht) as [? ?]. congruence. }
    destruct (check_cusum_full (plant poll) cur w1 Hc1 Hfull1)
      as (w2 & a2 & Hrun2 & _ & Hfull2 & Htk2 & _ & _ & _ & Hupd).
    rewrite Hrun2 in Hc2, Hd2. cbn [fst] in Hc2, Hd2.
    destruct (wf_after_check_invariants (plant poll) cur w2 Hc2 Hd2) as [Hc3 Hd3].
    destruct (check_invariants_spec (plant poll) cur w2 (proj1 Hc2))
      as (p3 & b3 & Hrun3 & _).
    rewrite Hrun3 in Hc3, Hd3. cbn [fst] in Hc3, Hd3.
    set (w3 := set_attrs p3 b3 w2) in *.
    destruct (wf_after_check_drift (plant poll) cur w3 Hc3 Hd3) as [Hc4 Hd4].
    pose proof (check_drift_frame (plant poll) cur w3) as (Htk4 & _ & _ & Hcs4 & _).
    destruct (check_drift_spec (plant poll) cur w3 Hd3) as (w4 & a4 & Hrun4 & _).
    rewrite Hrun4 in Hc4, Hd4, Htk4, Hcs4. cbn [fst] in Hc4, Hd4, Htk4, Hcs4.
    eexists w2, a2, w3, _, w4, a4.
    split; [exact Hrun2|]. split; [exact Hrun3|]. split; [exact Hrun4|].
    rewrite (mbind_ok _ _ _ _ _ Hrun2). unfold after_cusum.
    destruct a2 as [|x2 r2]; cbn [bool_decide decide_rel].
    2:{ rewrite bool_decide_eq_false_2 by done.
        by rewrite (mbind_raise _ _ _ _ _ (emit_alerts_raises x2 r2 w2)). }
    rewrite bool_decide_eq_true_2 by done.
    assert (Hemit : ∀ w0, emit_alerts [] w0 = (w0, Ok tt)) by done.
    rewrite (mbind_ok _ _ _ _ _ (Hemit w2)), (mbind_ok _ _ _ _ _ Hrun3).
    destruct (invariant_alerts w2 (plant poll) cur (pump_on_of (plant poll) w2) (tanks w2))
      as [|x3 r3].
    2:{ rewrite bool_decide_eq_false_2 by done.
        by rewrite (mbind_raise _ _ _ _ _ (emit_alerts_raises x3 r3 w3)). }
    rewrite bool_decide_eq_true_2 by done.
    rewrite (mbind_ok _ _ _ _ _ (Hemit w3)), (mbind_ok _ _ _ _ _ Hrun4).
    destruct a4 as [|x4 r4].
    2:{ rewrite bool_decide_eq_false_2 by done.
        by rewrite (mbind_raise _ _ _ _ _ (emit_alerts_raises x4 r4 w4)). }
    rewrite bool_decide_eq_true_2 by done.
    rewrite (mbind_ok _ _ _ _ _ (Hemit w4)).
    destruct (summary_entries_ok (tanks w) w4) as [sm Hsm].
    { intros t Ht. rewrite Hcs4. simpl.
      assert (Ht1 : t ∈ tanks w1) by done.
      destruct (windows_full_lookup w1 t Hfull1 Ht1) as (st & Hst & Hlen).
      destruct (Hupd t st Ht1 Hst) as [Hst2 _].
      destruct (cusum_update_detects (k_attack w1) (default 0 (plant poll !! t)) cur t st Hlen)
        as [[h Hh] _].
      eexists _, h. split; [exact Hst2|exact Hh]. }
    exists sm. by rewrite (mbind_ok _ _ _ _ _ Hsm).
Qed.

(** ** The states and the lines of a run *)

Lemma keeps_check_cusum (I : World → Prop) state cur :
  (∀ f w, I w → I (set_cusum_state f w)) → keeps I (check_cusum state cur).
Proof.
  intros HI. apply keeps_bind; [apply keeps_get|]. intros w.
  apply keeps_for_tanks. intros t. unfold cusum_tank.
  apply keeps_bind; [apply keeps_subscript|]. intros st.
  apply keeps_bind; [apply keeps_get|]. intros w0.
  destruct (cusum_update _ _ _ _ _) as [st' al].
  apply keeps_bind; [apply keeps_modify, HI|]. intros _. apply keeps_ret.
Qed.

Lemma check_cusum_frame state cur w :
  let w' := (check_cusum state cur w).1 in
  tanks w' = tanks w ∧ pumps w' = pumps w ∧ k_attack w' = k_attack w ∧
  long_term_buffers w' = long_term_buffers w ∧
  last_block_mean w' = last_block_mean w ∧ attr_prev w' = attr_prev w ∧
  attr_badcnt w' = attr_badcnt w ∧ last_time w' = last_time w ∧
  stdout w' = stdout w.
Proof.
  apply (keeps_check_cusum
           (λ w', tanks w' = tanks w ∧ pumps w' = pumps w ∧ k_attack w' = k_attack w ∧
                  long_term_buffers w' = long_term_buffers w ∧
                  last_block_mean w' = last_block_mean w ∧ attr_prev w' = attr_prev w ∧
                  attr_badcnt w' = attr_badcnt w ∧ last_time w' = last_time w ∧
                  stdout w' = stdout w)); done.
Qed.

Lemma check_invariants_frame state cur w :
  let w' := (check_invariants state cur w).1 in
  tanks w' = tanks w ∧ pumps w' = pumps w ∧ k_attack w' = k_attack w ∧
  cusum_state w' = cusum_state w ∧ long_term_buffers w' = long_term_buffers w ∧
  last_block_mean w' = last_block_mean w ∧ last_time w' = last_time w ∧
  stdout w' = stdout w.
Proof.
  apply (keeps_check_invariants
           (λ w', tanks w' = tanks w ∧ pumps w' = pumps w ∧ k_attack w' = k_attack w ∧
                  cusum_state w' = cusum_state w ∧
                  long_term_buffers w' = long_term_buffers w ∧
                  last_block_mean w' = last_block_mean w ∧ last_time w' = last_time w ∧
                  stdout w' = stdout w)); done.
Qed.

(** What a turn leaves behind, on the state [monitor] seeds: the world the
    detectors reached, plus at most one line. *)
Lemma loop_pass_line w poll :
  wf_cusum w → wf_drift w →
  loop_pass w poll = w ∨
  ∃ cur w',
    master_time poll = Some cur ∧ cur ≠ last_time w ∧
    wf_cusum w' ∧ wf_drift w' ∧
    tanks w' = tanks w ∧ pumps w' = pumps w ∧ k_attack w' = k_attack w ∧
    last_time w' = last_time w ∧ stdout w' = stdout w ∧
    ((∃ counts, loop_pass w poll = set_last_time cur (print (WarmupLine counts) w')) ∨
     (∃ sm, loop_pass w poll = set_last_time cur (print (SummaryLine cur sm) w')) ∨
     loop_pass w poll = print (ErrorLine (NameError "write_alert")) w').
Proof.
  intros Hc Hd.
  destruct (master_time poll) as [cur|] eqn:Hcur;
    [|left; apply loop_pass_idle; by left].
  destruct (decide (cur = last_time w)) as [->|Hnew];
    [left; apply loop_pass_idle; by right|].
  right. exists cur.
  destruct (loop_pass_new_id w poll cur Hcur Hnew Hc Hd) as (w1 & a1 & Hrun1 & Hrest).
  pose proof (wf_after_check_cusum (plant poll) cur w Hc Hd) as [Hc1 Hd1].
  pose proof (check_cusum_frame (plant poll) cur w) as F1.
  rewrite Hrun1 in Hc1, Hd1, F1. cbn [fst] in Hc1, Hd1, F1. cbv zeta in F1.
  destruct F1 as (T1 & P1 & K1 & _ & _ & _ & _ & L1 & S1).
  destruct (some_window_short w1).
  { destruct Hrest as [counts [_ Hw]]. exists w1. repeat (split; [done|]).
    left. by exists counts. }
  destruct Hrest as (w2 & a2 & w3 & a3 & w4 & a4 & Hrun2 & Hrun3 & Hrun4 & Hrest).
  pose proof (wf_after_check_cusum (plant poll) cur w1 Hc1 Hd1) as [Hc2 Hd2].
  pose proof (check_cusum_frame (plant poll) cur w1) as F2.
  rewrite Hrun2 in Hc2, Hd2, F2. cbn [fst] in Hc2, Hd2, F2. cbv zeta in F2.
  destruct F2 as (T2 & P2 & K2 & _ & _ & _ & _ & L2 & S2).
  pose proof (wf_after_check_invariants (plant poll) cur w2 Hc2 Hd2) as [Hc3 Hd3].
  pose proof (check_invariants_frame (plant poll) cur w2) as F3.
  rewrite Hrun3 in Hc3, Hd3, F3. cbn [fst] in Hc3, Hd3, F3. cbv zeta in F3.
  destruct F3 as (T3 & P3 & K3 & _ & _ & _ & L3 & S3).
  pose proof (wf_after_check_drift (plant poll) cur w3 Hc3 Hd3) as [Hc4 Hd4].
  pose proof (check_drift_frame (plant poll) cur w3) as F4.
  rewrite Hrun4 in Hc4, Hd4, F4. cbn [fst] in Hc4, Hd4, F4. cbv zeta in F4.
  destruct F4 as (T4 & P4 & K4 & _ & _ & _ & L4 & S4).
  destruct (bool_decide (a2 = [])).
  2:{ exists w2. repeat (split; [congruence|]). by right; right. }
  destruct (bool_decide (a3 = [])).
  2:{ exists w3. repeat (split; [congruence|]). by right; right. }
  destruct (bool_decide (a4 = [])).
  2:{ exists w4. repeat (split; [congruence|]). by right; right. }
  destruct Hrest as [sm Hw]. exists w4. repeat (split; [congruence|]).
  right; left. by exists sm.
Qed.

Lemma loop_pass_wf w poll :
  wf_cusum w → wf_drift w →
  wf_cusum (loop_pass w poll) ∧ wf_drift (loop_pass w poll) ∧
  tanks (loop_pass w poll) = tanks w ∧ pumps (loop_pass w poll) = pumps w ∧
  k_attack (loop_pass w poll) = k_attack w.
Proof.
  intros Hc Hd.
  destruct (loop_pass_line w poll Hc Hd)
    as [->|(cur & w' & _ & _ & Hc' & Hd' & T & P & K & _ & _ & Hw)]; [done|].
  destruct Hw as [[counts ->]|[[sm ->]| ->]]; done.
Qed.

Lemma discover_wf_drift ts ps : NoDup ts → wf_drift (discover ts ps).
Proof.
  intros Hnd. split; [exact Hnd|]. apply Forall_forall. intros t Ht. cbn.
  rewrite !(seed_lookup _ ts t Ht). eauto.
Qed.

Lemma monitor_snoc ts ps polls poll :
  monitor ts ps (polls ++ [poll]) = loop_pass (monitor ts ps polls) poll.
Proof. unfold monitor. by rewrite foldl_app. Qed.

Lemma monitor_wf ts ps polls :
  NoDup ts →
  wf_cusum (monitor ts ps polls) ∧ wf_drift (monitor ts ps polls) ∧
  tanks (monitor ts ps polls) = ts ∧ pumps (monitor ts ps polls) = ps ∧
  k_attack (monitor ts ps polls) = k_attack (discover ts ps).
Proof.
  intros Hnd. induction polls as [|poll polls IH] using rev_ind.
  - split; [by apply discover_wf_cusum|]. split; [by apply discover_wf_drift|]. done.
  - rewrite monitor_snoc. destruct IH as (Hc & Hd & T & P & K).
    destruct (loop_pass_wf _ poll Hc Hd) as (Hc' & Hd' & T' & P' & K').
    split; [exact Hc'|]. split; [exact Hd'|].
    split; [congruence|]. split; congruence.
Qed.

(** X1. Every state the loop reaches from the seeded state keeps the tank
    and pump lists, the gain 1.35 of every tank, and an entry for every tank
    in [cusum_state], [long_term_buffers] and [last_block_mean]: the state is
    well formed for the three detectors. *)
Theorem monitor_state_well_formed (ts ps : list string) (polls : list Poll) :
  NoDup ts →
  let w := monitor ts ps polls in
  tanks w = ts ∧ pumps w = ps ∧
  (∀ t, t ∈ ts →
     k_attack w !! t = Some K_ATTACK_SEED ∧
     is_Some (cusum_state w !! t) ∧
     is_Some (long_term_buffers w !! t) ∧
     is_Some (last_block_mean w !! t)) ∧
  wf_cusum w ∧ wf_drift w.
Proof.
  intros Hnd w. destruct (monitor_wf ts ps polls Hnd) as (Hc & Hd & T & P & K).
  fold w in Hc, Hd, T, P, K.
  split; [exact T|]. split; [exact P|]. split; [|by split].
  intros t Ht.
  destruct Hc as [_ Hallc]. destruct Hd as [_ Halld].
  rewrite Forall_forall in Hallc. rewrite Forall_forall in Halld.
  rewrite T in Hallc, Halld.
  split; [rewrite K; cbn; by apply seed_lookup|].
  split; [by apply Hallc|]. by apply Halld.
Qed.


(** ** How a snapshot is read *)

Lemma for_tanks_ext_in (body body' : string → M (list Alert)) (l : list string) w :
  (∀ t w, t ∈ l → body t w = body' t w) → for_tanks l body w = for_tanks l body' w.
Proof.
  revert w. induction l as [|t l IH]; intros w H; [done|].
  cbn [for_tanks]. unfold mbind, M_bind.
  rewrite (H t w (list_elem_of_here _ _)).
  destruct (body' t w) as [w' [a|e]]; [|done].
  rewrite IH; [done|]. intros u w0 Hu. apply H. by right.
Qed.

Lemma mbind_ext_keeps {A B : Type} (P : World → Prop) (m1 m2 : M A) (f1 f2 : A → M B) w :
  P w → keeps P m1 → m1 w = m2 w → (∀ a w', P w' → f1 a w' = f2 a w') →
  (m1 ≫= f1) w = (m2 ≫= f2) w.
Proof.
  intros Hw Hk Hm Hf. unfold mbind, M_bind. rewrite <- Hm.
  specialize (Hk w Hw). destruct (m1 w) as [w' [a|e]]; [|done]. by apply Hf.
Qed.

Lemma mbind_ext_l {A B : Type} (m1 m2 : M A) (f : A → M B) w :
  m1 w = m2 w → (m1 ≫= f) w = (m2 ≫= f) w.
Proof. intros H. unfold mbind, M_bind. by rewrite H. Qed.

Lemma check_cusum_unfold s cur w :
  check_cusum s cur w = for_tanks (tanks w) (cusum_tank s cur) w.
Proof. reflexivity. Qed.

Lemma check_invariants_unfold s cur w :
  check_invariants s cur w
    = for_tanks (tanks w) (invariant_tank s cur (pump_on_of s w)) w.
Proof. reflexivity. Qed.

Lemma check_drift_unfold s cur w :
  check_drift s cur w
    = (for_tanks (tanks w) (drift_append s);;
       full ← all_m (tanks w) drift_full;
       if full : bool then
         alerts ← for_tanks (tanks w) (drift_block cur);
         for_tanks (tanks w) drift_clear;;
         mret alerts
       else mret []) w.
Proof. reflexivity. Qed.

Lemma check_cusum_ext s1 s2 cur w :
  same_readings (tanks w) s1 s2 → check_cusum s1 cur w = check_cusum s2 cur w.
Proof.
  intros H. rewrite !check_cusum_unfold.
  apply for_tanks_ext_in. intros t w0 Ht. unfold cusum_tank. by rewrite (H t Ht).
Qed.

Lemma pump_on_of_ext s1 s2 w :
  same_readings (pumps w) s1 s2 → pump_on_of s1 w = pump_on_of s2 w.
Proof.
  unfold pump_on_of. induction (pumps w) as [|p l IH]; intros H; [done|].
  cbn [existsb]. rewrite (H p (list_elem_of_here _ _)), IH; [done|].
  intros q Hq. apply H. by right.
Qed.

Lemma check_invariants_ext s1 s2 cur w :
  same_readings (tanks w ++ pumps w) s1 s2 →
  check_invariants s1 cur w = check_invariants s2 cur w.
Proof.
  intros H. rewrite !check_invariants_unfold.
  rewrite (pump_on_of_ext s1 s2 w)
    by (intros p Hp; apply H, elem_of_app; by right).
  apply for_tanks_ext_in. intros t w0 Ht. unfold invariant_tank.
  rewrite (H t); [done|]. apply elem_of_app. by left.
Qed.

Lemma check_drift_ext s1 s2 cur w :
  same_readings (tanks w) s1 s2 → check_drift s1 cur w = check_drift s2 cur w.
Proof.
  intros H. rewrite !check_drift_unfold. apply mbind_ext_l.
  apply for_tanks_ext_in. intros t w0 Ht. unfold drift_append. by rewrite (H t Ht).
Qed.

Lemma loop_body_ext w mt s1 s2 :
  same_readings (tanks w ++ pumps w) s1 s2 →
  loop_body (mkPoll mt s1) w = loop_body (mkPoll mt s2) w.
Proof.
  intros H. unfold loop_body. cbn [master_time plant].
  assert (Hget : get w = (w, Ok w)) by done.
  rewrite !(mbind_ok _ _ _ _ _ Hget).
  destruct mt as [cur|]; [|done]. destruct (cur =? last_time w)%Z; [done|].
  set (P := λ w', tanks w' = tanks w ∧ pumps w' = pumps w).
  assert (Ht : ∀ w', P w' → same_readings (tanks w') s1 s2).
  { intros w' [-> _] n Hn. apply H, elem_of_app. by left. }
  assert (Hall : ∀ w', P w' → same_readings (tanks w' ++ pumps w') s1 s2).
  { intros w' [-> ->]. exact H. }
  apply (mbind_ext_keeps P); [done|by apply keeps_check_cusum|by apply check_cusum_ext, Ht|].
  intros _ w1 Hw1.
  apply (mbind_ext_keeps P); [done|apply keeps_cusum_warming|done|].
  intros [|] w2 Hw2; [done|].
  apply (mbind_ext_keeps P); [done|by apply keeps_check_cusum|by apply check_cusum_ext, Ht|].
  intros a2 w3 Hw3.
  apply (mbind_ext_keeps P); [done|apply keeps_emit_alerts|done|].
  intros _ w4 Hw4.
  apply (mbind_ext_keeps P); [done|by apply keeps_check_invariants|
                              by apply check_invariants_ext, Hall|].
  intros a3 w5 Hw5.
  apply (mbind_ext_keeps P); [done|apply keeps_emit_alerts|done|].
  intros _ w6 Hw6.
  apply (mbind_ext_keeps P); [done|by apply keeps_check_drift|by apply check_drift_ext, Ht|].
  done.
Qed.

Lemma same_readings_same_run (w : World) (s1 s2 : gmap string Q) (cur : Z)
    (mt : option Z) :
  same_readings (tanks w ++ pumps w) s1 s2 →
  check_cusum s1 cur w = check_cusum s2 cur w ∧
  check_invariants s1 cur w = check_invariants s2 cur w ∧
  check_drift s1 cur w = check_drift s2 cur w ∧
  loop_pass w (mkPoll mt s1) = loop_pass w (mkPoll mt s2).
Proof.
  intros H.
  assert (Ht : same_readings (tanks w) s1 s2)
    by (intros n Hn; apply H, elem_of_app; by left).
  split; [by apply check_cusum_ext|]. split; [by apply check_invariants_ext|].
  split; [by apply check_drift_ext|].
  unfold loop_pass. by rewrite (loop_body_ext w mt s1 s2 H).
Qed.

(** X3. The detectors and the loop turn read a snapshot through
    [state.get(name, 0)] on the tank and pump names only: two snapshots that
    agree there give the same result and the same state. So a name missing
    from the snapshot is handled by the whole turn as if it were reported as
    0.0, and an entry under any other name is ignored. *)
Theorem snapshot_read_by_entity_name (w : World) (mt : option Z) :
  (∀ s1 s2 cur,
     same_readings (tanks w ++ pumps w) s1 s2 →
     check_cusum s1 cur w = check_cusum s2 cur w ∧
     check_invariants s1 cur w = check_invariants s2 cur w ∧
     check_drift s1 cur w = check_drift s2 cur w ∧
     loop_pass w (mkPoll mt s1) = loop_pass w (mkPoll mt s2)) ∧
  (∀ state n,
     state !! n = None →
     loop_pass w (mkPoll mt state) = loop_pass w (mkPoll mt (<[n := 0]> state))) ∧
  (∀ state n v,
     n ∉ tanks w ++ pumps w →
     loop_pass w (mkPoll mt (<[n := v]> state)) = loop_pass w (mkPoll mt state)).
Proof.
  split; [|split].
  - intros s1 s2 cur H. by apply same_readings_same_run.
  - intros state n Hn. apply (same_readings_same_run w _ _ 0%Z mt).
    intros u _. symmetry. by apply default_insert_absent.
  - intros state n v Hn. apply (same_readings_same_run w _ _ 0%Z mt).
    intros u Hu. rewrite lookup_insert_ne; [done|]. intros ->. done.
Qed.

(** ** Runs of the CUSUM detector *)

Lemma compute_threshold_bounds k buf x t :
  MIN_H <= (compute_threshold_and_residual k buf x t).1.2 ∧
  (compute_threshold_and_residual k buf x t).1.2 <= MAX_H ∧
  k_a_max <= (compute_threshold_and_residual k buf x t).2 ∧
  (compute_threshold_and_residual k buf x t).1.1 = x - np_median buf.
Proof.
  unfold compute_threshold_and_residual.
  change (residual_mode =? "median")%string with true.
  change (threshold_mode =? "mad")%string with true.
  cbv beta iota zeta. cbn [fst snd].
  split; [|split; [|split; [|done]]].
  - unfold pymin. destruct (Qltb _ _) eqn:E; [done|]. apply pymax_upper.
  - apply pymin_upper_r.
  - apply pymax_lower.
Qed.

Lemma cusum_update_buffer k x cur t st :
  buffer (cusum_update k x cur t st).1 = deque_append x (buffer st).
Proof.
  unfold cusum_update. destruct (length (buffer st) <? W)%nat; [done|].
  by destruct (compute_threshold_and_residual _ _ _ _) as [[r h] ka].
Qed.

Lemma deque_append_length x d :
  (length d ≤ W)%nat → (length (deque_append x d) ≤ W)%nat.
Proof.
  intros H. unfold deque_append. pose proof W_pos.
  destruct (Nat.leb_spec W (length d)); rewrite length_app; cbn [length].
  - destruct d; cbn [tail length] in *; lia.
  - lia.
Qed.

Lemma deque_append_drop x d :
  (length d ≤ W)%nat →
  deque_append x d = drop (length d + 1 - W) (d ++ [x]).
Proof.
  intros H. unfold deque_append. pose proof W_pos.
  destruct (Nat.leb_spec W (length d)).
  - replace (length d + 1 - W)%nat with 1%nat by lia.
    destruct d as [|y d]; [cbn [length] in *; lia|done].
  - by replace (length d + 1 - W)%nat with 0%nat by lia.
Qed.

Lemma cusum_update_bounded k x cur t st :
  cusum_bounded st → cusum_bounded (cusum_update k x cur t st).1.
Proof.
  intros (Hlen & Hh & Hp & Hiff). unfold cusum_bounded.
  rewrite cusum_update_buffer. split; [by apply deque_append_length|].
  unfold cusum_update. destruct (length (buffer st) <? W)%nat; [done|].
  pose proof (compute_threshold_bounds k (buffer st) x t) as (B1 & B2 & _).
  destruct (compute_threshold_and_residual _ _ _ _) as [[r h] ka].
  cbn [fst snd h_t persist] in *.
  split; [intros h' [= <-]; done|]. split; [|split; eauto].
  intros p [= <-]. destruct (_ || _); [apply Nat.le_min_r|lia].
Qed.

Lemma keeps_check_cusum_bounded state cur :
  keeps cusum_state_bounded (check_cusum state cur).
Proof.
  apply keeps_bind; [apply keeps_get|]. intros w0.
  apply keeps_for_tanks. intros t w H.
  unfold cusum_tank. unfold_monad.
  destruct (cusum_state w !! t) as [st|] eqn:E; [|exact H].
  pose proof (cusum_update_bounded (k_attack w) (default 0 (state !! t)) cur t st
                (H t st E)) as Hn.
  destruct (cusum_update (k_attack w) (default 0 (state !! t)) cur t st) as [st' al].
  cbn [fst snd] in *. intros u su Hu. cbn [cusum_state set_cusum_state] in Hu.
  destruct (decide (t = u)) as [->|Hne].
  - rewrite lookup_insert_eq in Hu. by inversion Hu; subst.
  - rewrite lookup_insert_ne in Hu by done. by apply (H u).
Qed.

Lemma discover_cusum_bounded ts ps : cusum_state_bounded (discover ts ps).
Proof.
  intros t st H. apply discover_cusum_lookup in H. subst.
  split; [cbn; lia|]. split; [done|]. split; [done|].
  split; intros [? [=]].
Qed.

(** X4. In every state that calls of [check_cusum], or turns of the loop,
    reach from the seeded state, a window never holds more than [W] samples,
    a stored threshold lies between [MIN_H] and [MAX_H], a stored
    persistence counter is at most [PERSISTENCE_THRESHOLD], and the two keys
    are present together. *)
Theorem cusum_state_stays_in_range (ts ps : list string) :
  (∀ inputs, cusum_state_bounded (cusum_calls inputs (discover ts ps))) ∧
  (∀ polls, cusum_state_bounded (monitor ts ps polls)).
Proof.
  pose proof (discover_cusum_bounded ts ps) as H0. split.
  - intros inputs. unfold cusum_calls.
    generalize dependent (discover ts ps).
    induction inputs as [|i inputs IH]; intros w Hw; simpl; [exact Hw|].
    apply IH. by apply keeps_check_cusum_bounded.
  - intros polls. unfold monitor.
    generalize dependent (discover ts ps).
    induction polls as [|p polls IH]; intros w Hw; simpl; [exact Hw|].
    apply IH.
    apply (keeps_loop_pass cusum_state_bounded); try done.
    apply keeps_check_cusum_bounded.
Qed.

Lemma cusum_calls_snoc inputs i w :
  cusum_calls (inputs ++ [i]) w
    = (check_cusum i.1 i.2 (cusum_calls inputs w)).1.
Proof. unfold cusum_calls. by rewrite foldl_app. Qed.

Lemma cusum_calls_wf inputs w :
  wf_cusum w → wf_cusum (cusum_calls inputs w) ∧ tanks (cusum_calls inputs w) = tanks w.
Proof.
  revert w. induction inputs as [|i inputs IH]; intros w Hw; [done|].
  rewrite cusum_calls_cons.
  destruct (IH _ (check_cusum_wf i.1 i.2 w Hw)) as [H1 H2]. split; [done|].
  rewrite H2. apply (check_cusum_frame i.1 i.2 w).
Qed.

Lemma cusum_update_keys k x cur t st :
  (is_Some (h_t (cusum_update k x cur t st).1)
   ↔ is_Some (h_t st) ∨ (W ≤ length (buffer st))%nat) ∧
  (is_Some (persist (cusum_update k x cur t st).1)
   ↔ is_Some (persist st) ∨ (W ≤ length (buffer st))%nat).
Proof.
  unfold cusum_update. destruct (Nat.ltb_spec (length (buffer st)) W).
  - cbn. split; (split; [by left|intros [?|?]; [done|lia]]).
  - destruct (compute_threshold_and_residual _ _ _ _) as [[r h] ka]. cbn.
    split; (split; [by right|eauto]).
Qed.

(** X5. After any number of calls of [check_cusum] from the seeded state, the
    window of a tank holds its last [W] samples, in order (all of them while
    there are fewer), and the keys ["h_t"] and ["persist"] exist exactly
    when more than [W] calls were made. *)
Theorem cusum_window_holds_last_samples (ts ps : list string)
    (inputs : list (gmap string Q * Z)) (t : string) :
  NoDup ts → t ∈ ts →
  ∃ st,
    cusum_state (cusum_calls inputs (discover ts ps)) !! t = Some st ∧
    buffer st = drop (length inputs - W) (samples t inputs) ∧
    length (buffer st) = Nat.min (length inputs) W ∧
    (is_Some (h_t st) ↔ (W < length inputs)%nat) ∧
    (is_Some (persist st) ↔ (W < length inputs)%nat).
Proof.
  intros Hnd Ht.
  assert (Hlen : ∀ (l : list Q) n, length l = n →
            length (drop (n - W) l) = Nat.min n W).
  { intros l n <-. rewrite length_drop. lia. }
  induction inputs as [|i inputs IH] using rev_ind.
  - exists (mkCusum [] 0 0 None None). cbn [cusum_calls foldl discover cusum_state].
    split; [by apply seed_lookup|]. cbn.
    split; [done|]. split; [done|]. split; split; try lia; intros [? [=]].
  - destruct IH as (st & Hst & Hbuf & Hl & Hh & Hp).
    destruct (cusum_calls_wf inputs (discover ts ps) (discover_wf_cusum ts ps Hnd))
      as [Hwf Htk].
    assert (Ht' : t ∈ tanks (cusum_calls inputs (discover ts ps))) by by rewrite Htk.
    destruct (check_cusum_step i.1 i.2 _ t st Hwf Ht' Hst)
      as (w' & alerts & Hrun & _ & _ & Hst' & _).
    rewrite cusum_calls_snoc, Hrun. cbn [fst].
    eexists. split; [exact Hst'|].
    set (k := k_attack _). set (x := default 0 (i.1 !! t)).
    pose proof (cusum_update_keys k x i.2 t st) as [Kh Kp].
    assert (Hs : samples t (inputs ++ [i]) = samples t inputs ++ [x])
      by (unfold samples; by rewrite map_app).
    assert (Hsl : length (samples t inputs) = length inputs)
      by (unfold samples; by rewrite length_map).
    rewrite cusum_update_buffer, Hs, length_app. cbn [length].
    assert (Hb : deque_append x (buffer st)
                 = drop (length inputs + 1 - W) (samples t inputs ++ [x])).
    { rewrite deque_append_drop by lia. rewrite Hl, Hbuf.
      destruct (Nat.le_gt_cases W (length inputs)) as [Hge|Hlt].
      - rewrite Nat.min_r by lia.
        replace (W + 1 - W)%nat with 1%nat by lia.
        replace (length inputs + 1 - W)%nat with ((length inputs - W) + 1)%nat by lia.
        rewrite <- drop_drop. f_equal. rewrite drop_app_le by lia. done.
      - rewrite Nat.min_l by lia.
        replace (length inputs - W)%nat with 0%nat by lia.
        by replace (length inputs + 1 - W)%nat with 0%nat by lia. }
    split; [exact Hb|]. split; [|split].
    + rewrite Hb, length_drop, length_app, Hsl. cbn [length]. lia.
    + rewrite Kh, Hh, Hl. lia.
    + rewrite Kp, Hp, Hl. lia.
Qed.




(** ** Runs of the invariant checker *)



Lemma invariant_update_counter pump_on level cur t prev bad :
  (∀ b, bad = Some b → (b < INV_PERSIST)%nat) →
  (∀ b, (invariant_update pump_on level cur t prev bad).1 = Some b →
        (b < INV_PERSIST)%nat) ∧
  Forall (λ b, b = INV_PERSIST)
    (violation_persists (invariant_update pump_on level cur t prev bad).2).
Proof.
  intros Hold. unfold invariant_update. destruct prev as [pv|]; cbn [fst snd].
  2:{ split; [exact Hold|constructor]. }
  match goal with |- context [if ?v then (default 0%nat bad + 1)%nat else 0%nat] =>
    set (b := if v then (default 0%nat bad + 1)%nat else 0%nat) end.
  assert (Hb : (b ≤ INV_PERSIST)%nat).
  { subst b. destruct (_ || _); [|lia].
    destruct bad as [o|]; cbn; [specialize (Hold o eq_refl)|]; unfold INV_PERSIST in *; lia. }
  clearbody b. unfold violation_persists. rewrite flat_map_app.
  destruct (Nat.leb_spec INV_PERSIST b) as [Hge|Hlt].
  - split; [intros ? [= <-]; unfold INV_PERSIST; lia|].
    apply Forall_app. split.
    + cbn. constructor; [lia|constructor].
    + destruct (Qeq_bool level 0); cbn; constructor.
  - split; [by intros ? [= <-]|].
    apply Forall_app. split; [constructor|].
    destruct (Qeq_bool level 0); cbn; constructor.
Qed.

Lemma keeps_invariants_counters state cur :
  keeps counters_below_bound (check_invariants state cur).
Proof.
  apply keeps_bind; [apply keeps_get|]. intros w0.
  apply keeps_for_tanks. intros t w H.
  rewrite invariant_tank_run. cbn [fst]. intros u b.
  cbn [attr_badcnt set_attrs set_attr_badcnt set_attr_prev].
  pose proof (invariant_update_counter
                (existsb (λ p, truthy (default 0 (state !! p))) (pumps w0))
                (default 0 (state !! t)) cur t (attr_prev w !! t) (attr_badcnt w !! t)
                (H t)) as [Hnew _].
  destruct (invariant_update _ _ _ _ _ _) as [[nb|] al]; cbn [fst write_badcnt] in *.
  - destruct (decide (t = u)) as [->|Hne].
    + rewrite lookup_insert_eq. intros [= <-]. by apply Hnew.
    + rewrite lookup_insert_ne by done. apply H.
  - apply H.
Qed.

Lemma keeps_loop_body_detectors (I : World → Prop) poll :
  (∀ t w, I w → I (set_last_time t w)) →
  (∀ l w, I w → I (print l w)) →
  (∀ state cur, keeps I (check_cusum state cur)) →
  (∀ state cur, keeps I (check_invariants state cur)) →
  (∀ state cur, keeps I (check_drift state cur)) →
  keeps I (loop_body poll).
Proof.
  intros Ht Hp Hc Hi Hd.
  apply keeps_bind; [apply keeps_get|]. intros w.
  destruct (master_time poll) as [cur|]; [|apply keeps_ret].
  case_match; [apply keeps_ret|].
  apply keeps_bind; [apply Hc|]. intros _.
  apply keeps_bind; [apply keeps_cusum_warming|]. intros [|].
  - apply keeps_bind; [apply keeps_warmup_counts|]. intros counts.
    apply keeps_bind; [apply keeps_modify; intros w0; by apply Hp|].
    intros _. apply keeps_modify, Ht.
  - apply keeps_bind; [apply Hc|]. intros a1.
    apply keeps_bind; [apply keeps_emit_alerts|]. intros _.
    apply keeps_bind; [apply Hi|]. intros a2.
    apply keeps_bind; [apply keeps_emit_alerts|]. intros _.
    apply keeps_bind; [apply Hd|]. intros a3.
    apply keeps_bind; [apply keeps_emit_alerts|]. intros _.
    apply keeps_bind; [apply keeps_summary_entries|]. intros sm.
    apply keeps_bind; [apply keeps_modify; intros w0; by apply Hp|].
    intros _. apply keeps_modify, Ht.
Qed.

Lemma keeps_loop_pass_detectors (I : World → Prop) poll w :
  (∀ t w, I w → I (set_last_time t w)) →
  (∀ l w, I w → I (print l w)) →
  (∀ state cur, keeps I (check_cusum state cur)) →
  (∀ state cur, keeps I (check_invariants state cur)) →
  (∀ state cur, keeps I (check_drift state cur)) →
  I w → I (loop_pass w poll).
Proof.
  intros Ht Hp Hc Hi Hd Hw. unfold loop_pass.
  pose proof (keeps_loop_body_detectors I poll Ht Hp Hc Hi Hd w Hw) as H.
  destruct (loop_body poll w) as [w' [a|e]]; cbn [fst] in H; [exact H|].
  by apply Hp.
Qed.

Lemma invariant_calls_snoc inputs i w :
  invariant_calls (inputs ++ [i]) w
    = (check_invariants i.1 i.2 (invariant_calls inputs w)).1.
Proof. unfold invariant_calls. by rewrite foldl_app. Qed.

Lemma invariant_trace_snoc inputs i w :
  invariant_trace (inputs ++ [i]) w
    = invariant_trace inputs w
      ++ [(check_invariants i.1 i.2 (invariant_calls inputs w)).2].
Proof.
  revert w. induction inputs as [|j inputs IH]; intros w; [done|].
  cbn [app invariant_trace]. by rewrite IH.
Qed.

Lemma invariant_calls_topology inputs w :
  tanks (invariant_calls inputs w) = tanks w.
Proof.
  induction inputs as [|i inputs IH] using rev_ind; [done|].
  rewrite invariant_calls_snoc, <- IH. apply (check_invariants_frame i.1 i.2 _).
Qed.

Lemma invariant_calls_counters inputs w :
  counters_below_bound w → counters_below_bound (invariant_calls inputs w).
Proof.
  intros Hw. induction inputs as [|i inputs IH] using rev_ind; [done|].
  rewrite invariant_calls_snoc. by apply keeps_invariants_counters.
Qed.

Lemma check_invariants_persists state cur w :
  NoDup (tanks w) → counters_below_bound w →
  ∃ alerts, (check_invariants state cur w).2 = Ok alerts ∧
            Forall (λ b, b = INV_PERSIST) (violation_persists alerts).
Proof.
  intros Hnd Hw. destruct (check_invariants_spec state cur w Hnd) as (p' & b' & -> & _).
  eexists. split; [done|]. unfold invariant_alerts, violation_persists.
  clear Hnd. induction (tanks w) as [|t l IH]; [constructor|].
  cbn [flat_map]. rewrite flat_map_app. apply Forall_app. split; [|exact IH].
  apply invariant_update_counter, Hw.
Qed.

(** X9. From the seeded state, after any calls of [check_invariants] and
    after any turns of the loop, every stored violation counter is below
    [INV_PERSIST]; and every INVARIANT_VIOLATION a sequence of calls returns
    carries the persistence [INV_PERSIST] exactly. *)
Theorem invariant_counter_from_fresh_start (ts ps : list string) :
  NoDup ts →
  (∀ inputs, counters_below_bound (invariant_calls inputs (discover ts ps))) ∧
  (∀ polls, counters_below_bound (monitor ts ps polls)) ∧
  (∀ inputs k r, invariant_trace inputs (discover ts ps) !! k = Some r →
     ∃ alerts, r = Ok alerts ∧
               Forall (λ b, b = INV_PERSIST) (violation_persists alerts)).
Proof.
  intros Hnd.
  assert (H0 : counters_below_bound (discover ts ps)).
  { intros t b H. cbn in H. by rewrite lookup_empty in H. }
  split; [|split].
  - intros inputs. by apply invariant_calls_counters.
  - intros polls. unfold monitor. generalize dependent (discover ts ps).
    induction polls as [|p polls IH]; intros w Hw; cbn [foldl]; [exact Hw|].
    apply IH. apply keeps_loop_pass_detectors; try done.
    + intros state cur. by apply keeps_check_cusum.
    + apply keeps_invariants_counters.
    + intros state cur. by apply keeps_check_drift.
  - intros inputs. induction inputs as [|i inputs IH] using rev_ind; [done|].
    intros k r. rewrite invariant_trace_snoc. intros Hk.
    apply lookup_app_Some in Hk as [Hk|[_ Hk]]; [by apply (IH k)|].
    apply list_lookup_singleton_Some in Hk as [_ <-].
    apply check_invariants_persists.
    + by rewrite invariant_calls_topology.
    + by apply invariant_calls_counters.
Qed.


(** X11. Each detector writes its own part of the state only, whether it
    returns or raises: [check_cusum] leaves everything but [cusum_state] as
    it was, [check_invariants] everything but its [prev_]/[badcnt_]
    attributes, [check_drift] everything but [long_term_buffers] and
    [last_block_mean]; none of them prints or moves [last_time]. *)
Theorem detectors_write_their_own_state (w : World) (state : gmap string Q) (cur : Z) :
  (let w' := (check_cusum state cur w).1 in
   tanks w' = tanks w ∧ pumps w' = pumps w ∧ k_attack w' = k_attack w ∧
   long_term_buffers w' = long_term_buffers w ∧
   last_block_mean w' = last_block_mean w ∧ attr_prev w' = attr_prev w ∧
   attr_badcnt w' = attr_badcnt w ∧ last_time w' = last_time w ∧
   stdout w' = stdout w) ∧
  (let w' := (check_invariants state cur w).1 in
   tanks w' = tanks w ∧ pumps w' = pumps w ∧ k_attack w' = k_attack w ∧
   cusum_state w' = cusum_state w ∧ long_term_buffers w' = long_term_buffers w ∧
   last_block_mean w' = last_block_mean w ∧ last_time w' = last_time w ∧
   stdout w' = stdout w) ∧
  (let w' := (check_drift state cur w).1 in
   tanks w' = tanks w ∧ pumps w' = pumps w ∧ k_attack w' = k_attack w ∧
   cusum_state w' = cusum_state w ∧ attr_prev w' = attr_prev w ∧
   attr_badcnt w' = attr_badcnt w ∧ last_time w' = last_time w ∧
   stdout w' = stdout w).
Proof.
  split; [apply check_cusum_frame|].
  split; [apply check_invariants_frame|apply check_drift_frame].
Qed.

(** ** Blocks of the drift detector *)







(** ** A plant that holds its levels *)

Lemma Qsum_steady c (l : list Q) :
  Forall (λ x, x == c) l → Qsum l == c * inject_Z (Z.of_nat (length l)).
Proof.
  induction 1 as [|x l Hx _ IH]; [change (0 == c * 0); lra|].
  cbn [Qsum foldr length]. fold (Qsum l). rewrite IH, Hx, Nat2Z.inj_succ.
  unfold Z.succ. rewrite inject_Z_plus. change (inject_Z 1) with 1. lra.
Qed.

Lemma np_mean_steady c (l : list Q) :
  Forall (λ x, x == c) l → l ≠ [] → np_mean l == c.
Proof.
  intros H Hne. unfold np_mean. rewrite (Qsum_steady c l H).
  assert (Hpos : 0 < inject_Z (Z.of_nat (length l))).
  { destruct l; [done|]. cbn [length]. rewrite Nat2Z.inj_succ.
    change 0 with (inject_Z 0). rewrite <- Zlt_Qlt. lia. }
  field. intros Hz. rewrite Hz in Hpos. by apply Qlt_irrefl in Hpos.
Qed.

Lemma nth_steady c (l : list Q) i :
  Forall (λ x, x == c) l → (i < length l)%nat → nth i l 0 == c.
Proof. intros H Hi. by apply (proj1 (Forall_nth _ 0 l) H). Qed.

Lemma np_median_steady c (l : list Q) :
  Forall (λ x, x == c) l → l ≠ [] → np_median l == c.
Proof.
  intros H Hne. unfold np_median.
  destruct (Qsort_sorted l) as [_ Hperm].
  assert (Hs : Forall (λ x, x == c) (Qsort l)) by by rewrite Hperm.
  assert (Hlen : (0 < length (Qsort l))%nat).
  { rewrite Hperm. destruct l; [done|cbn; lia]. }
  cbv zeta. set (n := length (Qsort l)) in *.
  assert (Hhalf : (n / 2 < n)%nat) by (apply Nat.div_lt; lia).
  destruct (Nat.even n).
  - rewrite !(nth_steady c) by (done || lia). field.
  - by apply nth_steady.
Qed.

Lemma deque_append_steady c x (d : list Q) :
  Forall (λ y, y == c) d → x == c →
  Forall (λ y, y == c) (deque_append x d) ∧ deque_append x d ≠ [].
Proof.
  intros Hd Hx. unfold deque_append.
  destruct (W <=? length d)%nat; (split; [|by destruct (tail d), d]).
  - apply Forall_app_2; [by apply Forall_tail|by constructor].
  - apply Forall_app_2; [done|by constructor].
Qed.

Lemma cusum_update_steady k x cur t st c :
  steady_entry c st → x == c →
  (cusum_update k x cur t st).2 = [] ∧ steady_entry c (cusum_update k x cur t st).1.
Proof.
  intros (Hbuf & Hp & Hm & Hper) Hx. unfold steady_entry.
  rewrite cusum_update_buffer. unfold cusum_update.
  destruct (Nat.ltb_spec (length (buffer st)) W) as [|Hfull].
  { cbn [fst snd C_plus C_minus persist].
    split; [done|]. split; [by apply deque_append_steady|done]. }
  pose proof (compute_threshold_bounds k (buffer st) x t) as (Bh & _ & Bk & Br).
  destruct (compute_threshold_and_residual _ _ _ _) as [[r h] ka].
  cbv zeta. cbn [fst snd C_plus C_minus persist] in *.
  assert (Hne : buffer st ≠ []).
  { pose proof W_pos. destruct (buffer st); [cbn in Hfull; lia|done]. }
  pose proof (np_median_steady c (buffer st) Hbuf Hne) as Hmed.
  assert (Hr : r == 0) by (rewrite Br, Hmed, Hx; lra).
  unfold MIN_H, k_a_max, DECAY in *. rewrite Hp, Hm.
  assert (Hcp : pymax 0 ((99 # 100) * 0 + r - ka) = 0).
  { unfold pymax. replace (Qltb 0 _) with false; [done|].
    symmetry. apply Qltb_ge. lra. }
  assert (Hcm : pymax 0 ((99 # 100) * 0 - r - ka) = 0).
  { unfold pymax. replace (Qltb 0 _) with false; [done|].
    symmetry. apply Qltb_ge. lra. }
  rewrite Hcp, Hcm.
  assert (Hab : Qltb h 0 = false) by (apply Qltb_ge; lra).
  rewrite Hab. cbn [orb]. change (PERSISTENCE_THRESHOLD <=? 0)%nat with false.
  split; [done|]. split; [by apply deque_append_steady|done].
Qed.

Lemma steady_wf level w :
  NoDup (tanks w) → steady_state level w → wf_cusum w ∧ wf_drift w.
Proof.
  intros Hnd Hs. split; (split; [done|]); apply Forall_forall; intros t Ht;
    destruct (Hs t Ht) as ((st & Hst & _) & _ & (buf & Hbuf & _) & (pm & Hpm & _)).
  - by rewrite Hst.
  - by rewrite Hbuf, Hpm.
Qed.

Lemma check_cusum_steady level state cur w :
  NoDup (tanks w) → steady_state level w → steady_reading level (tanks w) state →
  ∃ w', check_cusum state cur w = (w', Ok []) ∧ steady_state level w'.
Proof.
  intros Hnd Hs Hread. destruct (steady_wf level w Hnd Hs) as [Hwf _].
  destruct (check_cusum_spec state cur w Hwf) as (m' & Hrun & _ & Hin).
  assert (Hal : cusum_alerts w state cur (tanks w) = []).
  { apply flat_map_nil. intros t Ht.
    destruct (Hs t Ht) as ((st & Hst & Hst') & _). rewrite Hst.
    by apply (cusum_update_steady _ _ _ _ _ (level t)); [|apply Hread]. }
  rewrite Hal in Hrun. eexists. split; [exact Hrun|].
  intros t Ht. cbn [tanks set_cusum_state] in Ht.
  destruct (Hs t Ht) as ((st & Hst & Hst') & Hrest).
  split; [|exact Hrest]. eexists. split; [exact (Hin t st Ht Hst)|].
  by apply cusum_update_steady; [|apply Hread].
Qed.

Lemma invariant_update_steady pump_on level cur t prev bad c :
  level == c → ¬ c == 0 → (∀ pv, prev = Some pv → pv == c) →
  (invariant_update pump_on level cur t prev bad).2 = [].
Proof.
  intros Hl Hc Hprev. unfold invariant_update. destruct prev as [pv|]; [|done].
  specialize (Hprev pv eq_refl). cbn [snd].
  assert (H1 : Qltb (level - pv) (- DEAD_BAND) = false)
    by (apply Qltb_ge; unfold DEAD_BAND; lra).
  assert (H2 : Qltb DEAD_BAND (level - pv) = false)
    by (apply Qltb_ge; unfold DEAD_BAND; lra).
  rewrite H1, H2, !andb_false_r. cbn [orb].
  change (INV_PERSIST <=? 0)%nat with false. cbn [app].
  destruct (Qeq_bool level 0) eqn:E; [|done].
  apply Qeq_bool_iff in E. destruct Hc. by rewrite <- Hl.
Qed.

Lemma check_invariants_steady level state cur w :
  NoDup (tanks w) → steady_state level w → steady_reading level (tanks w) state →
  (∀ t, t ∈ tanks w → ¬ level t == 0) →
  ∃ w', check_invariants state cur w = (w', Ok []) ∧ steady_state level w'.
Proof.
  intros Hnd Hs Hread Hnz.
  destruct (check_invariants_spec state cur w Hnd) as (p' & b' & Hrun & _ & Hin).
  assert (Hal : invariant_alerts w state cur (pump_on_of state w) (tanks w) = []).
  { apply flat_map_nil. intros t Ht.
    destruct (Hs t Ht) as (_ & Hprev & _).
    by apply (invariant_update_steady _ _ _ _ _ _ (level t));
      [apply Hread|apply Hnz|]. }
  rewrite Hal in Hrun. eexists. split; [exact Hrun|].
  intros t Ht. cbn [tanks set_attrs set_attr_badcnt set_attr_prev] in Ht.
  destruct (Hs t Ht) as (Hc & _ & Hd).
  split; [exact Hc|]. split; [|exact Hd].
  cbn [attr_prev set_attrs set_attr_badcnt set_attr_prev].
  destruct (Hin t Ht) as [-> _]. intros pv [= <-]. by apply Hread.
Qed.

Lemma drift_alert_steady cur t m pm c :
  m == c → (∀ p, pm = Some p → p == c) → drift_alert cur t m pm = [].
Proof.
  intros Hm Hpm. unfold drift_alert. destruct pm as [p|]; [|done].
  specialize (Hpm p eq_refl).
  replace (Qltb DRIFT_THRESHOLD (Qabs (m - p))) with false; [done|].
  symmetry. apply Qltb_ge. unfold DRIFT_THRESHOLD.
  assert (H0 : m - p == 0) by lra. rewrite (Qabs_wd _ _ H0). change (Qabs 0) with 0. lra.
Qed.

Lemma check_drift_steady level state cur w :
  NoDup (tanks w) → steady_state level w → steady_reading level (tanks w) state →
  ∃ w', check_drift state cur w = (w', Ok []) ∧ steady_state level w'.
Proof.
  intros Hnd Hs Hread. destruct (steady_wf level w Hnd Hs) as [_ Hwf].
  pose proof (check_drift_frame state cur w) as F.
  destruct (check_drift_spec state cur w Hwf) as (w' & alerts & Hrun & Hres).
  rewrite Hrun in F. cbn [fst] in F. cbv zeta in F.
  destruct F as (T & _ & _ & Fc & Fp & _).
  assert (Hbuf : ∀ t, t ∈ tanks w →
            Forall (λ x, x == level t) (drift_buffer state w t) ∧
            drift_buffer state w t ≠ []).
  { intros t Ht. destruct (Hs t Ht) as (_ & _ & (buf & Hb & Hall) & _).
    unfold drift_buffer. rewrite Hb. apply deque_append_steady; [done|by apply Hread]. }
  assert (Hst : alerts = [] ∧ steady_state level w'); [|destruct Hst as [-> ?]; eauto].
  destruct (block_complete state w).
  - destruct Hres as [-> Hnew]. split.
    + apply flat_map_nil. intros t Ht. destruct (Hbuf t Ht) as [Hall Hne].
      destruct (Hs t Ht) as (_ & _ & _ & (pm & Hpm & Hm)). rewrite Hpm.
      apply (drift_alert_steady _ _ _ _ (level t)); [by apply np_mean_steady|done].
    + intros t Ht. rewrite T in Ht. destruct (Hs t Ht) as (Hc & Hp & _).
      rewrite Fc, Fp. split; [done|]. split; [done|].
      destruct (Hnew t Ht) as [-> ->]. destruct (Hbuf t Ht) as [Hall Hne].
      split; [by eexists|]. eexists. split; [done|].
      intros m [= <-]. by apply np_mean_steady.
  - destruct Hres as (-> & Hm & Hnew). split; [done|].
    intros t Ht. rewrite T in Ht. destruct (Hs t Ht) as (Hc & Hp & _ & Hpm).
    rewrite Fc, Fp, Hm. split; [done|]. split; [done|]. split; [|done].
    rewrite (Hnew t Ht). destruct (Hbuf t Ht) as [Hall _]. by eexists.
Qed.

(** A turn of the loop while the plant holds its levels. *)
Lemma loop_pass_steady level w poll :
  NoDup (tanks w) → steady_state level w →
  steady_reading level (tanks w) (plant poll) →
  (∀ t, t ∈ tanks w → ¬ level t == 0) →
  let w' := loop_pass w poll in
  tanks w' = tanks w ∧ steady_state level w' ∧
  last_time w' = default (last_time w) (master_time poll) ∧
  (stdout w' = stdout w ∨
   ∃ l, stdout w' = stdout w ++ [l] ∧ is_quiet_line l = true).
Proof.
  intros Hnd Hs Hread Hnz. cbv zeta.
  destruct (master_time poll) as [cur|] eqn:Hcur.
  2:{ rewrite loop_pass_idle by (by left). cbn [default].
      split; [done|]. split; [done|]. split; [done|]. by left. }
  destruct (decide (cur = last_time w)) as [->|Hnew].
  { rewrite loop_pass_idle by (by right). cbn [default].
    split; [done|]. split; [done|]. split; [done|]. by left. }
  destruct (steady_wf level w Hnd Hs) as [Hc Hd].
  destruct (loop_pass_new_id w poll cur Hcur Hnew Hc Hd) as (w1 & a1 & Hrun1 & Hrest).
  destruct (check_cusum_steady level (plant poll) cur w Hnd Hs Hread) as (w1' & Hrun1' & Hs1).
  rewrite Hrun1 in Hrun1'. injection Hrun1' as <- ->.
  pose proof (check_cusum_frame (plant poll) cur w) as F1.
  rewrite Hrun1 in F1. cbn [fst] in F1. cbv zeta in F1.
  destruct F1 as (T1 & _ & _ & _ & _ & _ & _ & L1 & S1).
  destruct (some_window_short w1).
  { destruct Hrest as [counts [_ ->]]. cbn [tanks last_time stdout set_last_time print default].
    split; [done|]. split; [exact Hs1|]. split; [done|]. right. rewrite S1. by eexists. }
  destruct Hrest as (w2 & a2 & w3 & a3 & w4 & a4 & Hrun2 & Hrun3 & Hrun4 & Hrest).
  assert (Hnd1 : NoDup (tanks w1)) by by rewrite T1.
  assert (Hread1 : steady_reading level (tanks w1) (plant poll)) by by rewrite T1.
  destruct (check_cusum_steady level (plant poll) cur w1 Hnd1 Hs1 Hread1) as (w2' & Hrun2' & Hs2).
  rewrite Hrun2 in Hrun2'. injection Hrun2' as <- ->.
  pose proof (check_cusum_frame (plant poll) cur w1) as F2.
  rewrite Hrun2 in F2. cbn [fst] in F2. cbv zeta in F2.
  destruct F2 as (T2 & _ & _ & _ & _ & _ & _ & L2 & S2).
  assert (Hnd2 : NoDup (tanks w2)) by by rewrite T2.
  assert (Hread2 : steady_reading level (tanks w2) (plant poll)) by by rewrite T2.
  assert (Hnz2 : ∀ t, t ∈ tanks w2 → ¬ level t == 0) by (rewrite T2, T1; exact Hnz).
  destruct (check_invariants_steady level (plant poll) cur w2 Hnd2 Hs2 Hread2 Hnz2)
    as (w3' & Hrun3' & Hs3).
  rewrite Hrun3 in Hrun3'. injection Hrun3' as <- ->.
  pose proof (check_invariants_frame (plant poll) cur w2) as F3.
  rewrite Hrun3 in F3. cbn [fst] in F3. cbv zeta in F3.
  destruct F3 as (T3 & _ & _ & _ & _ & _ & L3 & S3).
  assert (Hnd3 : NoDup (tanks w3)) by by rewrite T3.
  assert (Hread3 : steady_reading level (tanks w3) (plant poll)) by by rewrite T3.
  destruct (check_drift_steady level (plant poll) cur w3 Hnd3 Hs3 Hread3)
    as (w4' & Hrun4' & Hs4).
  rewrite Hrun4 in Hrun4'. injection Hrun4' as <- ->.
  pose proof (check_drift_frame (plant poll) cur w3) as F4.
  rewrite Hrun4 in F4. cbn [fst] in F4. cbv zeta in F4.
  destruct F4 as (T4 & _ & _ & _ & _ & _ & L4 & S4).
  rewrite !bool_decide_eq_true_2 in Hrest by done.
  destruct Hrest as [sm ->]. cbn [tanks last_time stdout set_last_time print default].
  split; [congruence|]. split; [exact Hs4|]. split; [done|].
  right. exists (SummaryLine cur sm). split; [congruence|done].
Qed.

Lemma discover_steady level ts ps : steady_state level (discover ts ps).
Proof.
  intros t Ht. cbn [tanks discover] in Ht.
  cbn [discover cusum_state attr_prev long_term_buffers last_block_mean].
  rewrite !(seed_lookup _ ts t Ht). split; [|split; [|split]].
  - eexists. split; [done|]. by repeat split.
  - intros pv. by rewrite lookup_empty.
  - by eexists.
  - eexists. split; [done|]. by intros m.
Qed.

(** X13. While every poll reads the same non-zero level for each tank,
    whatever the pumps do, the loop prints warm-up and summary lines only,
    the iteration id read last is the one recorded, and every tank's CUSUM
    statistics stay at 0 over a window of that level. *)
Theorem steady_plant_is_silent (ts ps : list string) (level : string → Q)
    (polls : list Poll) :
  NoDup ts →
  (∀ t, t ∈ ts → ¬ level t == 0) →
  (∀ p, p ∈ polls → steady_reading level ts (plant p)) →
  let w := monitor ts ps polls in
  forallb is_quiet_line (stdout w) = true ∧
  last_time w = last_id polls ∧
  ∀ t, t ∈ ts →
    ∃ st, cusum_state w !! t = Some st ∧ C_plus st = 0 ∧ C_minus st = 0 ∧
          Forall (λ x, x == level t) (buffer st).
Proof.
  intros Hnd Hnz Hpolls. cbv zeta.
  assert (Hinv : tanks (monitor ts ps polls) = ts ∧
                 steady_state level (monitor ts ps polls) ∧
                 last_time (monitor ts ps polls) = last_id polls ∧
                 forallb is_quiet_line (stdout (monitor ts ps polls)) = true).
  { induction polls as [|p polls IH] using rev_ind.
    - split; [done|]. split; [apply discover_steady|done].
    - destruct IH as (T & Hs & L & O).
      { intros q Hq. apply Hpolls, elem_of_app. by left. }
      rewrite monitor_snoc. unfold last_id. rewrite foldl_app. cbn [foldl].
      fold (last_id polls).
      assert (Hread : steady_reading level (tanks (monitor ts ps polls)) (plant p)).
      { rewrite T. apply Hpolls, elem_of_app. right. apply list_elem_of_here. }
      destruct (loop_pass_steady level (monitor ts ps polls) p) as (T' & Hs' & L' & O');
        [by rewrite T|done|done|by rewrite T|].
      split; [congruence|]. split; [done|]. split; [congruence|].
      destruct O' as [->|(l & -> & Hl)]; [done|].
      rewrite forallb_app, O. cbn. by rewrite Hl. }
  destruct Hinv as (T & Hs & L & O). split; [done|]. split; [done|].
  intros t Ht. rewrite <- T in Ht.
  destruct (Hs t Ht) as ((st & Hst & Hbuf & Hp & Hm & _) & _). eauto 10.
Qed.

(** ** The length of the warm-up *)

Lemma fresh_ids_snoc polls p : ∀ last,
  fresh_ids last (polls ++ [p]) = true ↔
  fresh_ids last polls = true ∧
  ∃ cur, master_time p = Some cur ∧
         cur ≠ foldl (λ acc q, default acc (master_time q)) last polls.
Proof.
  induction polls as [|q polls IH]; intros last; cbn [app fresh_ids foldl].
  - destruct (master_time p) as [cur|]; [|split; [done|by intros [_ (? & ? & _)]]].
    rewrite andb_true_r, negb_true_iff, Z.eqb_neq. split.
    + intros H. split; [done|]. by exists cur.
    + by intros [_ (c & [= <-] & H)].
  - destruct (master_time q) as [c|]; [|split; [done|by intros [? _]]].
    rewrite !andb_true_iff, IH. cbn [default]. tauto.
Qed.

Lemma warmup_counts_eq (l : list string) w :
  (∀ t, t ∈ l → is_Some (cusum_state w !! t)) →
  warmup_counts l w
    = (w, Ok ((λ t, (t, from_option (λ st, length (buffer st)) 0%nat
                          (cusum_state w !! t))) <$> l)).
Proof.
  induction l as [|t l IH]; intros Hall; [done|].
  destruct (Hall t (list_elem_of_here _ _)) as [st Hst].
  cbn [warmup_counts fmap list_fmap].
  assert (Hsub : subscript cusum_state t w = (w, Ok st)).
  { unfold subscript. by rewrite Hst. }
  rewrite (mbind_ok _ _ _ _ _ Hsub).
  rewrite (mbind_ok _ _ _ _ _ (IH (λ u Hu, Hall u (list_elem_of_further _ _ _ Hu)))).
  by rewrite Hst.
Qed.

(** The state after [k] warm-up turns. *)
Lemma monitor_warming ts ps polls :
  NoDup ts → ts ≠ [] → fresh_ids (-1) polls = true → (length polls < W)%nat →
  let w := monitor ts ps polls in
  stdout w = (λ k, warmup_line ts (S k)) <$> seq 0 (length polls) ∧
  last_time w = last_id polls ∧
  (∀ t, t ∈ ts →
     cusum_state w !! t = Some (mkCusum (poll_samples t polls) 0 0 None None)) ∧
  attr_prev w = ∅ ∧ attr_badcnt w = ∅ ∧
  long_term_buffers w = long_term_buffers (discover ts ps) ∧
  last_block_mean w = last_block_mean (discover ts ps).
Proof.
  intros Hnd Hne. induction polls as [|p polls IH] using rev_ind; intros Hfresh Hlen.
  - cbv zeta. cbn [monitor foldl length seq fmap list_fmap].
    split; [done|]. split; [done|]. split; [|done].
    intros t Ht. cbn. by apply seed_lookup.
  - apply fresh_ids_snoc in Hfresh as [Hfresh (cur & Hcur & Hnew)].
    fold (last_id polls) in Hnew.
    rewrite length_app in Hlen. cbn [length] in Hlen.
    destruct (IH Hfresh ltac:(lia)) as (O & L & Hst & Ap & Ab & Lb & Lm). clear IH.
    cbv zeta. rewrite monitor_snoc.
    destruct (monitor_wf ts ps polls Hnd) as (Hc & Hd & T & _).
    set (w := monitor ts ps polls) in *.
    rewrite <- L in Hnew.
    destruct (loop_pass_new_id w p cur Hcur Hnew Hc Hd) as (w1 & a1 & Hrun1 & Hrest).
    pose proof (check_cusum_frame (plant p) cur w) as F1.
    rewrite Hrun1 in F1. cbn [fst] in F1. cbv zeta in F1.
    destruct F1 as (T1 & _ & _ & Lb1 & Lm1 & Ap1 & Ab1 & L1 & S1).
    assert (Hst1 : ∀ t, t ∈ ts →
              cusum_state w1 !! t
                = Some (mkCusum (poll_samples t (polls ++ [p])) 0 0 None None)).
    { intros t Ht. assert (Ht' : t ∈ tanks w) by by rewrite T.
      destruct (check_cusum_step (plant p) cur w t _ Hc Ht' (Hst t Ht))
        as (w' & al & Hrun & _ & _ & Hnew' & _).
      rewrite Hrun1 in Hrun. injection Hrun as <- <-. rewrite Hnew'.
      rewrite cusum_update_warm.
      - cbn [buffer C_plus C_minus h_t persist fst]. unfold poll_samples.
        by rewrite map_app.
      - cbn [buffer]. unfold poll_samples. rewrite length_map. lia. }
    assert (Hshort : some_window_short w1 = true).
    { unfold some_window_short. rewrite T1, T. destruct ts as [|t ts']; [done|].
      apply existsb_exists. exists t. split; [by left|].
      rewrite (Hst1 t (list_elem_of_here _ _)). cbn [from_option buffer].
      apply Nat.ltb_lt. unfold poll_samples. rewrite length_map, length_app.
      cbn [length]. lia. }
    rewrite Hshort in Hrest. destruct Hrest as (counts & Hcounts & ->).
    rewrite warmup_counts_eq in Hcounts.
    2:{ intros t Ht. rewrite T in Ht. by rewrite (Hst1 t Ht). }
    injection Hcounts as <-.
    cbn [stdout last_time cusum_state attr_prev attr_badcnt long_term_buffers
         last_block_mean set_last_time print].
    split; [|split; [|split; [exact Hst1|]]].
    + rewrite S1, O, length_app. cbn [length]. rewrite seq_app, fmap_app.
      cbn [seq fmap list_fmap]. f_equal. f_equal. unfold warmup_line. f_equal.
      rewrite T. apply list_fmap_ext. intros i t Hi.
      rewrite (Hst1 t (list_elem_of_lookup_2 _ _ _ Hi)). cbn [from_option buffer].
      unfold poll_samples. rewrite length_map, length_app. cbn [length].
      f_equal. lia.
    + unfold last_id. rewrite foldl_app. cbn [foldl]. by rewrite Hcur.
    + by rewrite Ap1, Ab1, Lb1, Lm1.
Qed.

(** X14. With at least one tank, the first [W - 1] polls that bring a new
    iteration id are warm-up turns: turn [k] prints the warm-up line with
    [k] samples for every tank and records the id, the windows hold the
    readings so far with the statistics untouched, and the state of the
    invariant checker and of the drift detector is still the seeded one. The
    next new id is no warm-up turn: it prints a summary for that id or the
    NameError report. *)
Theorem warm_up_takes_W_minus_1_turns (ts ps : list string) (polls : list Poll) :
  NoDup ts → ts ≠ [] → fresh_ids (-1) polls = true → (length polls < W)%nat →
  let w := monitor ts ps polls in
  stdout w = (λ k, warmup_line ts (S k)) <$> seq 0 (length polls) ∧
  last_time w = last_id polls ∧
  (∀ t, t ∈ ts →
     cusum_state w !! t = Some (mkCusum (poll_samples t polls) 0 0 None None)) ∧
  attr_prev w = ∅ ∧ attr_badcnt w = ∅ ∧
  long_term_buffers w = long_term_buffers (discover ts ps) ∧
  last_block_mean w = last_block_mean (discover ts ps) ∧
  (length polls = (W - 1)%nat →
   ∀ p cur, master_time p = Some cur → cur ≠ last_time w →
     ∃ l, stdout (loop_pass w p) = stdout w ++ [l] ∧
          match l with
          | SummaryLine it _ => it = cur
          | ErrorLine e => e = NameError "write_alert"
          | _ => False
          end).
Proof.
  intros Hnd Hne Hfresh Hlen.
  destruct (monitor_warming ts ps polls Hnd Hne Hfresh Hlen)
    as (O & L & Hst & Ap & Ab & Lb & Lm).
  cbv zeta. repeat (split; [done|]).
  intros Hlast p cur Hcur Hnew.
  destruct (monitor_wf ts ps polls Hnd) as (Hc & Hd & T & _).
  set (w := monitor ts ps polls) in *.
  destruct (loop_pass_new_id w p cur Hcur Hnew Hc Hd) as (w1 & a1 & Hrun1 & Hrest).
  pose proof (wf_after_check_cusum (plant p) cur w Hc Hd) as [Hc1 Hd1].
  pose proof (check_cusum_frame (plant p) cur w) as F1.
  rewrite Hrun1 in Hc1, Hd1, F1. cbn [fst] in Hc1, Hd1, F1. cbv zeta in F1.
  destruct F1 as (T1 & _ & _ & _ & _ & _ & _ & _ & S1).
  assert (Hfull : some_window_short w1 = false).
  { unfold some_window_short. apply not_true_is_false. intros Hex.
    apply existsb_exists in Hex as (t & Ht & Hlt).
    apply list_elem_of_In in Ht. rewrite T1, T in Ht.
    assert (Ht' : t ∈ tanks w) by by rewrite T.
    destruct (check_cusum_step (plant p) cur w t _ Hc Ht' (Hst t Ht))
      as (w' & al & Hrun & _ & _ & Hnew' & _).
    rewrite Hrun1 in Hrun. injection Hrun as <- <-. rewrite Hnew' in Hlt.
    rewrite cusum_update_warm in Hlt.
    2:{ cbn [buffer]. unfold poll_samples. rewrite length_map. lia. }
    cbn [from_option fst buffer] in Hlt. apply Nat.ltb_lt in Hlt.
    rewrite length_app in Hlt. unfold poll_samples in Hlt.
    rewrite length_map in Hlt. cbn [length] in Hlt. pose proof W_pos. lia. }
  rewrite Hfull in Hrest.
  destruct Hrest as (w2 & a2 & w3 & a3 & w4 & a4 & Hrun2 & Hrun3 & Hrun4 & Hrest).
  pose proof (check_cusum_frame (plant p) cur w1) as F2.
  rewrite Hrun2 in F2. cbn [fst] in F2. cbv zeta in F2.
  destruct F2 as (_ & _ & _ & _ & _ & _ & _ & _ & S2).
  pose proof (check_invariants_frame (plant p) cur w2) as F3.
  rewrite Hrun3 in F3. cbn [fst] in F3. cbv zeta in F3.
  destruct F3 as (_ & _ & _ & _ & _ & _ & _ & S3).
  pose proof (check_drift_frame (plant p) cur w3) as F4.
  rewrite Hrun4 in F4. cbn [fst] in F4. cbv zeta in F4.
  destruct F4 as (_ & _ & _ & _ & _ & _ & _ & S4).
  destruct (bool_decide (a2 = [])).
  2:{ rewrite Hrest. exists (ErrorLine (NameError "write_alert")).
      cbn [stdout print]. split; [congruence|done]. }
  destruct (bool_decide (a3 = [])).
  2:{ rewrite Hrest. exists (ErrorLine (NameError "write_alert")).
      cbn [stdout print]. split; [congruence|done]. }
  destruct (bool_decide (a4 = [])).
  2:{ rewrite Hrest. exists (ErrorLine (NameError "write_alert")).
      cbn [stdout print]. split; [congruence|done]. }
  destruct Hrest as [sm ->]. exists (SummaryLine cur sm).
  cbn [stdout print set_last_time]. split; [congruence|done].
Qed.

(** ** Topology discovery *)

Example tank_pattern_on_names :
  map (re_match TANK_PATTERN)
      ["T1"; "t12x"; "T"; "Tank"; "1T"; "PU1"; "T_1"; "TU1"]
    = [true; true; false; false; false; false; false; false].
Proof. reflexivity. Qed.

Example pump_pattern_on_names :
  map (re_match PUMP_PATTERN)
      ["PU1"; "P1"; "pu22"; "Pu2"; "p9"; "PUx"; "P"; "PUU1"; "T1"]
    = [true; true; true; true; true; false; false; false; false].
Proof. reflexivity. Qed.

Example sorted_on_names :
  sorted ["t07"; "T1"; "T10"; "T2"; "PU1"; "V2"]
    = ["PU1"; "T1"; "T10"; "T2"; "V2"; "t07"].
Proof. reflexivity. Qed.

Lemma match_plus_any cls s :
  match_plus cls (re_match []) s = match s with
                                   | String c _ => cls c
                                   | EmptyString => false
                                   end.
Proof.
  destruct s as [|c s]; [done|]. cbn [match_plus re_match].
  by rewrite orb_true_r, andb_true_r.
Qed.

Lemma one_of_2 a b c :
  one_of (String a (String b EmptyString)) c = true ↔ c = a ∨ c = b.
Proof.
  cbn [one_of]. rewrite orb_false_r, orb_true_iff, !Ascii.eqb_eq. done.
Qed.

Lemma tank_pattern_spec n : re_match TANK_PATTERN n = true ↔ tank_like n.
Proof.
  unfold TANK_PATTERN, tank_like. cbn [re_match]. split.
  - destruct n as [|c [|d rest]]; [done| |].
    + rewrite andb_true_iff. intros [_ H]. done.
    + rewrite match_plus_any, andb_true_iff, one_of_2. intros [Hc Hd]. eauto 10.
  - intros (c & d & rest & -> & Hc & Hd).
    rewrite match_plus_any, andb_true_iff, one_of_2. done.
Qed.

Lemma digit_not_U d : is_digit d = true → one_of "Uu" d = false.
Proof.
  intros Hd. destruct (one_of "Uu" d) eqn:E; [|done].
  apply one_of_2 in E as [-> | ->]; done.
Qed.

Lemma pump_pattern_spec n : re_match PUMP_PATTERN n = true ↔ pump_like n.
Proof.
  unfold PUMP_PATTERN, pump_like. cbn [re_match]. split.
  - destruct n as [|c rest]; [done|].
    rewrite andb_true_iff, one_of_2, orb_true_iff. intros [Hc Hrest].
    exists c, rest. split; [done|]. split; [done|].
    destruct Hrest as [Hrest|Hrest].
    + right. destruct rest as [|u [|d r]]; [done| |].
      * apply andb_true_iff in Hrest as [_ H]. done.
      * rewrite match_plus_any, andb_true_iff, one_of_2 in Hrest.
        destruct Hrest as [Hu Hd]. eauto 10.
    + left. rewrite match_plus_any in Hrest. destruct rest as [|d r]; [done|]. eauto.
  - intros (c & rest & -> & Hc & Hrest).
    rewrite andb_true_iff, one_of_2, orb_true_iff. split; [done|].
    destruct Hrest as [(d & r & -> & Hd)|(u & d & r & -> & Hu & Hd)].
    + right. by rewrite match_plus_any.
    + left. rewrite match_plus_any, andb_true_iff, one_of_2. done.
Qed.

Lemma sorted_elem (l : list string) n : n ∈ sorted l ↔ n ∈ l.
Proof. unfold sorted. by rewrite merge_sort_Permutation. Qed.

Lemma sorted_NoDup (l : list string) : NoDup l → NoDup (sorted l).
Proof. unfold sorted. by rewrite merge_sort_Permutation. Qed.

Lemma sorted_ascending (l : list string) : StronglySorted String.le (sorted l).
Proof. apply StronglySorted_merge_sort; apply _. Qed.

Lemma sorted_Permutation (l1 l2 : list string) : l1 ≡ₚ l2 → sorted l1 = sorted l2.
Proof.
  intros H. apply (StronglySorted_unique String.le); try apply sorted_ascending.
  unfold sorted. by rewrite !merge_sort_Permutation.
Qed.

(** X15. From the distinct names of the plant table, topology discovery keeps
    as tanks exactly the names that start with [T] or [t] and a digit, and as
    pumps exactly those that start with [P] or [p], then possibly [U] or [u],
    then a digit. No name is both a tank and a pump; the two lists have no
    repeats and are in ascending order; the seeded state holds a CUSUM
    entry, a drift buffer and a block mean for every tank; and the order in
    which the rows come does not change the seeded state. *)
Theorem topology_discovery (names : list string) :
  NoDup names →
  let w := discover_names names in
  (∀ n, n ∈ tanks w ↔ n ∈ names ∧ tank_like n) ∧
  (∀ n, n ∈ pumps w ↔ n ∈ names ∧ pump_like n) ∧
  (∀ n, n ∈ tanks w → n ∉ pumps w) ∧
  NoDup (tanks w) ∧ NoDup (pumps w) ∧
  StronglySorted String.le (tanks w) ∧ StronglySorted String.le (pumps w) ∧
  wf_cusum w ∧ wf_drift w ∧
  (∀ names', names' ≡ₚ names → discover_names names' = w).
Proof.
  intros Hnd w. subst w. unfold discover_names. cbn [tanks pumps discover].
  assert (Ht : ∀ n, n ∈ sorted (filter (λ n, re_match TANK_PATTERN n = true) names)
                    ↔ n ∈ names ∧ tank_like n).
  { intros n. rewrite sorted_elem, list_elem_of_filter, tank_pattern_spec. tauto. }
  assert (Hp : ∀ n, n ∈ sorted (filter (λ n, re_match PUMP_PATTERN n = true) names)
                    ↔ n ∈ names ∧ pump_like n).
  { intros n. rewrite sorted_elem, list_elem_of_filter, pump_pattern_spec. tauto. }
  assert (Hndt : NoDup (sorted (filter (λ n, re_match TANK_PATTERN n = true) names)))
    by by apply sorted_NoDup, NoDup_filter.
  split; [exact Ht|]. split; [exact Hp|]. split.
  { intros n [_ (c & d & rest & -> & Hc & _)]%Ht [_ (c' & rest' & [= <- _] & Hc' & _)]%Hp.
    destruct Hc as [-> | ->], Hc' as [?|?]; done. }
  split; [done|]. split; [by apply sorted_NoDup, NoDup_filter|].
  split; [apply sorted_ascending|]. split; [apply sorted_ascending|].
  split; [by apply discover_wf_cusum|]. split; [by apply discover_wf_drift|].
  intros names' Hperm.
  f_equal; apply sorted_Permutation; by rewrite Hperm.
Qed.

(** ** The database helpers *)

Example lower_on_message : lower "Database is LOCKED" = "database is locked"%string.
Proof. reflexivity. Qed.

Example py_int_on_values :
  map py_int [1439 # 10; 143 # 1; 5 # 10; - (5 # 10); - (1439 # 10)]
    = [143; 143; 0; 0; -143]%Z.
Proof. reflexivity. Qed.

Lemma safe_db_query_locked {R : Type} (pre rest : list (R + DbError)) :
  forallb is_locked pre = true →
  safe_db_query (pre ++ rest)
    = ((length pre + (safe_db_query rest).1)%nat, (safe_db_query rest).2).
Proof.
  induction pre as [|a pre IH]; intros H; [cbn [app]; by destruct (safe_db_query rest)|].
  cbn [forallb] in H. apply andb_true_iff in H as [Ha Hpre].
  destruct a as [rows|[message|message]]; try done.
  cbn [is_locked] in Ha. cbn [app safe_db_query]. rewrite Ha, (IH Hpre). done.
Qed.

Lemma safe_db_query_first {R : Type} (a : R + DbError) rest :
  is_locked a = false → safe_db_query (a :: rest) = (0%nat, Some a).
Proof.
  destruct a as [rows|[message|message]]; try done.
  cbn [is_locked safe_db_query]. by intros ->.
Qed.

Lemma lower_app s1 s2 : lower (s1 +:+ s2) = lower s1 +:+ lower s2.
Proof.
  induction s1 as [|c s1 IH]; [done|].
  change (String c s1 +:+ s2) with (String c (s1 +:+ s2)).
  cbn [lower]. rewrite IH. done.
Qed.

Lemma prefix_app s1 s2 : String.prefix s1 (s1 +:+ s2) = true.
Proof.
  induction s1 as [|c s1 IH]; [by destruct s2|].
  change (String c s1 +:+ s2) with (String c (s1 +:+ s2)).
  cbn [String.prefix]. destruct (Ascii.ascii_dec c c); [exact IH|done].
Qed.

Lemma contains_app needle s1 s2 : contains needle (s1 +:+ needle +:+ s2) = true.
Proof.
  induction s1 as [|c s1 IH].
  - change (EmptyString +:+ needle +:+ s2) with (needle +:+ s2).
    destruct (needle +:+ s2) eqn:E; cbn [contains]; rewrite <- E, prefix_app; done.
  - change (String c s1 +:+ needle +:+ s2) with (String c (s1 +:+ needle +:+ s2)).
    cbn [contains]. rewrite IH. apply orb_true_r.
Qed.

(** X16. [safe_db_query] sleeps once for every attempt that fails with an
    OperationalError whose message contains "locked" in any letter case, and
    hands back what the first other attempt comes to, rows or exception. As
    long as every attempt finds the database locked it neither returns nor
    raises: there is no bound on the retries. It never sleeps more often
    than it tried, and what it hands back is no lock error. *)
Theorem safe_db_query_retries_while_locked {R : Type} :
  (∀ (pre rest : list (R + DbError)) a,
     forallb is_locked pre = true → is_locked a = false →
     safe_db_query (pre ++ a :: rest) = (length pre, Some a)) ∧
  (∀ attempts : list (R + DbError),
     forallb is_locked attempts = true →
     safe_db_query attempts = (length attempts, None)) ∧
  (∀ attempts : list (R + DbError),
     (safe_db_query attempts).1 ≤ length attempts ∧
     ∀ a, (safe_db_query attempts).2 = Some a → a ∈ attempts ∧ is_locked a = false) ∧
  (∀ before word after,
     lower word = "locked"%string →
     is_locked (inr (OperationalError (before +:+ word +:+ after)) : R + DbError) = true).
Proof.
  split; [|split; [|split]].
  - intros pre rest a Hpre Ha.
    rewrite (safe_db_query_locked pre _ Hpre), (safe_db_query_first a rest Ha).
    cbn [fst snd]. f_equal. lia.
  - intros attempts H.
    rewrite <- (app_nil_r attempts) at 1.
    rewrite (safe_db_query_locked attempts [] H). cbn. f_equal. lia.
  - induction attempts as [|a attempts [IH1 IH2]]; [cbn; split; [lia|done]|].
    destruct (is_locked a) eqn:Ha.
    + pose proof (safe_db_query_locked [a] attempts) as H. cbn [forallb app] in H.
      rewrite Ha in H. rewrite (H eq_refl). cbn [fst snd length]. split; [lia|].
      intros b Hb. destruct (IH2 b Hb). split; [by right|done].
    + rewrite (safe_db_query_first a attempts Ha). cbn [fst snd length].
      split; [lia|]. intros b [= <-]. split; [by left|done].
  - intros before word after Hw. cbn [is_locked].
    rewrite !lower_app, Hw. apply contains_app.
Qed.

Lemma py_int_bounds (v : Q) :
  (0 <= v → inject_Z (py_int v) <= v ∧ v < inject_Z (py_int v) + 1) ∧
  (v <= 0 → inject_Z (py_int v) - 1 < v ∧ v <= inject_Z (py_int v)).
Proof.
  destruct v as [n d]. unfold py_int. cbn [Qnum Qden].
  pose proof (Z.quot_rem' n (Zpos d)) as Hqr.
  set (q := Z.quot n (Z.pos d)) in *. set (r := Z.rem n (Z.pos d)) in *.
  unfold Qle, Qlt, Qplus, Qminus, Qopp, inject_Z. cbn [Qnum Qden].
  split; intros Hv.
  - assert (Hn : (0 <= n)%Z) by (unfold Qle in Hv; cbn in Hv; lia).
    pose proof (Z.rem_bound_pos n (Z.pos d) Hn ltac:(lia)) as Hr. fold r in Hr.
    clearbody q r. change (1 * 1)%positive with 1%positive. subst n. split; lia.
  - assert (Hn : (n <= 0)%Z) by (unfold Qle in Hv; cbn in Hv; lia).
    pose proof (Z.rem_bound_pos_neg n (Z.pos d) ltac:(lia) Hn) as Hr. fold r in Hr.
    clearbody q r. cbn [Qnum Qden Qplus Qopp Z.opp].
    change (1 * 1)%positive with 1%positive. subst n. split; lia.
Qed.

Lemma foldl_insert_last (rows : list (string * Q)) : ∀ (m : gmap string Q) n,
  foldl (λ state row, <[row.1 := row.2]> state) m rows !! n
    = match last (filter (λ row, row.1 = n) rows) with
      | Some row => Some row.2
      | None => m !! n
      end.
Proof.
  induction rows as [|r rows IH]; intros m n; [done|].
  cbn [foldl]. rewrite IH, filter_cons. destruct (decide (r.1 = n)) as [Heq|Hne].
  - rewrite last_cons. destruct (last (filter _ rows)); [done|].
    by rewrite <- Heq, lookup_insert_eq.
  - by rewrite lookup_insert_ne.
Qed.

(** X17. Once the lock errors are waited out, [get_master_time] gives the
    first row's value with its fraction dropped towards zero ([None] when
    there is no row), [get_current_state] maps every name to the value of
    its last row and has no entry for a name without a row, and any other
    exception of the query comes out of [get_master_time] as it is. *)
Theorem db_readers_decode_rows :
  (∀ pre rows rest,
     forallb is_locked pre = true →
     get_master_time (pre ++ inl rows :: rest)
       = (length pre, Some (inl (py_int <$> head rows)))) ∧
  (∀ v,
     (0 <= v → inject_Z (py_int v) <= v ∧ v < inject_Z (py_int v) + 1) ∧
     (v <= 0 → inject_Z (py_int v) - 1 < v ∧ v <= inject_Z (py_int v))) ∧
  (∀ pre rows rest,
     forallb is_locked pre = true →
     ∃ state,
       get_current_state (pre ++ inl rows :: rest) = (length pre, Some (inl state)) ∧
       ∀ n, state !! n = snd <$> last (filter (λ row, row.1 = n) rows)) ∧
  (∀ pre e rest,
     forallb is_locked pre = true → is_locked (inr e : list Q + DbError) = false →
     get_master_time (pre ++ inr e :: rest) = (length pre, Some (inr e))).
Proof.
  split; [|split; [exact py_int_bounds|split]].
  - intros pre rows rest Hpre. unfold get_master_time.
    rewrite (safe_db_query_locked pre _ Hpre). cbn [safe_db_query fst snd].
    rewrite Nat.add_0_r. by destruct rows.
  - intros pre rows rest Hpre. unfold get_current_state.
    rewrite (safe_db_query_locked pre _ Hpre). cbn [safe_db_query fst snd].
    rewrite Nat.add_0_r. eexists. split; [done|]. intros n.
    destruct rows as [|r rows]; [by rewrite lookup_empty|].
    rewrite foldl_insert_last, lookup_empty. by destruct (last _).
  - intros pre e rest Hpre He. unfold get_master_time.
    rewrite (safe_db_query_locked pre _ Hpre), (safe_db_query_first _ rest He).
    cbn [fst snd]. by rewrite Nat.add_0_r.
Qed.

(** ** The MongoDB handles *)

Lemma getter_calls_snoc server calls g m :
  getter_calls server (calls ++ [g]) m
    = (call_getter server g (getter_calls server calls m)).1.
Proof. unfold getter_calls. by rewrite foldl_app. Qed.

Lemma first_up_none server n :
  first_up server n = None → ∀ j, (j < n)%nat → server j = false.
Proof.
  induction n as [|n IH]; [lia|]. cbn [first_up].
  destruct (first_up server n); [done|]. destruct (server n) eqn:En; [done|].
  intros _ j Hj. destruct (decide (j = n)) as [->|]; [done|].
  apply IH; [done|lia].
Qed.

Lemma first_up_spec server n k :
  first_up server n = Some k →
  (k < n)%nat ∧ server k = true ∧ ∀ j, (j < k)%nat → server j = false.
Proof.
  induction n as [|n IH]; [intros [=]|]. cbn [first_up].
  destruct (first_up server n) as [k'|] eqn:E.
  - intros [= <-]. destruct (IH eq_refl) as (? & ? & ?). split; [lia|done].
  - destruct (server n) eqn:Es; [|done]. intros [= <-].
    split; [lia|]. split; [done|]. by apply first_up_none.
Qed.

(** X18. From the module as imported, after any sequence of calls of the
    three getters the three globals are all [None] or all the handles of one
    and the same connection, the first attempt the server answered. Every
    call made before that ran one connection attempt, none runs after it,
    and from then on each getter returns the handle of that connection and
    changes nothing. *)
Theorem mongo_getters_share_one_connection (server : nat → bool)
    (calls : list Getter) (g : Getter) :
  let n := length calls in
  let m := getter_calls server calls mongo_init in
  _mongo_client m = first_up server n ∧
  _mongo_db m = first_up server n ∧
  _alerts_collection m = first_up server n ∧
  connections m = from_option S n (first_up server n) ∧
  (call_getter server g m).2 = first_up server (S n) ∧
  (∀ k, first_up server n = Some k →
     call_getter server g m = (m, Some k) ∧
     server k = true ∧ ∀ j, (j < k)%nat → server j = false).
Proof.
  cbv zeta.
  assert (Hinv : ∀ calls,
            getter_calls server calls mongo_init
              = mkMongo (first_up server (length calls)) (first_up server (length calls))
                  (first_up server (length calls))
                  (from_option S (length calls) (first_up server (length calls)))).
  { clear calls. intros calls. induction calls as [|h calls IH] using rev_ind; [done|].
    rewrite getter_calls_snoc, IH, length_app. cbn [length]. rewrite Nat.add_1_r.
    cbn [first_up]. destruct (first_up server (length calls)) as [k|] eqn:E.
    - by destruct h.
    - destruct h; cbn; unfold get_mongodb_connection; by destruct (server _). }
  rewrite Hinv. cbn [_mongo_client _mongo_db _alerts_collection connections].
  repeat (split; [done|]). split.
  - cbn [first_up]. destruct (first_up server (length calls)) as [k|] eqn:E.
    + by destruct g.
    + destruct g; cbn; unfold get_mongodb_connection; by destruct (server _).
  - intros k Hk. rewrite Hk. split; [by destruct g|].
    by destruct (first_up_spec server _ k Hk) as (_ & ? & ?).
Qed.

End Properties.

(** * Part IV: closed instances *)

Transparent W.

#[local] Existing Instance numpy_unused.

Lemma w_full_wf : wf_cusum w_full ∧ windows_full w_full = true.
Proof.
  split; [split|].
  - vm_compute. apply NoDup_singleton.
  - apply Forall_forall. intros t Ht. vm_compute in Ht.
    apply list_elem_of_singleton in Ht. subst t. eexists. vm_compute. reflexivity.
  - vm_compute. reflexivity.
Qed.

Lemma w_full_lookup :
  "T1" ∈ tanks w_full ∧ cusum_state w_full !! "T1" = Some st_full ∧
  (W ≤ length (buffer st_full))%nat.
Proof.
  split; [vm_compute; left|]. split; [vm_compute; reflexivity|].
  apply Nat.leb_le. vm_compute. reflexivity.
Qed.

(** C9 at one tank: after the turns for iterations 0 to 144, the last two at
    level 2.0, both statistics of T1 are non-negative. *)
Lemma cusum_statistics_nonneg_witness :
  ∃ st,
    cusum_state (monitor ["T1"] []
                   (warm_polls ++ [poll_T1 143 2; poll_T1 144 2])) !! "T1" = Some st ∧
    0 <= C_plus st ∧ 0 <= C_minus st.
Proof.
  eexists. split; [vm_compute; reflexivity|].
  apply (proj2 (proj2 (cusum_statistics_nonneg ["T1"] []))
           (warm_polls ++ [poll_T1 143 2; poll_T1 144 2]) "T1").
  vm_compute. reflexivity.
Defined.

(** C5 at one tank: the first call after start-up only stores the sample;
    144 calls return nothing; the 145th writes a threshold. *)
Lemma cusum_warm_up_gate_witness :
  (wf_cusum w_seeded ∧ "T1" ∈ tanks w_seeded ∧
   cusum_state w_seeded !! "T1" = Some (mkCusum [] 0 0 None None) ∧
   (length (buffer (mkCusum [] 0 0 None None)) < W)%nat ∧
   ∃ w' alerts,
     check_cusum (snap_T1 5) 0 w_seeded = (w', Ok alerts) ∧
     cusum_state w' !! "T1" = Some (mkCusum [5] 0 0 None None) ∧
     ∀ a, a ∈ alerts → alert_tank a ≠ "T1") ∧
  (NoDup ["T1"] ∧ (length (repeat (snap_T1 1, 0%Z) 144) ≤ W)%nat ∧
   cusum_trace (repeat (snap_T1 1, 0%Z) 144) (discover ["T1"] [])
     = repeat (Ok []) 144) ∧
  (length (repeat (snap_T1 1, 0%Z) 144) = W ∧
   ∃ st,
     cusum_state (cusum_calls
                    (repeat (snap_T1 1, 0%Z) 144 ++ [(snap_T1 2, 144%Z)])
                    (discover ["T1"] [])) !! "T1" = Some st ∧
     is_Some (h_t st)).
Proof.
  assert (Hnd : NoDup ["T1"]) by apply NoDup_singleton.
  assert (Hin : "T1" ∈ ["T1"]) by left.
  split; [|split].
  - split; [by apply discover_wf_cusum|]. split; [exact Hin|].
    split; [reflexivity|]. split; [vm_compute; lia|].
    apply (proj1 (cusum_warm_up_gate) w_seeded (snap_T1 5) 0%Z "T1"
             (mkCusum [] 0 0 None None)).
    + by apply discover_wf_cusum.
    + exact Hin.
    + reflexivity.
    + vm_compute. lia.
  - split; [exact Hnd|]. split; [vm_compute; lia|].
    apply (proj1 (proj2 (cusum_warm_up_gate)) ["T1"] []
             (repeat (snap_T1 1, 0%Z) 144) Hnd).
    vm_compute. lia.
  - split; [reflexivity|].
    destruct (proj2 (proj2 (cusum_warm_up_gate)) ["T1"] []
                (repeat (snap_T1 1, 0%Z) 144) (snap_T1 2, 144%Z) "T1" Hnd Hin eq_refl)
      as (st & Hst & Hh & _).
    exists st. split; [exact Hst|exact Hh].
Defined.

(** C4 at one tank with a full window: a detection step sets the counter and
    returns the alarm accordingly; on a stream that stays above the
    threshold the first call gives no alarm and the second gives one. *)
Lemma cusum_alarm_persistence_witness :
  (wf_cusum w_full ∧ "T1" ∈ tanks w_full ∧
   cusum_state w_full !! "T1" = Some st_full ∧ (W ≤ length (buffer st_full))%nat ∧
   ∃ w' alerts st',
     check_cusum (snap_T1 100) 144 w_full = (w', Ok alerts) ∧
     cusum_state w' !! "T1" = Some st' ∧
     persist st'
       = Some (if above_of st'
               then Nat.min (default 0%nat (persist st_full) + 1) PERSISTENCE_THRESHOLD
               else 0%nat) ∧
     alerts_of "T1" alerts
       = (if decide (persist st' = Some PERSISTENCE_THRESHOLD)
          then [CUSUM_ALARM 144 "T1" (C_plus st') (C_minus st') PERSISTENCE_THRESHOLD]
          else [])) ∧
  (stays_above "T1" high_inputs w_full = true ∧
   default 0%nat (persist st_full) = 0%nat ∧
   (∃ alerts,
      cusum_trace high_inputs w_full !! 0%nat = Some (Ok alerts) ∧
      alerts_of "T1" alerts = []) ∧
   (∃ alerts cp cm,
      cusum_trace high_inputs w_full !! 1%nat = Some (Ok alerts) ∧
      alerts_of "T1" alerts = [CUSUM_ALARM 145 "T1" cp cm PERSISTENCE_THRESHOLD]) ∧
   (∃ alerts cp cm,
      cusum_trace high_inputs w_full !! 2%nat = Some (Ok alerts) ∧
      alerts_of "T1" alerts = [CUSUM_ALARM 146 "T1" cp cm PERSISTENCE_THRESHOLD])).
Proof.
  destruct w_full_wf as [Hwf _].
  destruct w_full_lookup as (Hin & Hst & Hlen).
  assert (Habove : stays_above "T1" high_inputs w_full = true)
    by (vm_compute; reflexivity).
  assert (Hp : default 0%nat (persist st_full) = 0%nat) by (vm_compute; reflexivity).
  pose proof (proj2 (cusum_alarm_persistence) w_full high_inputs "T1"
                st_full Hwf Hin Hst Hlen Habove) as Hstream.
  split.
  - split; [exact Hwf|]. split; [exact Hin|]. split; [exact Hst|]. split; [exact Hlen|].
    exact (proj1 (cusum_alarm_persistence) w_full (snap_T1 100) 144%Z
             "T1" st_full Hwf Hin Hst Hlen).
  - split; [exact Habove|]. split; [exact Hp|]. split; [|split].
    + destruct (cusum_trace high_inputs w_full !! 0%nat) as [r|] eqn:Er;
        [|vm_compute in Er; discriminate].
      destruct (Hstream 0%nat (snap_T1 100, 144%Z) r eq_refl Er)
        as (alerts & -> & Hnone & _).
      exists alerts. split; [reflexivity|]. apply Hnone.
      rewrite Hp. vm_compute. lia.
    + destruct (cusum_trace high_inputs w_full !! 1%nat) as [r|] eqn:Er;
        [|vm_compute in Er; discriminate].
      destruct (Hstream 1%nat (snap_T1 100, 145%Z) r eq_refl Er)
        as (alerts & -> & _ & Hfire).
      destruct Hfire as (cp & cm & Hal); [rewrite Hp; vm_compute; lia|].
      exists alerts, cp, cm. split; [reflexivity|exact Hal].
    + destruct (cusum_trace high_inputs w_full !! 2%nat) as [r|] eqn:Er;
        [|vm_compute in Er; discriminate].
      destruct (Hstream 2%nat (snap_T1 100, 146%Z) r eq_refl Er)
        as (alerts & -> & _ & Hfire).
      destruct Hfire as (cp & cm & Hal); [rewrite Hp; vm_compute; lia|].
      exists alerts, cp, cm. split; [reflexivity|exact Hal].
Defined.




(** C10 at one tank: an empty snapshot, after level 1.0 was recorded, is
    handled as the snapshot that reads 0.0 and returns TANK_EMPTY. *)
Lemma missing_tank_reads_as_empty_witness :
  (∅ : gmap string Q) !! "T1" = None ∧
  check_invariants ∅ 2 w_prev1 = check_invariants (<["T1" := 0]> ∅) 2 w_prev1 ∧
  NoDup (tanks w_prev1) ∧ "T1" ∈ tanks w_prev1 ∧ is_Some (attr_prev w_prev1 !! "T1") ∧
  ∃ w' alerts,
    check_invariants ∅ 2 w_prev1 = (w', Ok alerts) ∧
    attr_prev w' !! "T1" = Some 0 ∧
    TANK_EMPTY 2 "T1" ∈ alerts.
Proof.
  assert (Hmiss : (∅ : gmap string Q) !! "T1" = None) by reflexivity.
  assert (Hnd : NoDup (tanks w_prev1)) by (vm_compute; apply NoDup_singleton).
  assert (Hin : "T1" ∈ tanks w_prev1) by (vm_compute; left).
  assert (Hp : is_Some (attr_prev w_prev1 !! "T1")) by (eexists; vm_compute; reflexivity).
  destruct (missing_tank_reads_as_empty w_prev1 ∅ 2%Z "T1" Hmiss) as [Heq Hrest].
  destruct (Hrest Hnd Hin) as (w' & alerts & Hrun & Hprev & Hempty).
  split; [exact Hmiss|]. split; [exact Heq|]. split; [exact Hnd|].
  split; [exact Hin|]. split; [exact Hp|].
  exists w', alerts. split; [exact Hrun|]. split; [exact Hprev|].
  exact (proj1 (Hempty Hp)).
Defined.

(** C3 at one tank: level 0.0 after a recorded level gives one TANK_EMPTY;
    the first sample gives nothing; the levels 5, 0, 0, 3 give TANK_EMPTY on
    iterations 2 and 3 only. *)
Lemma tank_empty_once_level_recorded_witness :
  (NoDup (tanks w_prev1) ∧ "T1" ∈ tanks w_prev1 ∧ is_Some (attr_prev w_prev1 !! "T1") ∧
   ∃ w' alerts,
     check_invariants (snap_T1 0) 2 w_prev1 = (w', Ok alerts) ∧
     empties_of "T1" alerts = [TANK_EMPTY 2 "T1"]) ∧
  (attr_prev w_seeded !! "T1" = None ∧
   ∃ w' alerts,
     check_invariants (snap_T1 5) 1 w_seeded = (w', Ok alerts) ∧
     alerts_of "T1" alerts = [] ∧
     attr_prev w' !! "T1" = Some 5) ∧
  (snap_T1 5 !! "T1" = Some 5 ∧ snap_T1 0 !! "T1" = Some 0 ∧ snap_T1 3 !! "T1" = Some 3 ∧
   ∃ a1 a2 a3 a4,
     invariant_trace [(snap_T1 5, 1%Z); (snap_T1 0, 2%Z); (snap_T1 0, 3%Z); (snap_T1 3, 4%Z)]
       w_seeded = [Ok a1; Ok a2; Ok a3; Ok a4] ∧
     empties_of "T1" a1 = [] ∧
     empties_of "T1" a2 = [TANK_EMPTY 2 "T1"] ∧
     empties_of "T1" a3 = [TANK_EMPTY 3 "T1"] ∧
     empties_of "T1" a4 = []).
Proof.
  assert (Hnd : NoDup (tanks w_prev1)) by (vm_compute; apply NoDup_singleton).
  assert (Hin : "T1" ∈ tanks w_prev1) by (vm_compute; left).
  assert (Hp : is_Some (attr_prev w_prev1 !! "T1")) by (eexists; vm_compute; reflexivity).
  assert (Hnd0 : NoDup (tanks w_seeded)) by (vm_compute; apply NoDup_singleton).
  assert (Hin0 : "T1" ∈ tanks w_seeded) by (vm_compute; left).
  assert (Hp0 : attr_prev w_seeded !! "T1" = None) by reflexivity.
  assert (H5 : snap_T1 5 !! "T1" = Some 5) by (vm_compute; reflexivity).
  assert (H0 : snap_T1 0 !! "T1" = Some 0) by (vm_compute; reflexivity).
  assert (H3 : snap_T1 3 !! "T1" = Some 3) by (vm_compute; reflexivity).
  destruct tank_empty_once_level_recorded as (Hrec & Hfirst & Hseq).
  split; [|split].
  - split; [exact Hnd|]. split; [exact Hin|]. split; [exact Hp|].
    destruct (Hrec w_prev1 (snap_T1 0) 2%Z "T1" Hnd Hin Hp) as (w' & alerts & Hrun & He).
    exists w', alerts. split; [exact Hrun|]. rewrite He, H0. reflexivity.
  - split; [exact Hp0|].
    destruct (Hfirst w_seeded (snap_T1 5) 1%Z "T1" Hnd0 Hin0 Hp0)
      as (w' & alerts & Hrun & Hal & Hprev).
    exists w', alerts. split; [exact Hrun|]. split; [exact Hal|].
    rewrite Hprev, H5. reflexivity.
  - split; [exact H5|]. split; [exact H0|]. split; [exact H3|].
    exact (Hseq w_seeded (snap_T1 5) (snap_T1 0) (snap_T1 0) (snap_T1 3) "T1"
             Hnd0 Hin0 H5 H0 H0 H3).
Defined.

(** C3 as stated fails on the first observed sample: tank T1 reads exactly
    0.0 on the first iteration [check_invariants] sees, and the call returns
    no alert at all. *)
Lemma tank_empty_first_sample_counterexample :
  "T1" ∈ tanks w_seeded ∧
  Qeq_bool (default 0 (snap_T1 0 !! "T1")) 0 = true ∧
  (check_invariants (snap_T1 0) 1 w_seeded).2 = Ok [] ∧
  attr_prev (check_invariants (snap_T1 0) 1 w_seeded).1 !! "T1" = Some 0.
Proof.
  split; [vm_compute; left|]. split; [vm_compute; reflexivity|].
  split; vm_compute; reflexivity.
Qed.

(** One tank with a full window: the turn for iteration 144 leaves the
    sample twice at the end of the window; a poll without an iteration id
    changes nothing. *)
Lemma loop_feeds_cusum_twice_witness :
  (master_time (poll_T1 144 3) = Some 144%Z ∧ 144%Z ≠ last_time w_full ∧
   wf_cusum w_full ∧ windows_full w_full = true ∧
   "T1" ∈ tanks w_full ∧ cusum_state w_full !! "T1" = Some st_full ∧
   ∃ st',
     cusum_state (loop_pass w_full (poll_T1 144 3)) !! "T1" = Some st' ∧
     buffer st' = tail (tail (buffer st_full) ++ [3]) ++ [3]) ∧
  (master_time (mkPoll None ∅) = None ∧
   loop_pass w_full (mkPoll None ∅) = w_full).
Proof.
  destruct w_full_wf as [Hwf Hfull].
  destruct w_full_lookup as (Hin & Hst & _).
  assert (Hcur : master_time (poll_T1 144 3) = Some 144%Z) by reflexivity.
  assert (Hnew : 144%Z ≠ last_time w_full) by (vm_compute; discriminate).
  destruct (loop_feeds_cusum_twice) as (Htwice & Hidle & _).
  split.
  - split; [exact Hcur|]. split; [exact Hnew|]. split; [exact Hwf|].
    split; [exact Hfull|]. split; [exact Hin|]. split; [exact Hst|].
    destruct (Htwice w_full (poll_T1 144 3) 144%Z "T1" st_full Hcur Hnew Hwf Hfull Hin Hst)
      as [Hlook Hbuf].
    eexists. split; [exact Hlook|]. rewrite Hbuf. vm_compute. reflexivity.
  - split; [reflexivity|]. apply Hidle. left. reflexivity.
Defined.

(** C1 at one tank with a full window: a level of 100.0 on iteration 144
    makes the second CUSUM step of the turn return an alarm, and the turn
    ends with the error line after that step. *)
Lemma alerts_never_reach_a_sink_witness :
  master_time (poll_T1 144 100) = Some 144%Z ∧ 144%Z ≠ last_time w_full ∧
  wf_cusum w_full ∧ windows_full w_full = true ∧
  ∃ w1 a1 w2 a2,
    check_cusum (snap_T1 100) 144 w_full = (w1, Ok a1) ∧
    check_cusum (snap_T1 100) 144 w1 = (w2, Ok a2) ∧
    a2 ≠ [] ∧
    loop_pass w_full (poll_T1 144 100)
      = print (ErrorLine (NameError "write_alert")) w2.
Proof.
  destruct w_full_wf as [Hwf Hfull].
  assert (Hcur : master_time (poll_T1 144 100) = Some 144%Z) by reflexivity.
  assert (Hnew : 144%Z ≠ last_time w_full) by (vm_compute; discriminate).
  split; [exact Hcur|]. split; [exact Hnew|]. split; [exact Hwf|]. split; [exact Hfull|].
  destruct (check_cusum_full (snap_T1 100) 144%Z w_full Hwf Hfull)
    as (w1 & a1 & Hrun1 & Hwf1 & Hfull1 & _).
  destruct (check_cusum_full (snap_T1 100) 144%Z w1 Hwf1 Hfull1)
    as (w2 & a2 & Hrun2 & _).
  assert (Ha2 : a2 ≠ []).
  { assert (Hr1 := Hrun1). vm_compute in Hr1. injection Hr1 as Hw1 _.
    assert (Hr2 := Hrun2). rewrite <- Hw1 in Hr2. vm_compute in Hr2.
    injection Hr2 as _ Ha. rewrite <- Ha. discriminate. }
  exists w1, a1, w2, a2. split; [exact Hrun1|]. split; [exact Hrun2|].
  split; [exact Ha2|].
  exact (proj1 (proj2 (proj2 (alerts_never_reach_a_sink)))
           w_full (poll_T1 144 100) 144%Z w1 a1 w2 a2 Hcur Hnew Hwf Hfull Hrun1 Hrun2 Ha2).
Defined.

(** C2 at one tank just seeded: a poll without an iteration id changes
    nothing; the turn for iteration 0 stores the sample once, prints the
    warm-up line, records the id and leaves the invariant and drift state
    alone. *)
Lemma loop_turn_idle_or_warming_witness :
  (master_time (mkPoll None ∅) = None ∧
   loop_pass w_seeded (mkPoll None ∅) = w_seeded) ∧
  (master_time (poll_T1 0 5) = Some 0%Z ∧ 0%Z ≠ last_time w_seeded ∧
   wf_cusum w_seeded ∧ still_warming w_seeded = true ∧
   "T1" ∈ tanks w_seeded ∧
   cusum_state w_seeded !! "T1" = Some (mkCusum [] 0 0 None None) ∧
   attr_prev (loop_pass w_seeded (poll_T1 0 5)) = attr_prev w_seeded ∧
   long_term_buffers (loop_pass w_seeded (poll_T1 0 5))
     = long_term_buffers w_seeded ∧
   last_time (loop_pass w_seeded (poll_T1 0 5)) = 0%Z ∧
   cusum_state (loop_pass w_seeded (poll_T1 0 5)) !! "T1"
     = Some (mkCusum [5] 0 0 None None)).
Proof.
  destruct (loop_turn_idle_or_warming) as [Hidle Hwarm].
  assert (Hcur : master_time (poll_T1 0 5) = Some 0%Z) by reflexivity.
  assert (Hnew : 0%Z ≠ last_time w_seeded) by (vm_compute; discriminate).
  assert (Hwf : wf_cusum w_seeded) by (apply discover_wf_cusum, NoDup_singleton).
  assert (Hsw : still_warming w_seeded = true) by (vm_compute; reflexivity).
  assert (Hin : "T1" ∈ tanks w_seeded) by (vm_compute; left).
  assert (Hst : cusum_state w_seeded !! "T1" = Some (mkCusum [] 0 0 None None))
    by (vm_compute; reflexivity).
  split.
  - split; [reflexivity|]. apply Hidle. left. reflexivity.
  - destruct (Hwarm w_seeded (poll_T1 0 5) 0%Z Hcur Hnew Hwf Hsw)
      as (w1 & a1 & counts & _ & _ & Hp & _ & Hl & _ & _ & Ht & Hbuf).
    split; [exact Hcur|]. split; [exact Hnew|]. split; [exact Hwf|].
    split; [exact Hsw|]. split; [exact Hin|]. split; [exact Hst|].
    split; [exact Hp|]. split; [exact Hl|]. split; [exact Ht|].
    rewrite (Hbuf "T1" _ Hin Hst); [|vm_compute; lia].
    vm_compute. reflexivity.
Defined.

(** C2 as stated fails on a warm-up turn: iteration 0 is a new id, the loop
    processes it and records it, and the invariant and drift detectors keep
    their initial state for tank T1: no previous level, an empty buffer. *)
Lemma warm_up_turn_counterexample :
  master_time (poll_T1 0 5) = Some 0%Z ∧
  (0 =? last_time w_seeded)%Z = false ∧
  last_time (loop_pass w_seeded (poll_T1 0 5)) = 0%Z ∧
  buffer <$> cusum_state (loop_pass w_seeded (poll_T1 0 5)) !! "T1"
    = Some [5] ∧
  attr_prev (loop_pass w_seeded (poll_T1 0 5)) !! "T1" = None ∧
  long_term_buffers (loop_pass w_seeded (poll_T1 0 5)) !! "T1" = Some [].
Proof. vm_compute. repeat split; reflexivity. Qed.

(** ** The further properties on the one-tank plant *)

(** X15 on four names: one tank in each letter case, one pump, one name that
    is neither. *)
Lemma topology_discovery_witness :
  NoDup ["T1"; "PU1"; "V2"; "t07"] ∧
  tanks (discover_names ["T1"; "PU1"; "V2"; "t07"]) = ["T1"; "t07"] ∧
  pumps (discover_names ["T1"; "PU1"; "V2"; "t07"]) = ["PU1"] ∧
  wf_cusum (discover_names ["T1"; "PU1"; "V2"; "t07"]) ∧
  discover_names ["t07"; "V2"; "PU1"; "T1"] = discover_names ["T1"; "PU1"; "V2"; "t07"].
Proof.
  assert (Hnd : NoDup ["T1"; "PU1"; "V2"; "t07"]).
  { apply (bool_decide_unpack _). vm_compute. exact I. }
  destruct (topology_discovery ["T1"; "PU1"; "V2"; "t07"] Hnd)
    as (_ & _ & _ & _ & _ & _ & _ & Hc & _ & Hperm).
  split; [exact Hnd|]. split; [by vm_compute|]. split; [by vm_compute|].
  split; [exact Hc|]. apply Hperm.
  apply (bool_decide_unpack _). vm_compute. exact I.
Defined.

(** X16 on two locked attempts followed by rows. *)
Lemma safe_db_query_retries_while_locked_witness :
  forallb (is_locked (R := list Q))
    [inr (OperationalError "database is LOCKED"); inr (OperationalError "locked")]
    = true ∧
  is_locked (inl [1] : list Q + DbError) = false ∧
  safe_db_query
    ([inr (OperationalError "database is LOCKED"); inr (OperationalError "locked")]
     ++ inl [1] :: [inr (OtherError "closed")])
    = (2%nat, Some (inl [1])).
Proof.
  assert (H1 : forallb (is_locked (R := list Q))
                 [inr (OperationalError "database is LOCKED");
                  inr (OperationalError "locked")] = true)
    by (vm_compute; reflexivity).
  assert (H2 : is_locked (inl [1] : list Q + DbError) = false) by reflexivity.
  split; [exact H1|]. split; [exact H2|].
  exact (proj1 (safe_db_query_retries_while_locked (R := list Q)) _
           [inr (OtherError "closed")] _ H1 H2).
Defined.

(** X17 on one locked attempt followed by the row 143.9. *)
Lemma db_readers_decode_rows_witness :
  forallb (is_locked (R := list Q)) [inr (OperationalError "database is locked")]
    = true ∧
  get_master_time ([inr (OperationalError "database is locked")]
                   ++ inl [1439 # 10] :: [])
    = (1%nat, Some (inl (py_int <$> head [1439 # 10]))) ∧
  py_int (1439 # 10) = 143%Z ∧
  py_int (- (5 # 10)) = 0%Z.
Proof.
  assert (H1 : forallb (is_locked (R := list Q))
                 [inr (OperationalError "database is locked")] = true)
    by (vm_compute; reflexivity).
  split; [exact H1|].
  split; [exact (proj1 db_readers_decode_rows _ [1439 # 10] [] H1)|].
  split; reflexivity.
Defined.

(** X3 at one tank: the empty snapshot against the one that reports 0.0, and
    an entry for a name that is no tank. *)
Lemma snapshot_read_by_entity_name_witness :
  same_readings (tanks w_seeded ++ pumps w_seeded) (∅ : gmap string Q) (snap_T1 0) ∧
  loop_pass w_seeded (mkPoll (Some 0%Z) ∅)
    = loop_pass w_seeded (mkPoll (Some 0%Z) (snap_T1 0)) ∧
  (∅ : gmap string Q) !! "T1" = None ∧
  loop_pass w_seeded (mkPoll (Some 0%Z) ∅)
    = loop_pass w_seeded (mkPoll (Some 0%Z) (<["T1" := 0]> ∅)) ∧
  ("V2" ∉ tanks w_seeded ++ pumps w_seeded) ∧
  loop_pass w_seeded (mkPoll (Some 0%Z) (<["V2" := 7]> (snap_T1 1)))
    = loop_pass w_seeded (mkPoll (Some 0%Z) (snap_T1 1)).
Proof.
  assert (H1 : same_readings (tanks w_seeded ++ pumps w_seeded) ∅ (snap_T1 0)).
  { intros n Hn. apply list_elem_of_singleton in Hn. subst n. reflexivity. }
  assert (H2 : (∅ : gmap string Q) !! "T1" = None) by reflexivity.
  assert (H3 : "V2" ∉ tanks w_seeded ++ pumps w_seeded).
  { intros Hn. apply list_elem_of_singleton in Hn. discriminate. }
  destruct (snapshot_read_by_entity_name w_seeded (Some 0%Z)) as (G1 & G2 & G3).
  split; [exact H1|]. split; [exact (proj2 (proj2 (proj2 (G1 _ _ 0%Z H1))))|].
  split; [exact H2|]. split; [exact (G2 _ _ H2)|].
  split; [exact H3|]. exact (G3 (snap_T1 1) "V2" 7 H3).
Defined.

(** X5 at one tank after two calls. *)
Lemma cusum_window_holds_last_samples_witness :
  NoDup ["T1"] ∧ "T1" ∈ ["T1"] ∧
  ∃ st,
    cusum_state (cusum_calls [(snap_T1 1, 0%Z); (snap_T1 2, 1%Z)]
                   (discover ["T1"] [])) !! "T1" = Some st ∧
    buffer st = drop (2 - W) (samples "T1" [(snap_T1 1, 0%Z); (snap_T1 2, 1%Z)]).
Proof.
  assert (Hnd : NoDup ["T1"]) by apply NoDup_singleton.
  assert (Hin : "T1" ∈ ["T1"]) by apply list_elem_of_here.
  split; [exact Hnd|]. split; [exact Hin|].
  destruct (cusum_window_holds_last_samples ["T1"] []
              [(snap_T1 1, 0%Z); (snap_T1 2, 1%Z)] "T1" Hnd Hin)
    as (st & Hst & Hbuf & _).
  exists st. split; [exact Hst|exact Hbuf].
Defined.

(** X4 at one tank after the turns for iterations 0 to 144. *)
Lemma cusum_state_stays_in_range_witness :
  cusum_state_bounded
    (monitor ["T1"] [] (warm_polls ++ [poll_T1 143 2; poll_T1 144 2])).
Proof. exact (proj2 (cusum_state_stays_in_range ["T1"] []) _). Defined.




(** X9 at one tank after three rising levels. *)
Lemma invariant_counter_from_fresh_start_witness :
  NoDup ["T1"] ∧
  counters_below_bound
    (invariant_calls [(snap_T1 1, 1%Z); (snap_T1 2, 2%Z); (snap_T1 3, 3%Z)]
       (discover ["T1"] [])).
Proof.
  assert (Hnd : NoDup ["T1"]) by apply NoDup_singleton.
  split; [exact Hnd|].
  exact (proj1 (invariant_counter_from_fresh_start ["T1"] [] Hnd) _).
Defined.



(** X1 at one tank and one pump after two turns. *)
Lemma monitor_state_well_formed_witness :
  NoDup ["T1"] ∧
  wf_cusum (monitor ["T1"] ["P1"] [poll_T1 0 1; poll_T1 1 2]) ∧
  wf_drift (monitor ["T1"] ["P1"] [poll_T1 0 1; poll_T1 1 2]).
Proof.
  assert (Hnd : NoDup ["T1"]) by apply NoDup_singleton.
  split; [exact Hnd|].
  exact (proj2 (proj2 (proj2 (monitor_state_well_formed ["T1"] ["P1"]
                                [poll_T1 0 1; poll_T1 1 2] Hnd)))).
Defined.


(** X13 at one tank held at level 1.0 over two polls. *)
Lemma steady_plant_is_silent_witness :
  NoDup ["T1"] ∧
  (∀ t, t ∈ ["T1"] → ¬ (λ _ : string, 1) t == 0) ∧
  (∀ p, p ∈ [poll_T1 0 1; poll_T1 1 1] →
     steady_reading (λ _, 1) ["T1"] (plant p)) ∧
  forallb is_quiet_line (stdout (monitor ["T1"] [] [poll_T1 0 1; poll_T1 1 1])) = true ∧
  last_time (monitor ["T1"] [] [poll_T1 0 1; poll_T1 1 1])
    = last_id [poll_T1 0 1; poll_T1 1 1].
Proof.
  assert (Hnd : NoDup ["T1"]) by apply NoDup_singleton.
  assert (Hnz : ∀ t, t ∈ ["T1"] → ¬ (λ _ : string, 1) t == 0).
  { intros t _ H. vm_compute in H. discriminate. }
  assert (Hst : ∀ p, p ∈ [poll_T1 0 1; poll_T1 1 1] →
                  steady_reading (λ _, 1) ["T1"] (plant p)).
  { intros p Hp t Ht. apply list_elem_of_singleton in Ht. subst t.
    apply elem_of_cons in Hp as [->|Hp];
      [|apply list_elem_of_singleton in Hp; subst p]; vm_compute; reflexivity. }
  split; [exact Hnd|]. split; [exact Hnz|]. split; [exact Hst|].
  destruct (steady_plant_is_silent ["T1"] [] (λ _, 1) [poll_T1 0 1; poll_T1 1 1]
              Hnd Hnz Hst) as (H1 & H2 & _).
  split; [exact H1|exact H2].
Defined.

(** X14 at one tank over two polls. *)
Lemma warm_up_takes_W_minus_1_turns_witness :
  NoDup ["T1"] ∧ fresh_ids (-1) [poll_T1 0 1; poll_T1 1 1] = true ∧
  (length [poll_T1 0 1; poll_T1 1 1] < W)%nat ∧
  stdout (monitor ["T1"] [] [poll_T1 0 1; poll_T1 1 1])
    = (λ k, warmup_line ["T1"] (S k)) <$> seq 0 (length [poll_T1 0 1; poll_T1 1 1]) ∧
  attr_prev (monitor ["T1"] [] [poll_T1 0 1; poll_T1 1 1]) = ∅.
Proof.
  assert (Hnd : NoDup ["T1"]) by apply NoDup_singleton.
  assert (Hne : ["T1"] ≠ []) by discriminate.
  assert (Hfr : fresh_ids (-1) [poll_T1 0 1; poll_T1 1 1] = true) by reflexivity.
  assert (Hlen : (length [poll_T1 0 1; poll_T1 1 1] < W)%nat) by (vm_compute; lia).
  split; [exact Hnd|]. split; [exact Hfr|]. split; [exact Hlen|].
  destruct (warm_up_takes_W_minus_1_turns ["T1"] [] [poll_T1 0 1; poll_T1 1 1]
              Hnd Hne Hfr Hlen) as (H1 & _ & _ & H2 & _).
  split; [exact H1|exact H2].
Defined.

(** X18 on a server that answers the third attempt: four getter calls, then
    a fifth. *)
Lemma mongo_getters_share_one_connection_witness :
  first_up server_late 4 = Some 2%nat ∧
  (let m := getter_calls server_late
              [AlertsCollection; MongoDb; MongoClient; AlertsCollection] mongo_init in
   call_getter server_late MongoDb m = (m, Some 2%nat) ∧ connections m = 3%nat).
Proof.
  assert (H : first_up server_late 4 = Some 2%nat) by reflexivity.
  split; [exact H|]. cbv zeta.
  destruct (mongo_getters_share_one_connection server_late
              [AlertsCollection; MongoDb; MongoClient; AlertsCollection] MongoDb)
    as (_ & _ & _ & Hn & _ & Hk).
  split; [exact (proj1 (Hk 2%nat H))|exact Hn].
Defined.
